(** * Hash-join core of the vectorized engine: a shallow embedding

    The definitions below follow
    [be/src/exec/vectorized/join_hash_map.cpp] and
    [be/src/exec/pipeline/hashjoin/hash_join_build_operator.cpp].

    Conventions.
    - Row numbers, bucket numbers and array sizes ([uint32_t], [size_t])
      are [nat]: every sum the code forms on them stays far below the
      word size for any table that fits in memory, so no wrap-around is
      written out for them.
    - Byte-sized flags ([uint8_t]: filter entries, null indicators,
      [build_match_index]) and the 32-bit counter [probe_match_index]
      are [N]; the one place where the code decrements a counter writes
      the wrap-around out.
    - A [std::vector]/[Buffer] is a [list]; [v[i]] is [v !!! i] and
      [v[i] = x] is [<[i:=x]> v].  An access past the end is undefined
      behaviour in the source; here a read past the end yields the
      default element and a write past the end leaves the list as it
      is, and the theorems state the sizes they rely on. *)

From Stdlib Require Import ZArith NArith Lia Bool.
From stdpp Require Import base option list numbers.

(** ** Enumerations *)

(** [TJoinOp] (generated from the plan-node interface description). *)
Inductive TJoinOp :=
| INNER_JOIN
| LEFT_OUTER_JOIN
| LEFT_SEMI_JOIN
| RIGHT_OUTER_JOIN
| FULL_OUTER_JOIN
| CROSS_JOIN
| MERGE_JOIN
| RIGHT_SEMI_JOIN
| LEFT_ANTI_JOIN
| RIGHT_ANTI_JOIN
| NULL_AWARE_LEFT_ANTI_JOIN.

(** [PrimitiveType]: the logical column types. *)
Inductive PrimitiveType :=
| INVALID_TYPE
| TYPE_NULL
| TYPE_BOOLEAN
| TYPE_TINYINT
| TYPE_SMALLINT
| TYPE_INT
| TYPE_BIGINT
| TYPE_LARGEINT
| TYPE_FLOAT
| TYPE_DOUBLE
| TYPE_VARCHAR
| TYPE_DATE
| TYPE_DATETIME
| TYPE_BINARY
| TYPE_DECIMAL
| TYPE_CHAR
| TYPE_STRUCT
| TYPE_ARRAY
| TYPE_MAP
| TYPE_HLL
| TYPE_DECIMALV2
| TYPE_TIME
| TYPE_OBJECT
| TYPE_PERCENTILE
| TYPE_DECIMAL32
| TYPE_DECIMAL64
| TYPE_DECIMAL128
| TYPE_JSON.

(** [JoinHashMapType]: the key-layout tag; [empty] is the value before
    [build] has chosen one. *)
Inductive JoinHashMapType :=
| empty
| keyboolean
| key8
| key16
| key32
| key64
| key128
| keyfloat
| keydouble
| keystring
| keydate
| keydatetime
| keydecimal
| keydecimal32
| keydecimal64
| keydecimal128
| slice
| fixed32
| fixed64
| fixed128.

#[global] Instance TJoinOp_eq_dec : EqDecision TJoinOp.
Proof. solve_decision. Defined.
#[global] Instance PrimitiveType_eq_dec : EqDecision PrimitiveType.
Proof. solve_decision. Defined.
#[global] Instance JoinHashMapType_eq_dec : EqDecision JoinHashMapType.
Proof. solve_decision. Defined.

(** ** Columns *)

(** The payload of a cell is opaque to every function modelled here. *)
Definition Datum := Z.

(** [NullColumn]: one [uint8_t] per row, non-zero meaning NULL. *)
Abbreviation NullColumn := (list N).

(** A column is either a plain value column or a [NullableColumn], which
    pairs a data column with a null column of the same size. *)
Inductive Column :=
| ValueColumn (data : list Datum)
| NullableColumn (data : list Datum) (nulls : NullColumn).

#[global] Instance Column_inhabited : Inhabited Column :=
  populate (ValueColumn []).

Definition is_nullable (c : Column) : bool :=
  match c with
  | ValueColumn _ => false
  | NullableColumn _ _ => true
  end.

Definition size (c : Column) : nat :=
  match c with
  | ValueColumn d => length d
  | NullableColumn d _ => length d
  end.

Definition data_column (c : Column) : Column :=
  match c with
  | ValueColumn d => ValueColumn d
  | NullableColumn d _ => ValueColumn d
  end.

Definition null_column (c : Column) : NullColumn :=
  match c with
  | ValueColumn _ => []
  | NullableColumn _ n => n
  end.

(** Modelled from the spec: [Column::has_null] (the column classes are
    not part of the sources at hand).  The spec reads it as "the column
    has an actual NULL value present": some null indicator is set. *)
Definition has_null (c : Column) : bool :=
  existsb (fun b => negb (b =? 0)%N) (null_column c).

(** ** Join keys *)

Record JoinKeyDesc := mkJoinKeyDesc {
  type : PrimitiveType;
  is_null_safe_equal : bool
}.

#[global] Instance JoinKeyDesc_inhabited : Inhabited JoinKeyDesc :=
  populate (mkJoinKeyDesc INVALID_TYPE false).

(** ** Key layout selector *)

Section KeyLayoutSelector.

(** [sizeof(RunTimeTypeTraits<T>::CppType)]: the type traits are
    declared outside the sources at hand, so the selector takes the
    size table as a parameter. *)
Variable sizeof_CppType : PrimitiveType → nat.

Definition _get_size_of_fixed_and_contiguous_type
    (data_type : PrimitiveType) : nat :=
  match data_type with
  | TYPE_BOOLEAN => sizeof_CppType TYPE_BOOLEAN
  | TYPE_TINYINT => sizeof_CppType TYPE_TINYINT
  | TYPE_SMALLINT => sizeof_CppType TYPE_SMALLINT
  | TYPE_INT => sizeof_CppType TYPE_INT
  | TYPE_BIGINT => sizeof_CppType TYPE_BIGINT
  | TYPE_FLOAT => sizeof_CppType TYPE_FLOAT
  | TYPE_DOUBLE => sizeof_CppType TYPE_DOUBLE
  | TYPE_DATE => sizeof_CppType TYPE_DATE
  | TYPE_DATETIME => sizeof_CppType TYPE_DATETIME
  | _ => 0
  end.

(** First loop of [_choose_join_hash_map]: a key whose build column
    holds no NULL loses its null-safe flag.  [key_columns] has one
    column per key; a key without a column is left as it is. *)
Definition drop_null_safe_flags
    (join_keys : list JoinKeyDesc) (key_columns : list Column)
    : list JoinKeyDesc :=
  imap (fun i k =>
          match key_columns !! i with
          | Some c =>
              if has_null c then k
              else mkJoinKeyDesc (type k) false
          | None => k
          end) join_keys.

(** The switch taken when there is exactly one key and it is not
    null-safe. *)
Definition single_key_layout (t : PrimitiveType) : JoinHashMapType :=
  match t with
  | TYPE_BOOLEAN => keyboolean
  | TYPE_TINYINT => key8
  | TYPE_SMALLINT => key16
  | TYPE_INT => key32
  | TYPE_BIGINT => key64
  | TYPE_LARGEINT => key128
  | TYPE_FLOAT => keyfloat
  | TYPE_DOUBLE => keydouble
  | TYPE_VARCHAR | TYPE_CHAR => keystring
  | TYPE_DATE => keydate
  | TYPE_DATETIME => keydatetime
  | TYPE_DECIMALV2 => keydecimal
  | TYPE_DECIMAL32 => keydecimal32
  | TYPE_DECIMAL64 => keydecimal64
  | TYPE_DECIMAL128 => keydecimal128
  | _ => slice
  end.

(** The summing loop: [None] stands for the early
    [return JoinHashMapType::slice] taken at the first key whose type
    has size 0; otherwise the final [total_size_in_byte]. *)
Fixpoint sum_key_sizes (join_keys : list JoinKeyDesc)
    (total_size_in_byte : nat) : option nat :=
  match join_keys with
  | [] => Some total_size_in_byte
  | join_key :: rest =>
      let total :=
        if is_null_safe_equal join_key
        then total_size_in_byte + 1 else total_size_in_byte in
      let s := _get_size_of_fixed_and_contiguous_type (type join_key) in
      if 0 <? s then sum_key_sizes rest (total + s) else None
  end.

(** The three size tests after the loop. *)
Definition layout_of_total (total_size_in_byte : nat) : JoinHashMapType :=
  if total_size_in_byte <=? 4 then fixed32
  else if total_size_in_byte <=? 8 then fixed64
  else if total_size_in_byte <=? 16 then fixed128
  else slice.

(** [_choose_join_hash_map] returns the tag together with the join
    keys as the first loop leaves them (it writes the flags back into
    the table). *)
Definition _choose_join_hash_map
    (join_keys : list JoinKeyDesc) (key_columns : list Column)
    : JoinHashMapType * list JoinKeyDesc :=
  let keys := drop_null_safe_flags join_keys key_columns in
  let size := length keys in
  if (size =? 1) && negb (is_null_safe_equal (keys !!! 0)) then
    (single_key_layout (type (keys !!! 0)), keys)
  else
    match sum_key_sizes keys 0 with
    | None => (slice, keys)
    | Some total => (layout_of_total total, keys)
    end.

(** The branch condition of [_choose_join_hash_map] under which the
    typed single-key switch is skipped: several keys, or a key that
    is still null-safe after the first loop. *)
Definition packed_path (keys : list JoinKeyDesc) : bool :=
  negb ((length keys =? 1) && negb (is_null_safe_equal (keys !!! 0))).

(** The nine types named in [_get_size_of_fixed_and_contiguous_type]. *)
Definition fixed_and_contiguous (t : PrimitiveType) : bool :=
  match t with
  | TYPE_BOOLEAN | TYPE_TINYINT | TYPE_SMALLINT | TYPE_INT | TYPE_BIGINT
  | TYPE_FLOAT | TYPE_DOUBLE | TYPE_DATE | TYPE_DATETIME => true
  | _ => false
  end.

(** Sum of the type widths of the keys. *)
Definition sum_of_widths (keys : list JoinKeyDesc) : nat :=
  foldr (fun k acc => sizeof_CppType (type k) + acc) 0 keys.

(** Number of keys carrying the null-safe flag. *)
Definition null_safe_count (keys : list JoinKeyDesc) : nat :=
  length (filter (fun k => is_null_safe_equal k = true) keys).

(** The layout the selection rule would give if the packed total were
    the sum of the type widths alone (the rule as worded without the
    null-safe byte). *)
Definition layout_by_widths_only (keys : list JoinKeyDesc)
    : JoinHashMapType :=
  layout_of_total (sum_of_widths keys).

End KeyLayoutSelector.

(** The sizes the C++ types have: [uint8_t], [int8_t], [int16_t],
    [int32_t], [int64_t], [float], [double], a date held as a 32-bit
    day number and a timestamp held as a 64-bit integer.  Used for
    concrete examples only. *)
Definition cpp_sizeof (t : PrimitiveType) : nat :=
  match t with
  | TYPE_BOOLEAN => 1
  | TYPE_TINYINT => 1
  | TYPE_SMALLINT => 2
  | TYPE_INT => 4
  | TYPE_BIGINT => 8
  | TYPE_LARGEINT => 16
  | TYPE_FLOAT => 4
  | TYPE_DOUBLE => 8
  | TYPE_DATE => 4
  | TYPE_DATETIME => 8
  | _ => 1
  end.

(** ** Status, slices and loops *)

Inductive Status :=
| OK
| MemoryAllocFailed
| InternalError.

(** A [Slice] is a view: where it points in the key arena and the bytes
    it sees there.  [Slice()] is the empty view. *)
Record Slice := mkSlice {
  slice_data : nat;
  slice_bytes : list Byte.byte
}.

Definition slice_size (s : Slice) : nat := length (slice_bytes s).

#[global] Instance Slice_inhabited : Inhabited Slice := populate (mkSlice 0 []).

(** [for (i = 0; i < n; i++) body] over a threaded state. *)
Definition for_loop {S : Type} (n : nat) (body : nat → S → S) (s : S) : S :=
  foldl (fun acc i => body i acc) s (seq 0 n).

(** [for (i = lo; i < hi; i++) body]. *)
Definition for_range {S : Type} (lo hi : nat) (body : nat → S → S) (s : S) : S :=
  foldl (fun acc i => body i acc) s (seq lo (hi - lo)).

(** [x--] on a [uint32_t]. *)
Definition dec32 (x : N) : N := ((x + (2 ^ 32 - 1)) mod 2 ^ 32)%N.

(** [!x] on a [uint8_t], stored back as 0 or 1. *)
Definition lnot8 (x : N) : N := if (x =? 0)%N then 1%N else 0%N.

(** ** Descriptors and chunks *)

Definition SlotId := nat.
Definition TupleId := nat.

Record SlotDescriptor := mkSlot {
  slot_id : SlotId;
  slot_type : PrimitiveType;
  slot_is_nullable : bool
}.

Record TupleDescriptor := mkTuple {
  tuple_id : TupleId;
  slots : list SlotDescriptor
}.

(** A [RowDescriptor] is used here through [tuple_descriptors] and
    [get_tuple_idx] only; [None] is [INVALID_IDX]. *)
Record RowDescriptor := mkRowDesc {
  tuple_descriptors : list TupleDescriptor
}.

Fixpoint find_tuple_idx (tds : list TupleDescriptor) (id : TupleId) (pos : nat)
    : option nat :=
  match tds with
  | [] => None
  | td :: rest =>
      if tuple_id td =? id then Some pos else find_tuple_idx rest id (S pos)
  end.

Definition get_tuple_idx (rd : RowDescriptor) (id : TupleId) : option nat :=
  find_tuple_idx (tuple_descriptors rd) id 0.

Record HashTableSlotDescriptor := mkHtSlot {
  slot : SlotDescriptor;
  need_output : bool
}.

(** A [Chunk] keeps all its columns in one vector; two index maps say
    which position holds which slot and which tuple marker column.  The
    maps are association lists in insertion order; the latest entry
    for an id is the one in force, as an assignment to the map entry
    makes it. *)
Record Chunk := mkChunk {
  columns : list Column;
  slot_id_to_index : list (SlotId * nat);
  tuple_id_to_index : list (TupleId * nat)
}.

Fixpoint assoc_find (m : list (nat * nat)) (k : nat) : option nat :=
  match m with
  | [] => None
  | (k', v) :: rest =>
      match assoc_find rest k with
      | Some v' => Some v'
      | None => if k' =? k then Some v else None
      end
  end.

(** [Chunk::num_rows]: the size of the first column, 0 without columns. *)
Definition num_rows (c : Chunk) : nat :=
  match columns c with
  | [] => 0
  | col :: _ => size col
  end.

(** [None] when the chunk has no column for the slot (the source asserts
    that it has). *)
Definition get_column_by_slot_id (c : Chunk) (id : SlotId) : option Column :=
  match assoc_find (slot_id_to_index c) id with
  | Some idx => columns c !! idx
  | None => None
  end.

Definition is_tuple_exist (c : Chunk) (id : TupleId) : bool :=
  match assoc_find (tuple_id_to_index c) id with
  | Some _ => true
  | None => false
  end.

Definition tuple_column_index (c : Chunk) (id : TupleId) : nat :=
  default 0 (assoc_find (tuple_id_to_index c) id).

Definition get_tuple_column_by_id (c : Chunk) (id : TupleId) : Column :=
  columns c !!! tuple_column_index c id.

Definition append_column (c : Chunk) (col : Column) (id : SlotId) : Chunk :=
  mkChunk (columns c ++ [col])
          (slot_id_to_index c ++ [(id, length (columns c))])
          (tuple_id_to_index c).

Definition append_tuple_column (c : Chunk) (col : Column) (id : TupleId) : Chunk :=
  mkChunk (columns c ++ [col])
          (slot_id_to_index c)
          (tuple_id_to_index c ++ [(id, length (columns c))]).

Definition set_columns (c : Chunk) (cols : list Column) : Chunk :=
  mkChunk cols (slot_id_to_index c) (tuple_id_to_index c).

(** Modelled from the spec: [Column::append(src, offset, count)] (the
    column classes are not part of the sources at hand): the column is
    extended with [count] rows of [src] from row [offset] on.  A plain
    source appended to a nullable column brings no NULL; the last case
    (nullable source, plain destination) is never reached from
    [append_chunk], which widens the destination first. *)
Definition append (dest src : Column) (offset count : nat) : Column :=
  let rows {A} (l : list A) := take count (drop offset l) in
  match dest, src with
  | ValueColumn d, ValueColumn s => ValueColumn (d ++ rows s)
  | NullableColumn d n, NullableColumn s sn =>
      NullableColumn (d ++ rows s) (n ++ rows sn)
  | NullableColumn d n, ValueColumn s =>
      NullableColumn (d ++ rows s) (n ++ replicate (length (rows s)) 0%N)
  | ValueColumn d, NullableColumn s _ => ValueColumn (d ++ rows s)
  end.

(** [ColumnHelper::create_column] followed by the default row that
    [create] appends ([append_default_not_null_value] for a nullable
    column, [append_default] otherwise): row 0 of every build column. *)
Definition create_column_with_default_row (nullable : bool) : Column :=
  if nullable then NullableColumn [0%Z] [0%N] else ValueColumn [0%Z].

(** [BooleanColumn::create(n, 1)]. *)
Definition BooleanColumn_create (n : nat) (v : Z) : Column :=
  ValueColumn (replicate n v).

(** [NullableColumn::create(col, NullColumn::create(col->size(), 0))]. *)
Definition upgrade_to_nullable (col : Column) : Column :=
  match col with
  | ValueColumn d => NullableColumn d (replicate (length d) 0%N)
  | NullableColumn d n => NullableColumn d n
  end.

(** ** The table and the probe scratch state *)

Record JoinHashTableItems := mkItems {
  build_chunk : Chunk;
  ti_key_columns : list Column;
  build_slots : list HashTableSlotDescriptor;
  probe_slots : list HashTableSlotDescriptor;
  output_build_tuple_ids : list TupleId;
  output_probe_tuple_ids : list TupleId;
  row_desc : RowDescriptor;
  join_type : TJoinOp;
  bucket_size : nat;
  row_count : nat;
  build_column_count : nat;
  probe_column_count : nat;
  with_other_conjunct : bool;
  need_create_tuple_columns : bool;
  left_to_nullable : bool;
  right_to_nullable : bool;
  join_keys : list JoinKeyDesc;
  first : list nat;
  ti_next : list nat;
  build_slice : list Slice
}.

Record HashTableProbeState := mkProbeState {
  build_index : list nat;
  probe_index : list nat;
  probe_match_index : list N;
  build_match_index : list N;
  ps_next : list nat;
  buckets : list nat;
  is_nulls : list N;
  probe_slice : list Slice;
  ps_key_columns : list Column;
  probe_row_count : nat
}.

(** A freshly constructed [HashTableProbeState]: every member empty. *)
Definition default_probe_state : HashTableProbeState :=
  mkProbeState [] [] [] [] [] [] [] [] [] 0.

(** Field updates, one per member the modelled code assigns. *)
Definition set_build_chunk (t : JoinHashTableItems) (v : Chunk) :=
  mkItems v (ti_key_columns t) (build_slots t) (probe_slots t)
    (output_build_tuple_ids t) (output_probe_tuple_ids t) (row_desc t)
    (join_type t) (bucket_size t) (row_count t) (build_column_count t)
    (probe_column_count t) (with_other_conjunct t)
    (need_create_tuple_columns t) (left_to_nullable t) (right_to_nullable t)
    (join_keys t) (first t) (ti_next t) (build_slice t).

Definition set_row_count (t : JoinHashTableItems) (v : nat) :=
  mkItems (build_chunk t) (ti_key_columns t) (build_slots t) (probe_slots t)
    (output_build_tuple_ids t) (output_probe_tuple_ids t) (row_desc t)
    (join_type t) (bucket_size t) v (build_column_count t)
    (probe_column_count t) (with_other_conjunct t)
    (need_create_tuple_columns t) (left_to_nullable t) (right_to_nullable t)
    (join_keys t) (first t) (ti_next t) (build_slice t).

Definition set_bucket_size (t : JoinHashTableItems) (v : nat) :=
  mkItems (build_chunk t) (ti_key_columns t) (build_slots t) (probe_slots t)
    (output_build_tuple_ids t) (output_probe_tuple_ids t) (row_desc t)
    (join_type t) v (row_count t) (build_column_count t)
    (probe_column_count t) (with_other_conjunct t)
    (need_create_tuple_columns t) (left_to_nullable t) (right_to_nullable t)
    (join_keys t) (first t) (ti_next t) (build_slice t).

Definition set_join_keys (t : JoinHashTableItems) (v : list JoinKeyDesc) :=
  mkItems (build_chunk t) (ti_key_columns t) (build_slots t) (probe_slots t)
    (output_build_tuple_ids t) (output_probe_tuple_ids t) (row_desc t)
    (join_type t) (bucket_size t) (row_count t) (build_column_count t)
    (probe_column_count t) (with_other_conjunct t)
    (need_create_tuple_columns t) (left_to_nullable t) (right_to_nullable t)
    v (first t) (ti_next t) (build_slice t).

Definition set_first (t : JoinHashTableItems) (v : list nat) :=
  mkItems (build_chunk t) (ti_key_columns t) (build_slots t) (probe_slots t)
    (output_build_tuple_ids t) (output_probe_tuple_ids t) (row_desc t)
    (join_type t) (bucket_size t) (row_count t) (build_column_count t)
    (probe_column_count t) (with_other_conjunct t)
    (need_create_tuple_columns t) (left_to_nullable t) (right_to_nullable t)
    (join_keys t) v (ti_next t) (build_slice t).

Definition set_ti_next (t : JoinHashTableItems) (v : list nat) :=
  mkItems (build_chunk t) (ti_key_columns t) (build_slots t) (probe_slots t)
    (output_build_tuple_ids t) (output_probe_tuple_ids t) (row_desc t)
    (join_type t) (bucket_size t) (row_count t) (build_column_count t)
    (probe_column_count t) (with_other_conjunct t)
    (need_create_tuple_columns t) (left_to_nullable t) (right_to_nullable t)
    (join_keys t) (first t) v (build_slice t).

Definition set_build_slice (t : JoinHashTableItems) (v : list Slice) :=
  mkItems (build_chunk t) (ti_key_columns t) (build_slots t) (probe_slots t)
    (output_build_tuple_ids t) (output_probe_tuple_ids t) (row_desc t)
    (join_type t) (bucket_size t) (row_count t) (build_column_count t)
    (probe_column_count t) (with_other_conjunct t)
    (need_create_tuple_columns t) (left_to_nullable t) (right_to_nullable t)
    (join_keys t) (first t) (ti_next t) v.

Definition set_probe_match_index (p : HashTableProbeState) (v : list N) :=
  mkProbeState (build_index p) (probe_index p) v (build_match_index p)
    (ps_next p) (buckets p) (is_nulls p) (probe_slice p) (ps_key_columns p)
    (probe_row_count p).

Definition set_build_match_index (p : HashTableProbeState) (v : list N) :=
  mkProbeState (build_index p) (probe_index p) (probe_match_index p) v
    (ps_next p) (buckets p) (is_nulls p) (probe_slice p) (ps_key_columns p)
    (probe_row_count p).

Definition set_ps_next (p : HashTableProbeState) (v : list nat) :=
  mkProbeState (build_index p) (probe_index p) (probe_match_index p)
    (build_match_index p) v (buckets p) (is_nulls p) (probe_slice p)
    (ps_key_columns p) (probe_row_count p).

Definition set_buckets (p : HashTableProbeState) (v : list nat) :=
  mkProbeState (build_index p) (probe_index p) (probe_match_index p)
    (build_match_index p) (ps_next p) v (is_nulls p) (probe_slice p)
    (ps_key_columns p) (probe_row_count p).

Definition set_is_nulls (p : HashTableProbeState) (v : list N) :=
  mkProbeState (build_index p) (probe_index p) (probe_match_index p)
    (build_match_index p) (ps_next p) (buckets p) v (probe_slice p)
    (ps_key_columns p) (probe_row_count p).

Definition set_probe_slice (p : HashTableProbeState) (v : list Slice) :=
  mkProbeState (build_index p) (probe_index p) (probe_match_index p)
    (build_match_index p) (ps_next p) (buckets p) (is_nulls p) v
    (ps_key_columns p) (probe_row_count p).

Record JoinHashTable := mkJoinHashTable {
  _hash_map_type : JoinHashMapType;
  _need_create_tuple_columns : bool;
  _table_items : JoinHashTableItems;
  _probe_state : HashTableProbeState
}.

Record HashTableParam := mkParam {
  param_need_create_tuple_columns : bool;
  param_with_other_conjunct : bool;
  param_join_type : TJoinOp;
  param_row_desc : RowDescriptor;
  param_build_row_desc : RowDescriptor;
  param_probe_row_desc : RowDescriptor;
  param_output_slots : list SlotId;
  param_predicate_slots : list SlotId;
  param_join_keys : list JoinKeyDesc
}.

(** ** [JoinHashTable::create] *)

(** The if / else-if chain on the join type in [create]; the two flags
    start from their default, off. *)
Definition nullable_flags (jt : TJoinOp) : bool * bool :=
  if bool_decide (jt = RIGHT_SEMI_JOIN) || bool_decide (jt = RIGHT_ANTI_JOIN)
     || bool_decide (jt = RIGHT_OUTER_JOIN)
  then (true, false)
  else if bool_decide (jt = LEFT_SEMI_JOIN) || bool_decide (jt = LEFT_ANTI_JOIN)
          || bool_decide (jt = NULL_AWARE_LEFT_ANTI_JOIN)
          || bool_decide (jt = LEFT_OUTER_JOIN)
  then (false, true)
  else if bool_decide (jt = FULL_OUTER_JOIN)
  then (true, true)
  else (false, false).

Definition slot_need_output (param : HashTableParam) (s : SlotDescriptor) : bool :=
  match param_output_slots param with
  | [] => true
  | _ => bool_decide (slot_id s ∈ param_output_slots param)
         || bool_decide (slot_id s ∈ param_predicate_slots param)
  end.

(** Body of the inner loop over the slots of a probe tuple. *)
Definition create_probe_slot (param : HashTableParam)
    (t : JoinHashTableItems) (s : SlotDescriptor) : JoinHashTableItems :=
  mkItems (build_chunk t) (ti_key_columns t) (build_slots t)
    (probe_slots t ++ [mkHtSlot s (slot_need_output param s)])
    (output_build_tuple_ids t) (output_probe_tuple_ids t) (row_desc t)
    (join_type t) (bucket_size t) (row_count t) (build_column_count t)
    (probe_column_count t + 1) (with_other_conjunct t)
    (need_create_tuple_columns t) (left_to_nullable t) (right_to_nullable t)
    (join_keys t) (first t) (ti_next t) (build_slice t).

Definition create_probe_tuple (param : HashTableParam)
    (t : JoinHashTableItems) (td : TupleDescriptor) : JoinHashTableItems :=
  let t := foldl (create_probe_slot param) t (slots td) in
  match get_tuple_idx (row_desc t) (tuple_id td) with
  | Some _ =>
      mkItems (build_chunk t) (ti_key_columns t) (build_slots t)
        (probe_slots t) (output_build_tuple_ids t)
        (output_probe_tuple_ids t ++ [tuple_id td]) (row_desc t)
        (join_type t) (bucket_size t) (row_count t) (build_column_count t)
        (probe_column_count t) (with_other_conjunct t)
        (need_create_tuple_columns t) (left_to_nullable t)
        (right_to_nullable t) (join_keys t) (first t) (ti_next t)
        (build_slice t)
  | None => t
  end.

(** Body of the inner loop over the slots of a build tuple: the slot is
    recorded and its column, holding the default row, joins the build
    chunk. *)
Definition create_build_slot (param : HashTableParam)
    (t : JoinHashTableItems) (s : SlotDescriptor) : JoinHashTableItems :=
  mkItems
    (append_column (build_chunk t)
       (create_column_with_default_row (slot_is_nullable s)) (slot_id s))
    (ti_key_columns t)
    (build_slots t ++ [mkHtSlot s (slot_need_output param s)])
    (probe_slots t)
    (output_build_tuple_ids t) (output_probe_tuple_ids t) (row_desc t)
    (join_type t) (bucket_size t) (row_count t) (build_column_count t + 1)
    (probe_column_count t) (with_other_conjunct t)
    (need_create_tuple_columns t) (left_to_nullable t) (right_to_nullable t)
    (join_keys t) (first t) (ti_next t) (build_slice t).

Definition create_build_tuple (param : HashTableParam)
    (t : JoinHashTableItems) (td : TupleDescriptor) : JoinHashTableItems :=
  let t := foldl (create_build_slot param) t (slots td) in
  match get_tuple_idx (row_desc t) (tuple_id td) with
  | Some _ =>
      mkItems (build_chunk t) (ti_key_columns t) (build_slots t)
        (probe_slots t) (output_build_tuple_ids t ++ [tuple_id td])
        (output_probe_tuple_ids t) (row_desc t)
        (join_type t) (bucket_size t) (row_count t) (build_column_count t)
        (probe_column_count t) (with_other_conjunct t)
        (need_create_tuple_columns t) (left_to_nullable t)
        (right_to_nullable t) (join_keys t) (first t) (ti_next t)
        (build_slice t)
  | None => t
  end.

Definition create (param : HashTableParam) : JoinHashTable :=
  let flags := nullable_flags (param_join_type param) in
  let t0 :=
    mkItems (mkChunk [] [] []) [] [] [] [] [] (param_row_desc param)
      (param_join_type param) 0 0 0 0 (param_with_other_conjunct param)
      (param_need_create_tuple_columns param) flags.1 flags.2
      (param_join_keys param) [] [] [] in
  let t1 := foldl (create_probe_tuple param) t0
              (tuple_descriptors (param_probe_row_desc param)) in
  let t2 := foldl (create_build_tuple param) t1
              (tuple_descriptors (param_build_row_desc param)) in
  mkJoinHashTable empty (param_need_create_tuple_columns param) t2
    default_probe_state.

(** ** [JoinHashTable::append_chunk] *)

(** Body of the loop over the build slots.  [None]: the chunk has no
    column for the slot, or the table holds no slot or column [i]. *)
Definition append_slot_column (chunk : Chunk)
    (slots_ : list HashTableSlotDescriptor) (i : nat)
    (cols : list Column) : option (list Column) :=
  hs ← slots_ !! i;
  dst ← cols !! i;
  column ← get_column_by_slot_id chunk (slot_id (slot hs));
  Some (<[i :=
           if is_nullable dst then append dst column 0 (num_rows chunk)
           else if is_nullable column then
             append (upgrade_to_nullable dst) column 0 (num_rows chunk)
           else append dst column 0 (num_rows chunk)]> cols).

(** Body of the loop over the chunk's tuple marker columns. *)
Definition append_tuple_marker (chunk : Chunk) (rd : RowDescriptor)
    (row_count_ : nat) (bc : Chunk) (entry : TupleId * nat) : Chunk :=
  let id := entry.1 in
  match get_tuple_idx rd id with
  | None => bc
  | Some _ =>
      let src_column := get_tuple_column_by_id chunk id in
      if is_tuple_exist bc id then
        let pos := tuple_column_index bc id in
        set_columns bc
          (<[pos := append (columns bc !!! pos) src_column 0 (size src_column)]>
             (columns bc))
      else
        let dest_column :=
          append (BooleanColumn_create (row_count_ + 1) 1) src_column 0
                 (size src_column) in
        append_tuple_column bc dest_column id
  end.

Definition append_chunk (ht : JoinHashTable) (chunk : Chunk)
    : option JoinHashTable :=
  let t := _table_items ht in
  cols ← foldl (fun acc i => acc ≫= append_slot_column chunk (build_slots t) i)
               (Some (columns (build_chunk t)))
               (seq 0 (build_column_count t));
  let bc := set_columns (build_chunk t) cols in
  let bc :=
    if _need_create_tuple_columns ht then
      foldl (append_tuple_marker chunk (row_desc t) (row_count t)) bc
            (tuple_id_to_index chunk)
    else bc in
  let t := set_build_chunk t bc in
  let t := set_row_count t (row_count t + num_rows chunk) in
  Some (mkJoinHashTable (_hash_map_type ht) (_need_create_tuple_columns ht)
          t (_probe_state ht)).

(** Appending the batches in order; [None] as soon as one append is. *)
Definition append_chunks (ht : JoinHashTable) (chunks : list Chunk)
    : option JoinHashTable :=
  foldl (fun acc c => acc ≫= fun h => append_chunk h c) (Some ht) chunks.

(** ** The opaque-bytes (serialized) build and probe functions *)

(** The two column lists both [construct_hash_table] and [lookup_init]
    prepare from the key columns: a null-safe key contributes its column
    as it is; any other nullable key contributes its data column, and
    its null column too when it holds a NULL. *)
Definition prepare_columns (keys : list JoinKeyDesc) (key_columns : list Column)
    : list Column * list NullColumn :=
  for_loop (length key_columns)
    (fun i '(data_columns, null_columns) =>
       let c := key_columns !!! i in
       if is_null_safe_equal (keys !!! i) then
         (data_columns ++ [c], null_columns)
       else if is_nullable c then
         (data_columns ++ [data_column c],
          if has_null c then null_columns ++ [null_column c]
          else null_columns)
       else (data_columns ++ [c], null_columns))
    ([], []).

Section Serialized.

(** Helpers declared outside the sources at hand, taken as parameters:
    - [max_serialized_size]: [serde::ColumnArraySerde::max_serialized_size];
    - [allocate]: [MemPool::allocate], [None] for a null pointer;
    - [key_bytes]: the bytes [JoinHashMapHelper::get_hash_key] writes
      for a row of the data columns;
    - [bucket_of_bytes]: [JoinHashMapHelper::calc_bucket_num<Slice>], a
      hash of the bytes a slice views, reduced to the bucket count. *)
Variable max_serialized_size : Column → nat.
Variable allocate : nat → option nat.
Variable key_bytes : list Column → nat → list Byte.byte.
Variable bucket_of_bytes : list Byte.byte → nat → nat.

Definition get_hash_key (data_columns : list Column) (row : nat) (ptr : nat)
    : Slice :=
  mkSlice ptr (key_bytes data_columns row).

Definition calc_bucket_num (s : Slice) (bucket_size_ : nat) : nat :=
  bucket_of_bytes (slice_bytes s) bucket_size_.

(** The state the build loops thread: table, scratch state, [*ptr]. *)
Definition BuildCtx : Type := JoinHashTableItems * HashTableProbeState * nat.

Definition serialize_size (data_columns : list Column) : nat :=
  foldl (fun acc c => acc + max_serialized_size c) 0 data_columns.

(** [SerializedJoinBuildFunc::prepare]. *)
Definition prepare (chunk_size : nat) (t : JoinHashTableItems)
    (p : HashTableProbeState) : JoinHashTableItems * HashTableProbeState :=
  (set_build_slice t (resize (row_count t + 1) (mkSlice 0 []) (build_slice t)),
   set_is_nulls
     (set_buckets p (resize chunk_size 0 (buckets p)))
     (resize chunk_size 0%N (is_nulls p))).

(** Serializing one row's key and noting its bucket (the body shared
    by the first loop of [_build_columns] and the guarded loop of
    [_build_nullable_columns]). *)
Definition build_key (data_columns : list Column) (start i : nat)
    (ctx : BuildCtx) : BuildCtx :=
  let '(t, p, ptr) := ctx in
  let t := set_build_slice t
             (<[start + i := get_hash_key data_columns (start + i) ptr]>
                (build_slice t)) in
  let p := set_buckets p
             (<[i := calc_bucket_num (build_slice t !!! (start + i))
                                     (bucket_size t)]> (buckets p)) in
  (t, p, ptr + slice_size (build_slice t !!! (start + i))).

(** [next[start + i] = first[buckets[i]]; first[buckets[i]] = start + i]. *)
Definition link_row (start i : nat) (ctx : BuildCtx) : BuildCtx :=
  let '(t, p, ptr) := ctx in
  let t := set_ti_next t
             (<[start + i := first t !!! (buckets p !!! i)]> (ti_next t)) in
  let t := set_first t (<[buckets p !!! i := start + i]> (first t)) in
  (t, p, ptr).

Definition _build_columns (data_columns : list Column) (start count : nat)
    (ctx : BuildCtx) : BuildCtx :=
  let ctx := for_loop count (build_key data_columns start) ctx in
  for_loop count (link_row start) ctx.

(** The first two loops of [_build_nullable_columns] and of
    [_probe_nullable_column]: [is_nulls[i]] becomes the bitwise or of
    the null indicators of row [start + i]. *)
Definition fill_is_nulls (null_columns : list NullColumn)
    (start count : nat) (nulls : list N) : list N :=
  let nulls :=
    for_loop count
      (fun i acc => <[i := (null_columns !!! 0) !!! (start + i)]> acc)
      nulls in
  for_range 1 (length null_columns)
    (fun i acc =>
       for_loop count
         (fun j acc =>
            <[j := N.lor (acc !!! j) ((null_columns !!! i) !!! (start + j))]>
              acc)
         acc)
    nulls.

Definition _build_nullable_columns (data_columns : list Column)
    (null_columns : list NullColumn) (start count : nat)
    (ctx : BuildCtx) : BuildCtx :=
  let '(t, p, ptr) := ctx in
  let p := set_is_nulls p
             (fill_is_nulls null_columns start count (is_nulls p)) in
  let ctx :=
    for_loop count
      (fun i ctx =>
         if (is_nulls ctx.1.2 !!! i =? 0)%N
         then build_key data_columns start i ctx else ctx)
      (t, p, ptr) in
  for_loop count
    (fun i ctx =>
       if (is_nulls ctx.1.2 !!! i =? 0)%N then link_row start i ctx else ctx)
    ctx.

(** [SerializedJoinBuildFunc::construct_hash_table].  The source divides
    the row count by [state->chunk_size()]: the function stands for it
    for a positive [chunk_size] only. *)
Definition construct_hash_table (chunk_size : nat) (t : JoinHashTableItems)
    (p : HashTableProbeState)
    : Status * JoinHashTableItems * HashTableProbeState :=
  let '(data_columns, null_columns) :=
    prepare_columns (join_keys t) (ti_key_columns t) in
  match allocate (serialize_size data_columns) with
  | None => (MemoryAllocFailed, t, p)
  | Some ptr =>
      let quo := row_count t / chunk_size in
      let rem := row_count t mod chunk_size in
      let batch :=
        match null_columns with
        | [] => _build_columns data_columns
        | _ => _build_nullable_columns data_columns null_columns
        end in
      let ctx :=
        for_loop quo
          (fun i ctx => batch (1 + chunk_size * i) chunk_size ctx)
          (t, p, ptr) in
      let '(t, p, _) := batch (1 + chunk_size * quo) rem ctx in
      (OK, t, p)
  end.

(** The state the probe loops thread: scratch state and [ptr]. *)
Definition ProbeCtx : Type := HashTableProbeState * nat.

(** [probe_slice[i] = get_hash_key(data_columns, i, ptr)]. *)
Definition probe_key (data_columns : list Column) (i : nat)
    (p : HashTableProbeState) (ptr : nat) : HashTableProbeState :=
  set_probe_slice p (<[i := get_hash_key data_columns i ptr]> (probe_slice p)).

(** [buckets[i] = calc_bucket_num(probe_slice[i], bucket_size)]. *)
Definition probe_bucket (t : JoinHashTableItems) (i : nat)
    (p : HashTableProbeState) : HashTableProbeState :=
  set_buckets p
    (<[i := calc_bucket_num (probe_slice p !!! i) (bucket_size t)]> (buckets p)).

Definition _probe_column (t : JoinHashTableItems) (data_columns : list Column)
    (ctx : ProbeCtx) : ProbeCtx :=
  let row_count_ := probe_row_count ctx.1 in
  let ctx :=
    for_loop row_count_
      (fun i '(p, ptr) =>
         let p := probe_key data_columns i p ptr in
         let p := probe_bucket t i p in
         (p, ptr + slice_size (probe_slice p !!! i)))
      ctx in
  for_loop row_count_
    (fun i '(p, ptr) =>
       (set_ps_next p (<[i := first t !!! (buckets p !!! i)]> (ps_next p)), ptr))
    ctx.

Definition _probe_nullable_column (t : JoinHashTableItems)
    (data_columns : list Column) (null_columns : list NullColumn)
    (ctx : ProbeCtx) : ProbeCtx :=
  let '(p, ptr) := ctx in
  let row_count_ := probe_row_count p in
  let p := set_is_nulls p
             (fill_is_nulls null_columns 0 row_count_ (is_nulls p)) in
  let ctx :=
    for_loop row_count_
      (fun i '(p, ptr) =>
         if (is_nulls p !!! i =? 0)%N then
           let p := probe_key data_columns i p ptr in
           (p, ptr + slice_size (probe_slice p !!! i))
         else (p, ptr))
      (p, ptr) in
  for_loop row_count_
    (fun i '(p, ptr) =>
       if (is_nulls p !!! i =? 0)%N then
         let p := probe_bucket t i p in
         (set_ps_next p (<[i := first t !!! (buckets p !!! i)]> (ps_next p)), ptr)
       else
         (set_ps_next p (<[i := 0]> (ps_next p)), ptr))
    ctx.

(** [SerializedJoinProbeFunc::lookup_init]. *)
Definition lookup_init (t : JoinHashTableItems) (p : HashTableProbeState)
    : Status * HashTableProbeState :=
  let '(data_columns, null_columns) :=
    prepare_columns (join_keys t) (ps_key_columns p) in
  match allocate (serialize_size data_columns) with
  | None => (MemoryAllocFailed, p)
  | Some ptr =>
      match null_columns with
      | [] => (OK, (_probe_column t data_columns (p, ptr)).1)
      | _ => (OK, (_probe_nullable_column t data_columns null_columns
                     (p, ptr)).1)
      end
  end.

End Serialized.

(** ** Walking a bucket chain *)

(** The rows met from [row] on by following [next] until the
    terminator 0; [fuel] bounds the number of steps. *)
Fixpoint chain (fuel : nat) (next : list nat) (row : nat) : list nat :=
  match fuel with
  | 0 => []
  | S fuel' =>
      if row =? 0 then [] else row :: chain fuel' next (next !!! row)
  end.

(** The chain of a bucket of a built table: it holds at most the
    [row_count] real rows, so [row_count] steps exhaust it. *)
Definition bucket_chain (t : JoinHashTableItems) (bucket : nat) : list nat :=
  chain (row_count t) (ti_next t) (first t !!! bucket).

(** ** [JoinHashTable::build] *)

Definition needs_build_match_index (jt : TJoinOp) : bool :=
  bool_decide (jt = RIGHT_OUTER_JOIN) || bool_decide (jt = FULL_OUTER_JOIN)
  || bool_decide (jt = RIGHT_SEMI_JOIN) || bool_decide (jt = RIGHT_ANTI_JOIN).

Section Build.

(** Declared outside the sources at hand and taken as parameters:
    the size table of the key types, [JoinHashMapHelper::calc_bucket_size],
    [JoinHashMapHelper::prepare_map_index] and, per layout tag, the
    layout's own [build] routine. *)
Variable sizeof_CppType : PrimitiveType → nat.
Variable calc_bucket_size : nat → nat.
Variable prepare_map_index : HashTableProbeState → nat → HashTableProbeState.
Variable layout_build :
  JoinHashMapType → nat → JoinHashTableItems → HashTableProbeState →
  Status * JoinHashTableItems * HashTableProbeState.

Definition build (chunk_size : nat) (ht : JoinHashTable)
    : Status * JoinHashTable :=
  let t := _table_items ht in
  let p := _probe_state ht in
  let '(hash_map_type, keys) :=
    _choose_join_hash_map sizeof_CppType (join_keys t) (ti_key_columns t) in
  let t := set_join_keys t keys in
  let t := set_bucket_size t (calc_bucket_size (row_count t + 1)) in
  let t := set_first t (resize (bucket_size t) 0 (first t)) in
  let t := set_ti_next t (resize (row_count t + 1) 0 (ti_next t)) in
  let p :=
    if needs_build_match_index (join_type t) then
      let p := set_build_match_index p
                 (resize (row_count t + 1) 0%N (build_match_index p)) in
      set_build_match_index p (<[0 := 1%N]> (build_match_index p))
    else p in
  let p := prepare_map_index p chunk_size in
  match hash_map_type with
  | empty =>
      (OK, mkJoinHashTable hash_map_type (_need_create_tuple_columns ht) t p)
  | _ =>
      let '(st, t, p) := layout_build hash_map_type chunk_size t p in
      (st, mkJoinHashTable hash_map_type (_need_create_tuple_columns ht) t p)
  end.

End Build.

(** ** [JoinHashTable::remove_duplicate_index] *)

(** [Column::Filter]: one [uint8_t] per candidate pair.  Every
    correction runs over the state made of the filter and the probe
    scratch state. *)
Abbreviation Filter := (list N).
Definition DedupState : Type := Filter * HashTableProbeState.

Definition pmi_at (p : HashTableProbeState) (i : nat) : N :=
  probe_match_index p !!! (probe_index p !!! i).

Definition set_pmi_at (p : HashTableProbeState) (i : nat) (v : N)
    : HashTableProbeState :=
  set_probe_match_index p (<[probe_index p !!! i := v]> (probe_match_index p)).

Definition bmi_at (p : HashTableProbeState) (i : nat) : N :=
  build_match_index p !!! (build_index p !!! i).

Definition set_bmi_at (p : HashTableProbeState) (i : nat) (v : N)
    : HashTableProbeState :=
  set_build_match_index p (<[build_index p !!! i := v]> (build_match_index p)).

Definition left_outer_step (i : nat) (s : DedupState) : DedupState :=
  let '(filter, p) := s in
  if (pmi_at p i =? 0)%N then (<[i := 1%N]> filter, p)
  else if (pmi_at p i =? 1)%N then
    if (filter !!! i =? 0)%N then (<[i := 1%N]> filter, p) else (filter, p)
  else if (filter !!! i =? 0)%N then (filter, set_pmi_at p i (dec32 (pmi_at p i)))
  else (filter, p).

Definition _remove_duplicate_index_for_left_outer_join (s : DedupState)
    : DedupState :=
  for_loop (length s.1) left_outer_step s.

Definition left_semi_step (i : nat) (s : DedupState) : DedupState :=
  let '(filter, p) := s in
  if (filter !!! i =? 1)%N then
    if (pmi_at p i =? 0)%N then (filter, set_pmi_at p i 1%N)
    else (<[i := 0%N]> filter, p)
  else (filter, p).

Definition _remove_duplicate_index_for_left_semi_join (s : DedupState)
    : DedupState :=
  for_loop (length s.1) left_semi_step s.

Definition left_anti_step (i : nat) (s : DedupState) : DedupState :=
  let '(filter, p) := s in
  if (pmi_at p i =? 0)%N then (<[i := 1%N]> filter, p)
  else if (pmi_at p i =? 1)%N then
    (<[i := lnot8 (filter !!! i)]> filter, set_pmi_at p i (dec32 (pmi_at p i)))
  else if (filter !!! i =? 0)%N then
    (filter, set_pmi_at p i (dec32 (pmi_at p i)))
  else (<[i := 0%N]> filter, p).

Definition _remove_duplicate_index_for_left_anti_join (s : DedupState)
    : DedupState :=
  for_loop (length s.1) left_anti_step s.

Definition right_outer_step (i : nat) (s : DedupState) : DedupState :=
  let '(filter, p) := s in
  if (filter !!! i =? 1)%N then (filter, set_bmi_at p i 1%N) else (filter, p).

Definition _remove_duplicate_index_for_right_outer_join (s : DedupState)
    : DedupState :=
  for_loop (length s.1) right_outer_step s.

Definition right_semi_step (i : nat) (s : DedupState) : DedupState :=
  let '(filter, p) := s in
  if (filter !!! i =? 1)%N then
    if (bmi_at p i =? 0)%N then (filter, set_bmi_at p i 1%N)
    else (<[i := 0%N]> filter, p)
  else (filter, p).

Definition _remove_duplicate_index_for_right_semi_join (s : DedupState)
    : DedupState :=
  for_loop (length s.1) right_semi_step s.

Definition right_anti_step (i : nat) (s : DedupState) : DedupState :=
  let '(filter, p) := s in
  if (filter !!! i =? 1)%N then (filter, set_bmi_at p i 1%N) else (filter, p).

Definition _remove_duplicate_index_for_right_anti_join (s : DedupState)
    : DedupState :=
  for_loop (length s.1) right_anti_step s.

Definition full_outer_step (i : nat) (s : DedupState) : DedupState :=
  let '(filter, p) := s in
  if (pmi_at p i =? 0)%N then (<[i := 1%N]> filter, p)
  else if (pmi_at p i =? 1)%N then
    if (filter !!! i =? 0)%N then (<[i := 1%N]> filter, p)
    else (filter, set_bmi_at p i 1%N)
  else if (filter !!! i =? 0)%N then
    (filter, set_pmi_at p i (dec32 (pmi_at p i)))
  else (filter, set_bmi_at p i 1%N).

Definition _remove_duplicate_index_for_full_outer_join (s : DedupState)
    : DedupState :=
  for_loop (length s.1) full_outer_step s.

Definition remove_duplicate_index (jt : TJoinOp) (s : DedupState) : DedupState :=
  match jt with
  | LEFT_OUTER_JOIN => _remove_duplicate_index_for_left_outer_join s
  | LEFT_SEMI_JOIN => _remove_duplicate_index_for_left_semi_join s
  | LEFT_ANTI_JOIN | NULL_AWARE_LEFT_ANTI_JOIN =>
      _remove_duplicate_index_for_left_anti_join s
  | RIGHT_OUTER_JOIN => _remove_duplicate_index_for_right_outer_join s
  | RIGHT_SEMI_JOIN => _remove_duplicate_index_for_right_semi_join s
  | RIGHT_ANTI_JOIN => _remove_duplicate_index_for_right_anti_join s
  | FULL_OUTER_JOIN => _remove_duplicate_index_for_full_outer_join s
  | _ => s
  end.

(** One candidate batch as the probe hands it to the correction: the
    row pairs it wrote into [probe_index] / [build_index] and the
    keep/drop vector the residual predicates gave. *)
Record CandidateBatch := mkBatch {
  batch_probe_index : list nat;
  batch_build_index : list nat;
  batch_filter : Filter
}.

Definition load_batch (p : HashTableProbeState) (b : CandidateBatch)
    : HashTableProbeState :=
  mkProbeState (batch_build_index b) (batch_probe_index b)
    (probe_match_index p) (build_match_index p) (ps_next p) (buckets p)
    (is_nulls p) (probe_slice p) (ps_key_columns p) (probe_row_count p).

(** The probe phase as far as the correction sees it: the batches go
    through [remove_duplicate_index] in order, the match counters
    carried from one to the next; the corrected filters are collected. *)
Fixpoint correct_batches (jt : TJoinOp) (p : HashTableProbeState)
    (bs : list CandidateBatch) : list Filter * HashTableProbeState :=
  match bs with
  | [] => ([], p)
  | b :: rest =>
      let '(f, p) := remove_duplicate_index jt (batch_filter b, load_batch p b) in
      let '(fs, p) := correct_batches jt p rest in
      (f :: fs, p)
  end.

(** ** [HashJoinBuildOperator::set_finishing] *)

Inductive StatusOr (A : Type) :=
| StatusValue (v : A)
| StatusError (s : Status).
Arguments StatusValue {A} v.
Arguments StatusError {A} s.

(** [status.ok() && status.value()]. *)
Definition ok_and_true (s : StatusOr bool) : bool :=
  match s with
  | StatusValue v => v
  | StatusError _ => false
  end.

(** The calls [set_finishing] makes on its collaborators, in the order
    it makes them.  Probers are named by their position in
    [_read_only_join_probers]. *)
Inductive Event :=
| BuildHt
| CreateRuntimeFilters
| AddPartialFilters (merger_index ht_row_count : nat)
| PublishRuntimeFilters
| SetCollector (plan_node_id : nat)
| ReferenceHashTable (prober : nat)
| BuilderEnterProbePhase
| ProberEnterProbePhase (prober : nat).

#[global] Instance Event_eq_dec : EqDecision Event.
Proof. solve_decision. Defined.

(** The operator's members [set_finishing] uses; the distribution mode
    is read by a debug assertion only and is left out. *)
Record HashJoinBuildOperator := mkBuildOp {
  _is_finished : bool;
  _plan_node_id : nat;
  _read_only_join_probers : list nat;
  _driver_sequence : nat
}.

(** A computation that calls collaborators: it extends the log of calls
    made so far and returns a value. *)
Definition Eff (A : Type) : Type := list Event → A * list Event.

Definition eff_ret {A} (a : A) : Eff A := fun log => (a, log).

Definition eff_bind {A B} (k : A → Eff B) (m : Eff A) : Eff B :=
  fun log => let '(a, log') := m log in k a log'.

Definition call (e : Event) : Eff unit := fun log => (tt, log ++ [e]).

#[global] Instance Eff_ret : MRet Eff := @eff_ret.
#[global] Instance Eff_bind : MBind Eff := @eff_bind.

(** [for (auto& x : xs) body(x)]. *)
Fixpoint for_each {A} (xs : list A) (body : A → Eff unit) : Eff unit :=
  match xs with
  | [] => eff_ret tt
  | x :: rest => body x;; for_each rest body
  end.

Section BuildOperator.

(** What the collaborators answer: the builder's row count and the
    merger's reply to [add_partial_filters] for a unit index and a row
    count. *)
Variable get_ht_row_count : nat.
Variable add_partial_filters : nat → nat → StatusOr bool.

Definition set_finishing (op : HashJoinBuildOperator)
    : Eff HashJoinBuildOperator :=
  let op' := mkBuildOp true (_plan_node_id op) (_read_only_join_probers op)
               (_driver_sequence op) in
  call BuildHt;;
  let merger_index := _driver_sequence op in
  call CreateRuntimeFilters;;
  let ht_row_count := get_ht_row_count in
  call (AddPartialFilters merger_index ht_row_count);;
  let status := add_partial_filters merger_index ht_row_count in
  (if ok_and_true status then
     call PublishRuntimeFilters;;
     call (SetCollector (_plan_node_id op))
   else eff_ret tt);;
  for_each (_read_only_join_probers op)
    (fun prober => call (ReferenceHashTable prober));;
  call BuilderEnterProbePhase;;
  for_each (_read_only_join_probers op)
    (fun prober => call (ProberEnterProbePhase prober));;
  eff_ret op'.

(** The hand-off to the probe side: the last three statements of
    [set_finishing]. *)
Definition handoff_calls (op : HashJoinBuildOperator) : list Event :=
  map ReferenceHashTable (_read_only_join_probers op)
  ++ [BuilderEnterProbePhase]
  ++ map ProberEnterProbePhase (_read_only_join_probers op).

Definition is_publication (e : Event) : bool :=
  match e with
  | PublishRuntimeFilters | SetCollector _ => true
  | _ => false
  end.

End BuildOperator.

(** ** Auxiliary predicates and example data *)

(** [t] carries the flags and join type of [t0]. *)
Definition same_flags (t0 t : JoinHashTableItems) : Prop :=
  left_to_nullable t = left_to_nullable t0
  ∧ right_to_nullable t = right_to_nullable t0
  ∧ join_type t = join_type t0.

(** A layout build routine for the examples: the opaque-bytes one,
    [prepare] followed by [construct_hash_table], whatever the tag. *)
Definition serialized_layout_build
    (max_serialized_size : Column → nat) (allocate : nat → option nat)
    (key_bytes : list Column → nat → list Byte.byte)
    (bucket_of_bytes : list Byte.byte → nat → nat)
    (tag : JoinHashMapType) (chunk_size : nat)
    (t : JoinHashTableItems) (p : HashTableProbeState)
    : Status * JoinHashTableItems * HashTableProbeState :=
  let '(t, p) := prepare chunk_size t p in
  construct_hash_table max_serialized_size allocate key_bytes bucket_of_bytes
    chunk_size t p.

(** A right outer join on a nullable INT key and a VARCHAR key; the
    build side has the two key slots, the probe side one slot. *)
Definition example_param (jt : TJoinOp) : HashTableParam :=
  mkParam false false jt
    (mkRowDesc [mkTuple 0 [mkSlot 1 TYPE_INT true; mkSlot 2 TYPE_VARCHAR false];
                mkTuple 1 [mkSlot 3 TYPE_INT false]])
    (mkRowDesc [mkTuple 0 [mkSlot 1 TYPE_INT true; mkSlot 2 TYPE_VARCHAR false]])
    (mkRowDesc [mkTuple 1 [mkSlot 3 TYPE_INT false]])
    [] []
    [mkJoinKeyDesc TYPE_INT false; mkJoinKeyDesc TYPE_VARCHAR false].

(** A build batch of two rows; the INT key of the second row is NULL. *)
Definition example_chunk : Chunk :=
  mkChunk [NullableColumn [5; 6]%Z [0; 1]%N; ValueColumn [10; 11]%Z]
          [(1, 0); (2, 1)] [].

(** Stand-ins for the outside helpers in the examples: every column
    serializes to at most 8 bytes a row, allocation succeeds at address
    0, a key's bytes are empty and every key falls in bucket 0. *)
Definition example_max_serialized_size (c : Column) : nat := 8 * size c.
Definition example_allocate (n : nat) : option nat := Some 0.
Definition example_key_bytes (cols : list Column) (row : nat)
    : list Byte.byte := [].
Definition example_bucket_of_bytes (bytes : list Byte.byte) (n : nat) : nat := 0.

(** The key columns reach the table from the join node, outside the
    functions modelled here. *)
Definition with_key_columns (ht : JoinHashTable) (cols : list Column)
    : JoinHashTable :=
  let t := _table_items ht in
  mkJoinHashTable (_hash_map_type ht) (_need_create_tuple_columns ht)
    (mkItems (build_chunk t) cols (build_slots t) (probe_slots t)
       (output_build_tuple_ids t) (output_probe_tuple_ids t) (row_desc t)
       (join_type t) (bucket_size t) (row_count t) (build_column_count t)
       (probe_column_count t) (with_other_conjunct t)
       (need_create_tuple_columns t) (left_to_nullable t)
       (right_to_nullable t) (join_keys t) (first t) (ti_next t)
       (build_slice t))
    (_probe_state ht).

(** The table after [create] and one [append_chunk] of the example
    batch, its key columns being the two build columns. *)
Definition example_table (jt : TJoinOp) : JoinHashTable :=
  match append_chunk (create (example_param jt)) example_chunk with
  | Some ht => with_key_columns ht (columns (build_chunk (_table_items ht)))
  | None => create (example_param jt)
  end.

(** [build] with the stand-in helpers: four buckets, a scratch state
    left as it is by [prepare_map_index], the opaque-bytes build. *)
Definition example_build (chunk_size : nat) (ht : JoinHashTable)
    : Status * JoinHashTable :=
  build cpp_sizeof (fun _ => 4) (fun p _ => p)
    (serialized_layout_build example_max_serialized_size example_allocate
       example_key_bytes example_bucket_of_bytes)
    chunk_size ht.

(** The positions of a candidate batch that are accepted matches of
    probe row [p]: the filter says 1 and the pair's probe row is [p]. *)
Definition accepted_positions (p : nat) (b : CandidateBatch) : list nat :=
  filter (fun i => batch_filter b !!! i = 1%N ∧ batch_probe_index b !!! i = p)
         (seq 0 (length (batch_filter b))).

(** The corrected keep flags [f] at those positions, in batch order. *)
Definition kept_flags (p : nat) (b : CandidateBatch) (f : Filter) : list N :=
  map (fun i => f !!! i) (accepted_positions p b).

(** The same over the whole run of batches. *)
Definition kept_flags_all (p : nat) (bs : list CandidateBatch)
    (fs : list Filter) : list N :=
  concat (zip_with (kept_flags p) bs fs).

(** First-match-only: what [n] accepted matches of one probe row
    become, and the row's flag afterwards, from a flag value [flag]. *)
Definition first_match_only (flag : N) (n : nat) : list N * N :=
  match n with
  | 0 => ([], flag)
  | S m =>
      if (flag =? 0)%N then (1%N :: replicate m 0%N, 1%N)
      else (replicate n 0%N, flag)
  end.

(** How many accepted matches probe row [p] has over all batches. *)
Definition accepted_count (p : nat) (bs : list CandidateBatch) : nat :=
  foldr (fun b acc => length (accepted_positions p b) + acc) 0 bs.

(** A corrected filter [f] differs from the batch's own only where the
    batch had an accepted match. *)
Definition only_accepted_touched (b : CandidateBatch) (f : Filter) : Prop :=
  length f = length (batch_filter b)
  ∧ ∀ i, batch_filter b !!! i ≠ 1%N → f !!! i = batch_filter b !!! i.

(** Two candidate batches of one probe chunk: probe row 0 has three
    accepted matches, spread over both, probe row 1 has one. *)
Definition example_batches : list CandidateBatch :=
  [mkBatch [0; 0; 1] [1; 2; 1] [1; 1; 0]%N;
   mkBatch [0; 1] [3; 2] [1; 1]%N].

Definition example_probe_state : HashTableProbeState :=
  mkProbeState [] [] [0; 0]%N [1; 0; 0; 0]%N [] [] [] [] [] 2.

(** A build batch fit for a table with build slots [slots_]: it has a
    column for every build slot, of the batch's row count (all columns
    of a chunk have the same number of rows). *)
Definition chunk_wf (slots_ : list HashTableSlotDescriptor) (chunk : Chunk)
    : Prop :=
  ∀ hs, hs ∈ slots_ →
    ∃ col, get_column_by_slot_id chunk (slot_id (slot hs)) = Some col
           ∧ size col = num_rows chunk.

(** The shape [create] gives the table and every [append_chunk] keeps,
    at row count [n]: the first [build_column_count] columns of the
    build chunk are the slot columns, one per build slot, each of
    [n + 1] rows (the default row 0 and the [n] appended rows); tuple
    marker columns sit behind them. *)
Definition build_columns_inv (t : JoinHashTableItems) (n : nat) : Prop :=
  row_count t = n
  ∧ length (build_slots t) = build_column_count t
  ∧ build_column_count t ≤ length (columns (build_chunk t))
  ∧ (∀ i, i < build_column_count t →
          size (columns (build_chunk t) !!! i) = n + 1)
  ∧ (∀ id pos, assoc_find (tuple_id_to_index (build_chunk t)) id = Some pos →
               build_column_count t ≤ pos).

(** The shape of the table while [create] runs: no row yet, one column
    of one row (the default row) per build slot recorded so far, no
    tuple marker column. *)
Definition fresh_build_columns (t : JoinHashTableItems) : Prop :=
  row_count t = 0
  ∧ length (build_slots t) = build_column_count t
  ∧ length (columns (build_chunk t)) = build_column_count t
  ∧ (∀ i, i < build_column_count t → size (columns (build_chunk t) !!! i) = 1)
  ∧ tuple_id_to_index (build_chunk t) = [].

(** The bitwise or of the null indicators of row [row] over the null
    columns: 0 exactly when no non-null-safe key of the row is NULL. *)
Definition null_or (null_columns : list NullColumn) (row : nat) : N :=
  foldl (fun acc nc => N.lor acc (nc !!! row)) 0%N null_columns.

(** A build row takes part in the index when that or is 0. *)
Definition row_included (null_columns : list NullColumn) (row : nat) : bool :=
  (null_or null_columns row =? 0)%N.

(** Linking the rows [rows], in order, into the chains held in
    ([first], [next]): the two assignments of the build loops, for the
    rows [included] lets through, each into the bucket [bucket] gives
    it. *)
Definition link_rows (included : nat → bool) (bucket : nat → nat)
    (rows : list nat) (fn : list nat * list nat) : list nat * list nat :=
  foldl (fun '(f, nx) r =>
           if included r then (<[bucket r := r]> f, <[r := f !!! bucket r]> nx)
           else (f, nx))
        fn rows.

(** The rows of 1..[n] that are indexed and fall into bucket [b], in
    insertion order. *)
Definition rows_of_bucket (included : nat → bool) (bucket : nat → nat)
    (n b : nat) : list nat :=
  filter (fun r => included r = true ∧ bucket r = b) (seq 1 n).

(** What one batch of the opaque-bytes build does to the state [ctx0],
    whichever of the two build functions runs it: sizes and counters
    stay, and the rows [start .. start + count - 1] are linked. *)
Definition batch_effect (key_bytes : list Column → nat → list Byte.byte)
    (bucket_of_bytes : list Byte.byte → nat → nat)
    (dc : list Column) (ncs : list NullColumn)
    (start count : nat) (ctx0 ctx : BuildCtx) : Prop :=
  bucket_size ctx.1.1 = bucket_size ctx0.1.1
  ∧ row_count ctx.1.1 = row_count ctx0.1.1
  ∧ length (build_slice ctx.1.1) = length (build_slice ctx0.1.1)
  ∧ length (buckets ctx.1.2) = length (buckets ctx0.1.2)
  ∧ length (is_nulls ctx.1.2) = length (is_nulls ctx0.1.2)
  ∧ build_match_index ctx.1.2 = build_match_index ctx0.1.2
  ∧ (first ctx.1.1, ti_next ctx.1.1)
    = link_rows (row_included ncs)
        (fun r => bucket_of_bytes (key_bytes dc r) (bucket_size ctx0.1.1))
        (seq start count) (first ctx0.1.1, ti_next ctx0.1.1).

(** The example table as [build] hands it to the layout's build
    routine: layout chosen, [first] and [next] allocated and zeroed. *)
Definition example_allocated_table : JoinHashTable :=
  (build cpp_sizeof (fun _ => 4) (fun p _ => p) (fun _ _ t p => (OK, t, p))
     2 (example_table RIGHT_OUTER_JOIN)).2.

(** The table [t] with its index arrays replaced: what the build
    functions may change of a table. *)
Definition reindexed (t : JoinHashTableItems) (f nx : list nat)
    (sl : list Slice) : JoinHashTableItems :=
  mkItems (build_chunk t) (ti_key_columns t) (build_slots t) (probe_slots t)
    (output_build_tuple_ids t) (output_probe_tuple_ids t) (row_desc t)
    (join_type t) (bucket_size t) (row_count t) (build_column_count t)
    (probe_column_count t) (with_other_conjunct t)
    (need_create_tuple_columns t) (left_to_nullable t) (right_to_nullable t)
    (join_keys t) f nx sl.

(** The probe state [p] with its per-batch scratch arrays replaced:
    what [lookup_init] and the build functions may change of it. *)
Definition rescratched (p : HashTableProbeState) (nx bk : list nat)
    (nl : list N) (sl : list Slice) : HashTableProbeState :=
  mkProbeState (build_index p) (probe_index p) (probe_match_index p)
    (build_match_index p) nx bk nl sl (ps_key_columns p) (probe_row_count p).

(** A build state that differs from ([t], [p]) in those arrays only. *)
Definition build_frame (t : JoinHashTableItems) (p : HashTableProbeState)
    (ctx : BuildCtx) : Prop :=
  ctx.1.1 = reindexed t (first ctx.1.1) (ti_next ctx.1.1) (build_slice ctx.1.1)
  ∧ ctx.1.2 = rescratched p (ps_next p) (buckets ctx.1.2) (is_nulls ctx.1.2)
                (probe_slice p).

(** A probe state that differs from [p] in the scratch arrays only. *)
Definition probe_frame (p : HashTableProbeState) (ctx : ProbeCtx) : Prop :=
  ctx.1 = rescratched p (ps_next ctx.1) (buckets ctx.1) (is_nulls ctx.1)
            (probe_slice ctx.1).

(** [_probe_column] and [_probe_nullable_column] write the scratch
    arrays only, keep their sizes, and write cursors below
    [probe_row_count] only. *)
Definition probe_shape (p : HashTableProbeState) (ctx : ProbeCtx) : Prop :=
  probe_frame p ctx
  ∧ length (ps_next ctx.1) = length (ps_next p)
  ∧ length (buckets ctx.1) = length (buckets p)
  ∧ length (probe_slice ctx.1) = length (probe_slice p)
  ∧ (∀ i, probe_row_count p ≤ i → ps_next ctx.1 !! i = ps_next p !! i).

(** A probe batch of three rows for the example join, the scratch
    arrays sized for four: the INT key of the second row is NULL. *)
Definition example_probe_batch : HashTableProbeState :=
  mkProbeState [] [] [] [] (replicate 4 7) (replicate 4 0) (replicate 4 0%N)
    (replicate 4 (mkSlice 0 []))
    [NullableColumn [5; 6; 7]%Z [0; 1; 0]%N; ValueColumn [10; 11; 12]%Z] 3.

(** ** The probe-side corrections as per-row rules *)

(** The probe state [p] with the two match indexes replaced: what
    [remove_duplicate_index] may change of it. *)
Definition rematched (p : HashTableProbeState) (pmi bmi : list N)
    : HashTableProbeState :=
  mkProbeState (build_index p) (probe_index p) pmi bmi (ps_next p) (buckets p)
    (is_nulls p) (probe_slice p) (ps_key_columns p) (probe_row_count p).

(** What a correction keeps of the state ([f0], [p0]) it starts from;
    [keep_pmi] / [keep_bmi] say that the probe-side / build-side match
    index is untouched as well. *)
Definition dedup_inv (keep_pmi keep_bmi : bool) (f0 : Filter)
    (p0 : HashTableProbeState) (s : DedupState) : Prop :=
  length s.1 = length f0
  ∧ s.2 = rematched p0 (probe_match_index s.2) (build_match_index s.2)
  ∧ length (probe_match_index s.2) = length (probe_match_index p0)
  ∧ length (build_match_index s.2) = length (build_match_index p0)
  ∧ (keep_pmi = true → probe_match_index s.2 = probe_match_index p0)
  ∧ (keep_bmi = true → build_match_index s.2 = build_match_index p0).

(** A rule reads the counter of the candidate's probe row and the
    candidate's keep flag and gives the new flag and the new counter. *)
Definition MatchRule : Type := N → N → N * N.

(** One loop round of a correction that follows [rule]. *)
Definition rule_step (rule : MatchRule) (i : nat) (s : DedupState)
    : DedupState :=
  let '(filter, p) := s in
  let r := rule (pmi_at p i) (filter !!! i) in
  (<[i := r.1]> filter, set_pmi_at p i r.2).

(** The branches of the LEFT_OUTER, LEFT_SEMI and LEFT_ANTI loop bodies,
    as rules. *)
Definition left_outer_rule : MatchRule := fun c a =>
  if (c =? 0)%N then (1%N, c)
  else if (c =? 1)%N then ((if (a =? 0)%N then 1%N else a), c)
  else if (a =? 0)%N then (a, dec32 c)
  else (a, c).

Definition left_semi_rule : MatchRule := fun c a =>
  if (a =? 1)%N then (if (c =? 0)%N then (a, 1%N) else (0%N, c))
  else (a, c).

Definition left_anti_rule : MatchRule := fun c a =>
  if (c =? 0)%N then (1%N, c)
  else if (c =? 1)%N then (lnot8 a, dec32 c)
  else if (a =? 0)%N then (a, dec32 c)
  else (0%N, c).

(** A rule run over the flags of one row's candidates, in order, from
    counter [c]: the flags it leaves and the final counter. *)
Fixpoint run_rule (rule : MatchRule) (c : N) (inputs : list N)
    : list N * N :=
  match inputs with
  | [] => ([], c)
  | a :: rest =>
      let r := rule c a in
      let r' := run_rule rule r.2 rest in
      (r.1 :: r'.1, r'.2)
  end.

(** The positions of a batch that are candidates of probe row [p],
    the flags the batch has there and the flags a corrected filter [f]
    has there; the same over a run of batches. *)
Definition candidate_positions (p : nat) (b : CandidateBatch) : list nat :=
  filter (fun i => batch_probe_index b !!! i = p)
         (seq 0 (length (batch_filter b))).

Definition flags_in (p : nat) (b : CandidateBatch) : list N :=
  map (fun i => batch_filter b !!! i) (candidate_positions p b).

Definition flags_out (p : nat) (b : CandidateBatch) (f : Filter) : list N :=
  map (fun i => f !!! i) (candidate_positions p b).

Definition flags_in_all (p : nat) (bs : list CandidateBatch) : list N :=
  concat (map (flags_in p) bs).

Definition flags_out_all (p : nat) (bs : list CandidateBatch)
    (fs : list Filter) : list N :=
  concat (zip_with (flags_out p) bs fs).

(** The same for the candidates of build row [j]. *)
Definition build_candidate_positions (j : nat) (b : CandidateBatch)
    : list nat :=
  filter (fun i => batch_build_index b !!! i = j)
         (seq 0 (length (batch_filter b))).

Definition build_flags_in_all (j : nat) (bs : list CandidateBatch) : list N :=
  concat (map (fun b => map (fun i => batch_filter b !!! i)
                            (build_candidate_positions j b)) bs).

Definition build_flags_out_all (j : nat) (bs : list CandidateBatch)
    (fs : list Filter) : list N :=
  concat (zip_with (fun b f => map (fun i => f !!! i)
                                   (build_candidate_positions j b)) bs fs).

(** The probe state and a batch with the roles of the two sides
    exchanged. *)
Definition swap_sides (p : HashTableProbeState) : HashTableProbeState :=
  mkProbeState (probe_index p) (build_index p) (build_match_index p)
    (probe_match_index p) (ps_next p) (buckets p) (is_nulls p) (probe_slice p)
    (ps_key_columns p) (probe_row_count p).

Definition swap_batch (b : CandidateBatch) : CandidateBatch :=
  mkBatch (batch_build_index b) (batch_probe_index b) (batch_filter b).

(** The batches of a probe chunk through the loop of [rule]. *)
Fixpoint rule_batches (rule : MatchRule) (p : HashTableProbeState)
    (bs : list CandidateBatch) : list Filter * HashTableProbeState :=
  match bs with
  | [] => ([], p)
  | b :: rest =>
      let s := for_loop (length (batch_filter b)) (rule_step rule)
                 (batch_filter b, load_batch p b) in
      let r := rule_batches rule s.2 rest in
      (s.1 :: r.1, r.2)
  end.

(** How many of the flags are 0 (rejected candidates). *)
Definition rejected_count (l : list N) : nat :=
  length (filter (fun a => a = 0%N) l).

(** Two candidate batches of one probe chunk for the outer and anti
    corrections: probe row 0 has three candidates, all rejected by the
    residual predicates, probe row 1 has two, one of them accepted. *)
Definition example_outer_batches : list CandidateBatch :=
  [mkBatch [0; 0; 1] [1; 2; 1] [0; 0; 1]%N;
   mkBatch [0; 1] [3; 2] [0; 0]%N].

Definition example_outer_probe_state : HashTableProbeState :=
  mkProbeState [] [] [3; 2]%N [1; 0; 0; 0]%N [] [] [] [] [] 2.

(** A probe chunk whose row 0 found no build row: its one candidate
    carries build index 0 and its match count is 0. *)
Definition example_unmatched_batches : list CandidateBatch :=
  [mkBatch [0; 1] [0; 2] [0; 1]%N].

Definition example_unmatched_probe_state : HashTableProbeState :=
  mkProbeState [] [] [0; 1]%N [1; 0; 0]%N [] [] [] [] [] 2.

(** An accepted flag (1) cleared, any other flag as it is. *)
Definition clear_accepted (a : N) : N := if (a =? 1)%N then 0%N else a.

(** Probe rows 0 and 1 both match build row 1 and are accepted; build
    row 2 is matched by probe row 0 only. *)
Definition example_right_batches : list CandidateBatch :=
  [mkBatch [0; 0] [1; 2] [1; 1]%N;
   mkBatch [1] [1] [1]%N].

Definition example_right_probe_state : HashTableProbeState :=
  mkProbeState [] [] [0; 0]%N [1; 0; 0]%N [] [] [] [] [] 2.

(** A build-side match index [bmi] that differs from the one of [p]
    only by entries set to 1 at build rows of candidates, among the
    first [n] of the batch, whose keep flag in [f] is not 0. *)
Definition build_marks_from (f : Filter) (p : HashTableProbeState) (n : nat)
    (bmi : list N) : Prop :=
  ∀ j, bmi !! j = build_match_index p !! j
       ∨ (bmi !! j = Some 1%N
          ∧ ∃ i, i < n ∧ f !!! i ≠ 0%N ∧ build_index p !!! i = j).

(** The slots of a row descriptor, tuple by tuple, in order; the table's
    record of a slot; the tuples of [rd] that the output row descriptor
    [out] knows. *)
Definition all_slots (rd : RowDescriptor) : list SlotDescriptor :=
  concat (map slots (tuple_descriptors rd)).

Definition ht_slot (param : HashTableParam) (s : SlotDescriptor)
    : HashTableSlotDescriptor :=
  mkHtSlot s (slot_need_output param s).

Definition known_tuple_ids (out : RowDescriptor) (tds : list TupleDescriptor)
    : list TupleId :=
  map tuple_id
    (filter (fun td => is_Some (get_tuple_idx out (tuple_id td))) tds).

Definition default_row_column (s : SlotDescriptor) : Column :=
  create_column_with_default_row (slot_is_nullable s).

(** The values of a column and its null flags, row by row; a plain
    column flags no row. *)
Definition column_data (c : Column) : list Datum :=
  match c with
  | ValueColumn d => d
  | NullableColumn d _ => d
  end.

Definition null_flags (c : Column) : list N :=
  match c with
  | ValueColumn d => replicate (length d) 0%N
  | NullableColumn _ n => n
  end.

(** [new] is [old] with the first [n] rows of [src] behind it: values
    and null flags of the old rows as they were; it is nullable when
    either is. *)
Definition rows_appended (n : nat) (old src new : Column) : Prop :=
  column_data new = column_data old ++ take n (column_data src)
  ∧ null_flags new = null_flags old ++ take n (null_flags src)
  ∧ is_nullable new = is_nullable old || is_nullable src.

(** A build batch of one row whose second column, for the non-nullable
    slot 2, arrives nullable and holds a NULL. *)
Definition example_nullable_chunk : Chunk :=
  mkChunk [NullableColumn [5]%Z [0]%N; NullableColumn [10]%Z [1]%N]
          [(1, 0); (2, 1)] [].

(** The table of [example_param] after that batch. *)
Definition example_appended_table : JoinHashTable :=
  Eval vm_compute in
    default (create (example_param INNER_JOIN))
      (append_chunk (create (example_param INNER_JOIN))
         example_nullable_chunk).

(** ** [HashJoinBuildOperator::prepare] and [close] *)

(** The joiners an operator holds: its builder and the read-only
    probers, named as in [_read_only_join_probers]. *)
Inductive Joiner :=
| Builder
| Prober (id : nat).

#[global] Instance Joiner_eq_dec : EqDecision Joiner.
Proof. solve_decision. Defined.

(** The calls [prepare] and [close] make, in the order they make them. *)
Inductive LifecycleCall :=
| OperatorPrepare
| Ref (j : Joiner)
| BuilderPrepare
| Unref (j : Joiner)
| OperatorClose.

#[global] Instance LifecycleCall_eq_dec : EqDecision LifecycleCall.
Proof. solve_decision. Defined.

Module Lifecycle.

Section Lifecycle.

(** What [Operator::prepare] and the builder's [prepare] answer. *)
Variable operator_prepare : Status.
Variable builder_prepare : Status.

Definition prepare (op : HashJoinBuildOperator)
    : Status * list LifecycleCall :=
  match operator_prepare with
  | OK =>
      (builder_prepare,
       [OperatorPrepare; Ref Builder]
       ++ map (fun id => Ref (Prober id)) (_read_only_join_probers op)
       ++ [BuilderPrepare])
  | e => (e, [OperatorPrepare])
  end.

Definition close (op : HashJoinBuildOperator) : list LifecycleCall :=
  map (fun id => Unref (Prober id)) (_read_only_join_probers op)
  ++ [Unref Builder; OperatorClose].

End Lifecycle.

End Lifecycle.

(** How often a log takes, and how often it releases, joiner [j]. *)
Definition ref_count (j : Joiner) (log : list LifecycleCall) : nat :=
  length (filter (fun c => c = Ref j) log).

Definition unref_count (j : Joiner) (log : list LifecycleCall) : nat :=
  length (filter (fun c => c = Unref j) log).

(** The allocated example table with its scratch arrays sized for
    batches of two rows, before any row is linked. *)
Definition example_build_ctx : BuildCtx :=
  (prepare 2 (_table_items example_allocated_table)
     (_probe_state example_allocated_table), 0).

(** * Properties *)

(** ** Loops *)

Lemma for_loop_0 {S : Type} (body : nat → S → S) (s : S) :
  for_loop 0 body s = s.
Proof. reflexivity. Qed.

Lemma for_loop_S {S : Type} (n : nat) (body : nat → S → S) (s : S) :
  for_loop (Datatypes.S n) body s = body n (for_loop n body s).
Proof.
  unfold for_loop. rewrite seq_S, foldl_app. reflexivity.
Qed.

Lemma for_loop_ind {S : Type} (P : nat → S → Prop) (body : nat → S → S)
    (n : nat) (s : S) :
  P 0 s →
  (∀ i acc, i < n → P i acc → P (Datatypes.S i) (body i acc)) →
  P n (for_loop n body s).
Proof.
  intros H0 Hstep. induction n as [|n IH].
  - exact H0.
  - rewrite for_loop_S. apply Hstep; [lia|]. apply IH.
    intros i acc Hi. apply Hstep. lia.
Qed.

Lemma foldl_preserves {A B : Type} (P : A → Prop) (f : A → B → A)
    (l : list B) (a : A) :
  P a → (∀ a b, P a → P (f a b)) → P (foldl f a l).
Proof.
  revert a. induction l as [|b l IH]; intros a Ha Hf; simpl; auto.
Qed.

(** ** Creation: the nullability-promotion flags *)

Lemma create_probe_tuple_flags param t0 t td :
  same_flags t0 t → same_flags t0 (create_probe_tuple param t td).
Proof.
  intros H. unfold create_probe_tuple.
  assert (same_flags t0 (foldl (create_probe_slot param) t (slots td))) as H'.
  { apply foldl_preserves; [exact H|]. intros a b Ha. exact Ha. }
  destruct (get_tuple_idx _ _); exact H'.
Qed.

Lemma create_build_tuple_flags param t0 t td :
  same_flags t0 t → same_flags t0 (create_build_tuple param t td).
Proof.
  intros H. unfold create_build_tuple.
  assert (same_flags t0 (foldl (create_build_slot param) t (slots td))) as H'.
  { apply foldl_preserves; [exact H|]. intros a b Ha. exact Ha. }
  destruct (get_tuple_idx _ _); exact H'.
Qed.

Lemma create_flags param :
  let t := _table_items (create param) in
  (left_to_nullable t, right_to_nullable t)
    = nullable_flags (param_join_type param)
  ∧ join_type t = param_join_type param.
Proof.
  simpl.
  match goal with
  | |- context [foldl (create_build_tuple param) (foldl _ ?t0 _) _] =>
      assert (same_flags t0
                (foldl (create_build_tuple param)
                   (foldl (create_probe_tuple param) t0
                      (tuple_descriptors (param_probe_row_desc param)))
                   (tuple_descriptors (param_build_row_desc param)))) as H
  end.
  { apply foldl_preserves.
    - apply foldl_preserves; [repeat split|].
      intros a b. apply create_probe_tuple_flags.
    - intros a b. apply create_build_tuple_flags. }
  destruct H as (Hl & Hr & Hj). rewrite Hl, Hr, Hj. simpl.
  split; [|reflexivity]. destruct (nullable_flags _); reflexivity.
Qed.

(** C7. For every join type, the flags [create] leaves in the table are:
    [left_to_nullable] alone for RIGHT_OUTER, RIGHT_SEMI and RIGHT_ANTI;
    [right_to_nullable] alone for LEFT_OUTER, LEFT_SEMI, LEFT_ANTI and
    NULL_AWARE_LEFT_ANTI; both for FULL_OUTER; neither for every other
    join type. *)
Theorem create_nullability_flags (param : HashTableParam) :
  let t := _table_items (create param) in
  (left_to_nullable t, right_to_nullable t) =
    match param_join_type param with
    | RIGHT_OUTER_JOIN | RIGHT_SEMI_JOIN | RIGHT_ANTI_JOIN => (true, false)
    | LEFT_OUTER_JOIN | LEFT_SEMI_JOIN | LEFT_ANTI_JOIN
    | NULL_AWARE_LEFT_ANTI_JOIN => (false, true)
    | FULL_OUTER_JOIN => (true, true)
    | INNER_JOIN | CROSS_JOIN | MERGE_JOIN => (false, false)
    end.
Proof.
  intros t. subst t.
  destruct (create_flags param) as [H _]. rewrite H.
  destruct (param_join_type param); reflexivity.
Qed.

(** ** The key layout selector *)

Section KeyLayoutSelectorFacts.

Variable sizeof_CppType : PrimitiveType → nat.

Local Abbreviation get_size :=
  (_get_size_of_fixed_and_contiguous_type sizeof_CppType).

Lemma get_size_classified (t : PrimitiveType) :
  get_size t = if fixed_and_contiguous t then sizeof_CppType t else 0.
Proof. destruct t; reflexivity. Qed.

Lemma sum_key_sizes_all_fixed (keys : list JoinKeyDesc) (acc : nat) :
  (∀ t, 0 < sizeof_CppType t) →
  Forall (fun k => fixed_and_contiguous (type k) = true) keys →
  sum_key_sizes sizeof_CppType keys acc
    = Some (acc + (sum_of_widths sizeof_CppType keys + null_safe_count keys)).
Proof.
  intros Hpos Hall. revert acc.
  induction Hall as [|k keys Hk Hall IH]; intros acc.
  - simpl. f_equal. unfold null_safe_count. simpl. lia.
  - simpl. rewrite get_size_classified, Hk.
    pose proof (Hpos (type k)) as Hp.
    destruct (0 <? sizeof_CppType (type k)) eqn:E;
      [|apply Nat.ltb_ge in E; lia].
    rewrite IH. f_equal. unfold null_safe_count.
    rewrite filter_cons.
    destruct (is_null_safe_equal k) eqn:En.
    + rewrite decide_True by reflexivity. simpl. lia.
    + rewrite decide_False by discriminate. simpl. lia.
Qed.

Lemma sum_key_sizes_some_not_fixed (keys : list JoinKeyDesc) (acc : nat) :
  Exists (fun k => fixed_and_contiguous (type k) = false) keys →
  sum_key_sizes sizeof_CppType keys acc = None.
Proof.
  intros Hex. revert acc.
  induction Hex as [k keys Hk|k keys Hex IH]; intros acc; simpl.
  - rewrite get_size_classified, Hk. reflexivity.
  - destruct (0 <? get_size (type k)); [apply IH|reflexivity].
Qed.

Lemma choose_on_packed_path (keys : list JoinKeyDesc) (cols : list Column) :
  packed_path (drop_null_safe_flags keys cols) = true →
  (_choose_join_hash_map sizeof_CppType keys cols).1
    = match sum_key_sizes sizeof_CppType (drop_null_safe_flags keys cols) 0 with
      | None => slice
      | Some total => layout_of_total total
      end.
Proof.
  unfold packed_path, _choose_join_hash_map. intros H.
  apply negb_true_iff in H. rewrite H.
  destruct (sum_key_sizes _ _ _); reflexivity.
Qed.

End KeyLayoutSelectorFacts.

(** C4, as amended.  On the path taken for several keys or a null-safe
    key (the flags being those left after keys without NULLs lost
    theirs): when every key type is one of the fixed-width types, the
    packed total is the sum of the type widths plus one byte for each
    null-safe key, and the layout is fixed32 for a total of at most 4,
    fixed64 for at most 8, fixed128 for at most 16 and slice above 16;
    when some key type is not fixed-width the layout is slice. *)
Theorem choose_packed_layout
    (sizeof_CppType : PrimitiveType → nat)
    (keys : list JoinKeyDesc) (cols : list Column)
    (Hpos : ∀ t, 0 < sizeof_CppType t)
    (Hpath : packed_path (drop_null_safe_flags keys cols) = true) :
  let keys' := drop_null_safe_flags keys cols in
  let total := sum_of_widths sizeof_CppType keys' + null_safe_count keys' in
  let chosen := (_choose_join_hash_map sizeof_CppType keys cols).1 in
  (Forall (fun k => fixed_and_contiguous (type k) = true) keys' →
     (total ≤ 4 → chosen = fixed32)
     ∧ (4 < total ≤ 8 → chosen = fixed64)
     ∧ (8 < total ≤ 16 → chosen = fixed128)
     ∧ (16 < total → chosen = slice))
  ∧ (Exists (fun k => fixed_and_contiguous (type k) = false) keys' →
     chosen = slice).
Proof.
  intros keys' total chosen. subst chosen.
  rewrite choose_on_packed_path by exact Hpath. fold keys'. split.
  - intros Hall.
    rewrite (sum_key_sizes_all_fixed _ _ _ Hpos Hall). simpl. fold total.
    unfold layout_of_total.
    repeat split; intros Ht;
      repeat match goal with
        | |- context [?a <=? ?b] =>
            destruct (Nat.leb_spec a b); try lia
        end; reflexivity.
  - intros Hex. rewrite (sum_key_sizes_some_not_fixed _ _ _ Hex). reflexivity.
Qed.

Lemma cpp_sizeof_pos (t : PrimitiveType) : 0 < cpp_sizeof t.
Proof. destruct t; simpl; lia. Qed.

Lemma choose_packed_layout_witness :
  let keys := [mkJoinKeyDesc TYPE_INT true; mkJoinKeyDesc TYPE_SMALLINT false] in
  let cols := [NullableColumn [0; 7; 0]%Z [0; 0; 1]%N; ValueColumn [0; 1; 2]%Z] in
  (_choose_join_hash_map cpp_sizeof keys cols).1 = fixed64.
Proof.
  intros keys cols.
  assert (packed_path (drop_null_safe_flags keys cols) = true) as Hpath
    by reflexivity.
  destruct (choose_packed_layout cpp_sizeof keys cols cpp_sizeof_pos Hpath)
    as [Hfixed _].
  apply Hfixed.
  - repeat constructor.
  - vm_compute. lia.
Defined.

(** C4 as worded fails: with the total taken as the sum of the type
    widths alone, a single null-safe INT key over a column holding a
    NULL would get fixed32 (4 bytes), but the selector counts the
    null-safe byte too and picks fixed64. *)
Lemma choose_by_widths_only_counterexample :
  ¬ (∀ (sizeof_CppType : PrimitiveType → nat)
       (keys : list JoinKeyDesc) (cols : list Column),
       (∀ t, 0 < sizeof_CppType t) →
       packed_path (drop_null_safe_flags keys cols) = true →
       Forall (fun k => fixed_and_contiguous (type k) = true)
              (drop_null_safe_flags keys cols) →
       (_choose_join_hash_map sizeof_CppType keys cols).1
         = layout_by_widths_only sizeof_CppType
             (drop_null_safe_flags keys cols)).
Proof.
  intros H.
  specialize (H cpp_sizeof [mkJoinKeyDesc TYPE_INT true]
                [NullableColumn [0; 7; 0]%Z [0; 0; 1]%N] cpp_sizeof_pos).
  simpl in H. specialize (H eq_refl).
  assert (Forall (fun k => fixed_and_contiguous (type k) = true)
            [mkJoinKeyDesc TYPE_INT true]) as Hall by repeat constructor.
  specialize (H Hall). vm_compute in H. discriminate H.
Qed.

(** C10. On the path taken for several keys or a null-safe key, the
    types that count as fixed-width are exactly BOOLEAN, TINYINT,
    SMALLINT, INT, BIGINT, FLOAT, DOUBLE, DATE and DATETIME: for them
    the selector's size is the width of the C++ type, for every other
    type (LARGEINT, DECIMALV2, DECIMAL32/64/128, CHAR, VARCHAR among
    them) it is 0.  When all keys are of the nine types the packed
    total is the sum of their widths plus one byte per null-safe key
    (the flags being those the first loop leaves) and the selector
    returns the layout for that total: fixed32 up to 4 bytes, fixed64
    up to 8, fixed128 up to 16, slice above; a single key of any other
    type makes the selector return slice. *)
Theorem fixed_width_types_classified
    (sizeof_CppType : PrimitiveType → nat)
    (keys : list JoinKeyDesc) (cols : list Column)
    (Hpos : ∀ t, 0 < sizeof_CppType t)
    (Hpath : packed_path (drop_null_safe_flags keys cols) = true) :
  let keys' := drop_null_safe_flags keys cols in
  let size_of := _get_size_of_fixed_and_contiguous_type sizeof_CppType in
  (∀ t, 0 < size_of t ↔
        t ∈ [TYPE_BOOLEAN; TYPE_TINYINT; TYPE_SMALLINT; TYPE_INT; TYPE_BIGINT;
             TYPE_FLOAT; TYPE_DOUBLE; TYPE_DATE; TYPE_DATETIME])
  ∧ (∀ t, 0 < size_of t → size_of t = sizeof_CppType t)
  ∧ (∀ t, t ∈ [TYPE_LARGEINT; TYPE_DECIMALV2; TYPE_DECIMAL32; TYPE_DECIMAL64;
               TYPE_DECIMAL128; TYPE_CHAR; TYPE_VARCHAR] → size_of t = 0)
  ∧ (Forall (fun k => 0 < size_of (type k)) keys' →
     sum_key_sizes sizeof_CppType keys' 0
       = Some (sum_of_widths sizeof_CppType keys' + null_safe_count keys')
     ∧ (_choose_join_hash_map sizeof_CppType keys cols).1
       = layout_of_total
           (sum_of_widths sizeof_CppType keys' + null_safe_count keys'))
  ∧ (Exists (fun k => size_of (type k) = 0) keys' →
     (_choose_join_hash_map sizeof_CppType keys cols).1 = slice).
Proof.
  intros keys' size_of.
  assert (∀ t, 0 < size_of t ↔ fixed_and_contiguous t = true) as Hfix.
  { intros t. subst size_of. simpl. rewrite get_size_classified.
    pose proof (Hpos t). destruct (fixed_and_contiguous t); split;
      intros; try lia; congruence. }
  split; [|split; [|split; [|split]]].
  - intros t. rewrite Hfix.
    destruct t; simpl; split; intros H; try discriminate H;
      try reflexivity; try (by repeat constructor);
      exfalso; repeat (apply elem_of_cons in H as [H|H]; [discriminate H|]);
      by apply elem_of_nil in H.
  - intros t Ht. apply Hfix in Ht. subst size_of. simpl.
    rewrite get_size_classified, Ht. reflexivity.
  - intros t Ht.
    repeat (apply elem_of_cons in Ht as [->|Ht]; [reflexivity|]).
    by apply elem_of_nil in Ht.
  - intros Hall.
    assert (sum_key_sizes sizeof_CppType keys' 0
            = Some (sum_of_widths sizeof_CppType keys' + null_safe_count keys'))
      as Hsum.
    { rewrite (sum_key_sizes_all_fixed sizeof_CppType keys' 0 Hpos);
        [reflexivity|].
      eapply List.Forall_impl; [|exact Hall]. intros k Hk. simpl in Hk.
      by apply Hfix. }
    split; [exact Hsum|].
    rewrite choose_on_packed_path by exact Hpath. fold keys'.
    by rewrite Hsum.
  - intros Hex. rewrite choose_on_packed_path by exact Hpath. fold keys'.
    rewrite sum_key_sizes_some_not_fixed; [reflexivity|].
    eapply List.Exists_impl; [|exact Hex]. intros k Hk. simpl in Hk.
    destruct (fixed_and_contiguous (type k)) eqn:E; [|reflexivity].
    apply Hfix in E. lia.
Qed.

Lemma fixed_width_types_classified_witness :
  let keys := [mkJoinKeyDesc TYPE_INT false; mkJoinKeyDesc TYPE_VARCHAR false] in
  let cols := [ValueColumn [0; 1]%Z; ValueColumn [0; 2]%Z] in
  let keys2 := [mkJoinKeyDesc TYPE_INT false; mkJoinKeyDesc TYPE_INT false] in
  (_choose_join_hash_map cpp_sizeof keys cols).1 = slice
  ∧ (_choose_join_hash_map cpp_sizeof keys2 cols).1 = fixed64.
Proof.
  intros keys cols keys2. split.
  - assert (packed_path (drop_null_safe_flags keys cols) = true) as Hpath
      by reflexivity.
    destruct (fixed_width_types_classified cpp_sizeof keys cols cpp_sizeof_pos
                Hpath) as (_ & _ & _ & _ & Hslice).
    apply Hslice. right. left. reflexivity.
  - assert (packed_path (drop_null_safe_flags keys2 cols) = true) as Hpath
      by reflexivity.
    destruct (fixed_width_types_classified cpp_sizeof keys2 cols cpp_sizeof_pos
                Hpath) as (_ & _ & _ & Hpacked & _).
    destruct Hpacked as [_ Hchosen].
    + repeat constructor.
    + rewrite Hchosen. reflexivity.
Defined.

(** ** The build operator's finishing step *)

Lemma for_each_call_log {A : Type} (xs : list A) (f : A → Event)
    (log : list Event) :
  for_each xs (fun x => call (f x)) log = (tt, log ++ map f xs).
Proof.
  revert log. induction xs as [|x xs IH]; intros log; simpl.
  - unfold eff_ret. by rewrite app_nil_r.
  - unfold mbind, Eff_bind, eff_bind, call. simpl. rewrite IH.
    by rewrite <- app_assoc.
Qed.

Lemma set_finishing_log (n : nat) (reply : nat → nat → StatusOr bool)
    (op : HashJoinBuildOperator) (log : list Event) :
  set_finishing n reply op log =
    (mkBuildOp true (_plan_node_id op) (_read_only_join_probers op)
       (_driver_sequence op),
     log ++ [BuildHt; CreateRuntimeFilters;
             AddPartialFilters (_driver_sequence op) n]
         ++ (if ok_and_true (reply (_driver_sequence op) n)
             then [PublishRuntimeFilters; SetCollector (_plan_node_id op)]
             else [])
         ++ handoff_calls op).
Proof.
  pose proof (@for_each_call_log nat) as Hfor. unfold call in Hfor.
  unfold set_finishing, handoff_calls, mbind, Eff_bind, eff_bind, call, eff_ret.
  simpl.
  destruct (ok_and_true _); simpl;
    rewrite Hfor; simpl; rewrite Hfor;
    f_equal; rewrite <- !app_assoc; simpl; reflexivity.
Qed.

Lemma handoff_no_publication (op : HashJoinBuildOperator) :
  filter (fun e => is_publication e = true) (handoff_calls op) = [].
Proof.
  unfold handoff_calls. rewrite !list.filter_app.
  assert (∀ (f : nat → Event) l,
            (∀ x, is_publication (f x) = false) →
            filter (fun e => is_publication e = true) (map f l) = []) as Hnone.
  { intros f l Hf. induction l as [|x l IH]; [reflexivity|]. simpl.
    rewrite filter_cons, decide_False; [exact IH|]. rewrite Hf. discriminate. }
  rewrite !Hnone by reflexivity. reflexivity.
Qed.

(** C8. In [set_finishing], run from an empty log: the merged filters
    are published (the port's publish call and the hub's set-collector
    call) exactly when the merger's [add_partial_filters] reply for this
    unit is a success carrying [true]; any other reply leaves no
    publication call in the log; the publication, when made, follows the
    submission; and whatever the reply, the log ends with the hand-off:
    every read-only prober references the table, the builder enters the
    probe phase, then every prober does. *)
Theorem set_finishing_publishes_iff_complete
    (ht_row_count : nat) (reply : nat → nat → StatusOr bool)
    (op : HashJoinBuildOperator) :
  let status := reply (_driver_sequence op) ht_row_count in
  let log := (set_finishing ht_row_count reply op []).2 in
  let submit := AddPartialFilters (_driver_sequence op) ht_row_count in
  (status = StatusValue true →
     log = [BuildHt; CreateRuntimeFilters; submit;
            PublishRuntimeFilters; SetCollector (_plan_node_id op)]
           ++ handoff_calls op)
  ∧ (status ≠ StatusValue true →
     log = [BuildHt; CreateRuntimeFilters; submit] ++ handoff_calls op
     ∧ filter (fun e => is_publication e = true) log = [])
  ∧ ((∃ e, e ∈ log ∧ is_publication e = true) ↔ status = StatusValue true)
  ∧ (∃ before, log = before ++ handoff_calls op)
  ∧ _is_finished (set_finishing ht_row_count reply op []).1 = true.
Proof.
  intros status log submit. subst log.
  rewrite set_finishing_log. simpl. fold status. fold submit.
  assert (ok_and_true status = true ↔ status = StatusValue true) as Hok.
  { destruct status as [[|]|]; simpl; split; congruence. }
  split; [|split; [|split; [|split]]].
  - intros Hs. rewrite Hs. reflexivity.
  - intros Hs. destruct (ok_and_true status) eqn:E.
    + exfalso. apply Hs, Hok. reflexivity.
    + split; [reflexivity|]. simpl.
      change (BuildHt :: CreateRuntimeFilters :: submit :: handoff_calls op)
        with ([BuildHt; CreateRuntimeFilters; submit] ++ handoff_calls op).
      rewrite list.filter_app, handoff_no_publication. reflexivity.
  - split.
    + intros (e & He & Hp). apply Hok.
      destruct (ok_and_true status); [reflexivity|]. exfalso.
      simpl in He.
      repeat (apply elem_of_cons in He as [->|He]; [discriminate Hp|]).
      assert (e ∈ filter (fun e => is_publication e = true) (handoff_calls op))
        as Hin by (apply list_elem_of_filter; split; assumption).
      rewrite handoff_no_publication in Hin. by apply elem_of_nil in Hin.
    + intros Hs. apply Hok in Hs. rewrite Hs.
      exists PublishRuntimeFilters. split; [|reflexivity].
      simpl. repeat constructor.
  - destruct (ok_and_true status); eexists; simpl.
    + change (?a :: ?b :: ?c :: ?d :: ?e :: ?l)
        with ([a; b; c; d; e] ++ l). reflexivity.
    + change (?a :: ?b :: ?c :: ?l) with ([a; b; c] ++ l). reflexivity.
  - reflexivity.
Qed.

(** ** Multiplicity correction: the build-side marking of RIGHT_OUTER
    and RIGHT_ANTI *)

Lemma right_anti_step_eq (i : nat) (s : DedupState) :
  right_anti_step i s = right_outer_step i s.
Proof. reflexivity. Qed.

(** What [right_outer_step] has done after the first [i] rounds: the
    filter is as it was, only [build_match_index] has moved, and it
    holds 1 exactly at the build rows of the accepted pairs seen so far. *)
Lemma right_outer_loop (f : Filter) (p : HashTableProbeState) (n : nat) :
  ∃ bmi,
    for_loop n right_outer_step (f, p) = (f, set_build_match_index p bmi)
    ∧ length bmi = length (build_match_index p)
    ∧ (∀ j, (∃ k, k < n ∧ f !!! k = 1%N ∧ build_index p !!! k = j) →
            j < length bmi → bmi !!! j = 1%N)
    ∧ (∀ j, (∀ k, k < n → f !!! k = 1%N → build_index p !!! k ≠ j) →
            bmi !! j = build_match_index p !! j).
Proof.
  induction n as [|n (bmi & Hrun & Hlen & Hset & Hkeep)].
  - exists (build_match_index p). rewrite for_loop_0.
    split; [by destruct p|]. split; [reflexivity|]. split.
    + intros j (k & Hk & _). lia.
    + reflexivity.
  - rewrite for_loop_S, Hrun. unfold right_outer_step.
    destruct (f !!! n =? 1)%N eqn:Hf.
    + apply N.eqb_eq in Hf.
      exists (<[build_index p !!! n := 1%N]> bmi).
      split; [reflexivity|]. split; [by rewrite length_insert|]. split.
      * intros j (k & Hk & Hfk & Hbk) Hj. rewrite length_insert in Hj.
        destruct (decide (build_index p !!! n = j)) as [->|Hne].
        -- by rewrite list_lookup_total_insert_eq.
        -- rewrite list_lookup_total_insert_ne by exact Hne.
           apply Hset; [|exact Hj]. exists k.
           assert (k ≠ n) by (intros ->; by apply Hne).
           split; [lia|]. by split.
      * intros j Hj. rewrite list_lookup_insert_ne.
        -- apply Hkeep. intros k Hk. apply Hj. lia.
        -- apply (Hj n); [lia|exact Hf].
    + exists bmi. split; [reflexivity|]. split; [exact Hlen|]. split.
      * intros j (k & Hk & Hfk & Hbk) Hj. apply Hset; [|exact Hj].
        exists k. assert (k ≠ n) by (intros ->; rewrite Hfk in Hf; discriminate).
        split; [lia|]. by split.
      * intros j Hj. apply Hkeep. intros k Hk. apply Hj. lia.
Qed.

(** C9. For RIGHT_OUTER and RIGHT_ANTI, [remove_duplicate_index] returns
    the keep/drop vector it was given; of the scratch state it changes
    [build_match_index] only, which keeps its size, holds 1 at the build
    row of every accepted pair and is as before elsewhere; and the two
    join types make the same update. *)
Theorem right_outer_anti_frame (f : Filter) (p : HashTableProbeState) :
  remove_duplicate_index RIGHT_ANTI_JOIN (f, p)
    = remove_duplicate_index RIGHT_OUTER_JOIN (f, p)
  ∧ ∃ bmi,
      remove_duplicate_index RIGHT_OUTER_JOIN (f, p)
        = (f, set_build_match_index p bmi)
      ∧ length bmi = length (build_match_index p)
      ∧ (∀ i, i < length f → f !!! i = 1%N →
              build_index p !!! i < length bmi →
              bmi !!! (build_index p !!! i) = 1%N)
      ∧ (∀ j, (∀ i, i < length f → f !!! i = 1%N → build_index p !!! i ≠ j) →
              bmi !! j = build_match_index p !! j).
Proof.
  split; [reflexivity|].
  destruct (right_outer_loop f p (length f)) as (bmi & Hrun & Hlen & Hset & Hkeep).
  exists bmi. split; [exact Hrun|]. split; [exact Hlen|]. split.
  - intros i Hi Hf Hb. apply Hset; [|exact Hb]. by exists i.
  - exact Hkeep.
Qed.

(** ** [build]: the build-side match index *)

Lemma needs_build_match_index_iff (jt : TJoinOp) :
  needs_build_match_index jt = true ↔
  jt ∈ [RIGHT_OUTER_JOIN; FULL_OUTER_JOIN; RIGHT_SEMI_JOIN; RIGHT_ANTI_JOIN].
Proof.
  destruct jt; simpl; split; intros H; try discriminate H;
    try reflexivity; try (by repeat constructor);
    exfalso; repeat (apply elem_of_cons in H as [H|H]; [discriminate H|]);
    by apply elem_of_nil in H.
Qed.

Section BuildFacts.

Variable sizeof_CppType : PrimitiveType → nat.
Variable calc_bucket_size : nat → nat.
Variable prepare_map_index : HashTableProbeState → nat → HashTableProbeState.
Variable layout_build :
  JoinHashMapType → nat → JoinHashTableItems → HashTableProbeState →
  Status * JoinHashTableItems * HashTableProbeState.

(** Neither outside helper touches [build_match_index]. *)
Hypothesis prepare_map_index_frame :
  ∀ p n, build_match_index (prepare_map_index p n) = build_match_index p.
Hypothesis layout_build_frame :
  ∀ tag n t p,
    build_match_index (layout_build tag n t p).2 = build_match_index p.

Lemma build_match_index_after_build (chunk_size : nat) (ht : JoinHashTable) :
  needs_build_match_index (join_type (_table_items ht)) = true →
  build_match_index
    (_probe_state
       (build sizeof_CppType calc_bucket_size prepare_map_index layout_build
          chunk_size ht).2)
  = <[0 := 1%N]>
      (resize (row_count (_table_items ht) + 1) 0%N
         (build_match_index (_probe_state ht))).
Proof.
  intros Hjt. unfold build.
  destruct (_choose_join_hash_map _ _ _) as [tag keys]. simpl.
  rewrite Hjt. simpl.
  match goal with
  | |- context [prepare_map_index ?p0 chunk_size] => set (p1 := p0)
  end.
  assert (build_match_index (prepare_map_index p1 chunk_size)
          = <[0 := 1%N]>
              (resize (row_count (_table_items ht) + 1) 0%N
                 (build_match_index (_probe_state ht)))) as Hp.
  { rewrite prepare_map_index_frame. reflexivity. }
  destruct tag; simpl; try exact Hp;
    match goal with
    | |- context [layout_build ?tag ?n ?t ?p] =>
        pose proof (layout_build_frame tag n t p) as Hl;
        destruct (layout_build tag n t p) as [[st t'] p']; simpl in *;
        rewrite Hl; exact Hp
    end.
Qed.

End BuildFacts.

(** C5, as amended.  When [build] runs for RIGHT_OUTER, FULL_OUTER,
    RIGHT_SEMI or RIGHT_ANTI on a table whose [build_match_index] is
    still empty (as [create] leaves it), the array it leaves has row
    count plus one entries; the entry of every real row (1 to row
    count) is 0 and the entry of the reserved row 0 is 1. *)
Theorem build_match_index_allocated
    (sizeof_CppType : PrimitiveType → nat)
    (calc_bucket_size : nat → nat)
    (prepare_map_index : HashTableProbeState → nat → HashTableProbeState)
    (layout_build :
       JoinHashMapType → nat → JoinHashTableItems → HashTableProbeState →
       Status * JoinHashTableItems * HashTableProbeState)
    (chunk_size : nat) (ht : JoinHashTable)
    (Hprep : ∀ p n, build_match_index (prepare_map_index p n)
                    = build_match_index p)
    (Hlayout : ∀ tag n t p, build_match_index (layout_build tag n t p).2
                            = build_match_index p)
    (Hjt : join_type (_table_items ht)
           ∈ [RIGHT_OUTER_JOIN; FULL_OUTER_JOIN; RIGHT_SEMI_JOIN;
              RIGHT_ANTI_JOIN])
    (Hfresh : build_match_index (_probe_state ht) = []) :
  let bmi :=
    build_match_index
      (_probe_state
         (build sizeof_CppType calc_bucket_size prepare_map_index layout_build
            chunk_size ht).2) in
  length bmi = row_count (_table_items ht) + 1
  ∧ bmi !! 0 = Some 1%N
  ∧ (∀ i, 1 ≤ i ≤ row_count (_table_items ht) → bmi !! i = Some 0%N).
Proof.
  intros bmi. subst bmi.
  rewrite (build_match_index_after_build _ _ _ _ Hprep Hlayout)
    by (by apply needs_build_match_index_iff).
  rewrite Hfresh, resize_nil.
  rewrite length_insert, length_replicate.
  split; [reflexivity|]. split.
  - apply list_lookup_insert_eq. rewrite length_replicate. lia.
  - intros i Hi. rewrite list_lookup_insert_ne by lia.
    apply lookup_replicate_2. lia.
Qed.

Lemma build_match_index_allocated_witness :
  let ht := example_table FULL_OUTER_JOIN in
  let bmi :=
    build_match_index
      (_probe_state
         (build cpp_sizeof (fun _ => 4) (fun p _ => p)
            (fun _ _ t p => (OK, t, p)) 4 ht).2) in
  length bmi = 3 ∧ bmi !! 0 = Some 1%N
  ∧ (∀ i, 1 ≤ i ≤ 2 → bmi !! i = Some 0%N).
Proof.
  apply (build_match_index_allocated cpp_sizeof (fun _ => 4) (fun p _ => p)
           (fun _ _ t p => (OK, t, p)) 4 (example_table FULL_OUTER_JOIN)).
  - reflexivity.
  - reflexivity.
  - vm_compute. repeat constructor.
  - reflexivity.
Defined.

(** C5 as worded fails: after [build] for a right outer join over the
    two-row example table the array is [1; 0; 0], so not every entry is
    zero. *)
Lemma build_match_index_all_zero_counterexample :
  let ht := (example_build 4 (example_table RIGHT_OUTER_JOIN)).2 in
  row_count (_table_items ht) = 2
  ∧ build_match_index (_probe_state ht) = [1; 0; 0]%N
  ∧ ¬ Forall (fun x => x = 0%N) (build_match_index (_probe_state ht)).
Proof.
  vm_compute. split; [reflexivity|]. split; [reflexivity|].
  intros H. inversion H as [|x l Hx Hl]. discriminate Hx.
Qed.

(** ** Multiplicity correction: LEFT_SEMI keeps the first accepted match *)

Lemma first_match_only_snoc (flag : N) (n : nat) :
  first_match_only flag (S n) =
    let '(l, fl) := first_match_only flag n in
    if (fl =? 0)%N then (l ++ [1%N], 1%N) else (l ++ [0%N], fl).
Proof.
  destruct n as [|m]; simpl.
  - destruct (flag =? 0)%N; reflexivity.
  - destruct (flag =? 0)%N eqn:E; simpl.
    + f_equal. f_equal.
      change (0%N :: replicate m 0%N) with (replicate (S m) 0%N).
      by rewrite replicate_S_end.
    + rewrite E. f_equal.
      change (0%N :: 0%N :: replicate m 0%N) with (replicate (S (S m)) 0%N).
      rewrite (replicate_S_end (S m)). reflexivity.
Qed.

Lemma first_match_only_add (flag : N) (a b : nat) :
  first_match_only flag (a + b) =
    let '(l1, f1) := first_match_only flag a in
    let '(l2, f2) := first_match_only f1 b in
    (l1 ++ l2, f2).
Proof.
  induction b as [|b IH].
  - rewrite Nat.add_0_r. destruct (first_match_only flag a) as [l1 f1].
    simpl. by rewrite app_nil_r.
  - replace (a + S b) with (S (a + b)) by lia.
    rewrite first_match_only_snoc, IH.
    destruct (first_match_only flag a) as [l1 f1].
    rewrite first_match_only_snoc.
    destruct (first_match_only f1 b) as [l2 f2].
    destruct (f2 =? 0)%N; by rewrite app_assoc.
Qed.

Lemma first_match_only_length (flag : N) (n : nat) :
  length (first_match_only flag n).1 = n.
Proof.
  destruct n as [|m]; [reflexivity|]. simpl.
  destruct (flag =? 0)%N; simpl; by rewrite length_replicate.
Qed.

Lemma filter_seq_S (P : nat → Prop) `{!∀ i, Decision (P i)} (n : nat) :
  filter P (seq 0 (S n))
  = filter P (seq 0 n) ++ (if decide (P n) then [n] else []).
Proof.
  rewrite seq_S, list.filter_app. simpl. rewrite filter_cons, filter_nil.
  reflexivity.
Qed.

Lemma filter_seq_lt (P : nat → Prop) `{!∀ i, Decision (P i)} (n i : nat) :
  i ∈ filter P (seq 0 n) → i < n.
Proof.
  intros Hi. apply list_elem_of_filter in Hi as [_ Hi].
  apply elem_of_seq in Hi. lia.
Qed.

Lemma map_lookup_insert_above {A : Type} `{!Inhabited A}
    (l : list A) (n : nat) (x : A) (idx : list nat) :
  (∀ i, i ∈ idx → i < n) →
  map (fun i => <[n := x]> l !!! i) idx = map (fun i => l !!! i) idx.
Proof.
  intros Hlt. induction idx as [|i idx IH]; [reflexivity|]. simpl.
  rewrite list_lookup_total_insert_ne.
  - f_equal. apply IH. intros j Hj. apply Hlt. by right.
  - assert (i < n) by (apply Hlt; by left). lia.
Qed.

Section LeftSemiLoop.

Variable f0 : Filter.
Variable p0 : HashTableProbeState.

Local Abbreviation accepted_upto p n :=
  (filter (fun i => f0 !!! i = 1%N ∧ probe_index p0 !!! i = p) (seq 0 n)).

(** The state after the first [n] rounds of the LEFT_SEMI loop. *)
Lemma left_semi_loop (n : nat) :
  n ≤ length f0 →
  ∃ f pmi,
    for_loop n left_semi_step (f0, p0) = (f, set_probe_match_index p0 pmi)
    ∧ length f = length f0
    ∧ length pmi = length (probe_match_index p0)
    ∧ (∀ k, n ≤ k → f !!! k = f0 !!! k)
    ∧ (∀ k, f0 !!! k ≠ 1%N → f !!! k = f0 !!! k)
    ∧ (∀ p, p < length (probe_match_index p0) →
            (map (fun i => f !!! i) (accepted_upto p n), pmi !!! p)
            = first_match_only (probe_match_index p0 !!! p)
                (length (accepted_upto p n))).
Proof.
  induction n as [|n IH]; intros Hn.
  - exists f0, (probe_match_index p0). rewrite for_loop_0.
    split; [by destruct p0|]. repeat split; reflexivity.
  - destruct IH as (f & pmi & Hrun & Hlf & Hlp & Hrest & Hkeep & Hrow);
      [lia|].
    rewrite for_loop_S, Hrun. unfold left_semi_step, pmi_at, set_pmi_at.
    set (upto := seq 0 (S n)). simpl. subst upto.
    remember (probe_index p0 !!! n) as q eqn:Hq0.
    assert (f !!! n = f0 !!! n) as Hfn by (apply Hrest; lia).
    destruct (f !!! n =? 1)%N eqn:Hacc.
    + apply N.eqb_eq in Hacc.
      assert (f0 !!! n = 1%N) as Hacc0 by congruence.
      destruct (pmi !!! q =? 0)%N eqn:Hflag.
      * (* first accepted match of row q: kept, flag raised *)
        apply N.eqb_eq in Hflag.
        exists f, (<[q := 1%N]> pmi).
        split; [reflexivity|]. split; [exact Hlf|].
        split; [by rewrite length_insert|].
        split; [intros k Hk; apply Hrest; lia|].
        split; [exact Hkeep|].
        intros p Hp. rewrite filter_seq_S, <- Hq0.
        specialize (Hrow p Hp).
        destruct (decide (f0 !!! n = 1%N ∧ q = p)) as [[_ Hq]|Hq].
        -- rewrite length_app. simpl length. rewrite Nat.add_1_r.
           rewrite first_match_only_snoc.
           rewrite <- Hrow. subst p. rewrite Hflag. simpl.
           rewrite map_app. simpl. rewrite Hacc.
           rewrite list_lookup_total_insert_eq by lia. reflexivity.
        -- rewrite app_nil_r.
           rewrite list_lookup_total_insert_ne; [exact Hrow|].
           intros ->. apply Hq. by split.
      * (* a later accepted match of row q: cleared *)
        apply N.eqb_neq in Hflag.
        exists (<[n := 0%N]> f), pmi.
        split; [reflexivity|]. split; [by rewrite length_insert|].
        split; [exact Hlp|].
        split.
        { intros k Hk. rewrite list_lookup_total_insert_ne by lia.
          apply Hrest. lia. }
        split.
        { intros k Hk. rewrite list_lookup_total_insert_ne; [by apply Hkeep|].
          intros ->. by apply Hk. }
        intros p Hp. rewrite filter_seq_S, <- Hq0.
        specialize (Hrow p Hp).
        destruct (decide (f0 !!! n = 1%N ∧ q = p)) as [[_ Hq]|Hq].
        -- rewrite length_app. simpl length. rewrite Nat.add_1_r.
           rewrite first_match_only_snoc.
           rewrite <- Hrow. subst p.
           destruct (pmi !!! q =? 0)%N eqn:E;
             [apply N.eqb_eq in E; contradiction|].
           rewrite map_app. simpl.
           rewrite list_lookup_total_insert_eq by lia.
           rewrite map_lookup_insert_above;
             [reflexivity|intros i; apply filter_seq_lt; apply _].
        -- rewrite app_nil_r.
           rewrite map_lookup_insert_above;
             [exact Hrow|intros i; apply filter_seq_lt; apply _].
    + (* not an accepted match: nothing changes *)
      apply N.eqb_neq in Hacc.
      exists f, pmi.
      split; [reflexivity|]. split; [exact Hlf|]. split; [exact Hlp|].
      split; [intros k Hk; apply Hrest; lia|].
      split; [exact Hkeep|].
      intros p Hp. rewrite filter_seq_S.
      rewrite decide_False by (intros [H _]; congruence).
      rewrite app_nil_r. by apply Hrow.
Qed.

End LeftSemiLoop.

Lemma left_semi_batch (ps : HashTableProbeState) (b : CandidateBatch) :
  ∃ f pmi,
    remove_duplicate_index LEFT_SEMI_JOIN (batch_filter b, load_batch ps b)
      = (f, set_probe_match_index (load_batch ps b) pmi)
    ∧ length pmi = length (probe_match_index ps)
    ∧ only_accepted_touched b f
    ∧ (∀ p, p < length (probe_match_index ps) →
            (kept_flags p b f, pmi !!! p)
            = first_match_only (probe_match_index ps !!! p)
                (length (accepted_positions p b))).
Proof.
  destruct (left_semi_loop (batch_filter b) (load_batch ps b)
              (length (batch_filter b)))
    as (f & pmi & Hrun & Hlf & Hlp & _ & Hkeep & Hrow); [lia|].
  exists f, pmi. split; [exact Hrun|]. split; [exact Hlp|].
  split; [split; assumption|]. exact Hrow.
Qed.

Lemma left_semi_batches (p : nat) (bs : list CandidateBatch) :
  ∀ ps, p < length (probe_match_index ps) →
    let r := correct_batches LEFT_SEMI_JOIN ps bs in
    length (probe_match_index r.2) = length (probe_match_index ps)
    ∧ (kept_flags_all p bs r.1, probe_match_index r.2 !!! p)
      = first_match_only (probe_match_index ps !!! p) (accepted_count p bs)
    ∧ Forall2 only_accepted_touched bs r.1.
Proof.
  induction bs as [|b bs IH]; intros ps Hp.
  - simpl. repeat split. constructor.
  - cbn [correct_batches].
    destruct (left_semi_batch ps b) as (f & pmi & Hrun & Hlp & Htouch & Hrow).
    rewrite Hrun.
    specialize (IH (set_probe_match_index (load_batch ps b) pmi)).
    cbn [probe_match_index set_probe_match_index] in IH.
    rewrite Hlp in IH. specialize (IH Hp).
    destruct (correct_batches LEFT_SEMI_JOIN
                (set_probe_match_index (load_batch ps b) pmi) bs)
      as [fs ps'] eqn:Hrest.
    cbn [fst snd] in *. destruct IH as (Hlen & Hflags & Hall).
    split; [exact Hlen|]. split.
    + unfold kept_flags_all. cbn [zip_with concat accepted_count foldr].
      rewrite first_match_only_add.
      rewrite <- (Hrow p Hp).
      change (foldr _ 0 bs) with (accepted_count p bs).
      rewrite <- Hflags. reflexivity.
    + constructor; assumption.
Qed.

Lemma at_most_one_kept (flag : N) (n : nat) :
  length (filter (fun x => x ≠ 0%N) (first_match_only flag n).1) ≤ 1.
Proof.
  assert (∀ m, filter (fun x : N => x ≠ 0%N) (replicate m 0%N) = []) as Hz.
  { induction m as [|m IH]; [reflexivity|].
    change (replicate (S m) 0%N) with (0%N :: replicate m 0%N).
    rewrite filter_cons_False; [exact IH|]. intros H. by apply H. }
  destruct n as [|m]; [simpl; lia|].
  unfold first_match_only. destruct (flag =? 0)%N; cbn [fst].
  - rewrite filter_cons_True by discriminate. rewrite Hz. simpl. lia.
  - rewrite Hz. simpl. lia.
Qed.

(** C2. Under LEFT_SEMI, for a probe row [p] of the probe chunk, after
    [remove_duplicate_index] has run over every candidate batch in
    order (the match counters carried from batch to batch): among the
    accepted matches of [p] at most one keeps a non-zero flag; when
    [probe_match_index[p]] was 0 before the first batch, the first
    accepted match keeps flag 1, every later accepted match of [p], in
    the same or a later batch, has flag 0, and [probe_match_index[p]]
    ends at 1; when it was already non-zero every accepted match of [p]
    is cleared.  Entries that were not accepted matches are unchanged. *)
Theorem left_semi_keeps_first_match
    (ps : HashTableProbeState) (bs : list CandidateBatch) (p : nat)
    (Hp : p < length (probe_match_index ps)) :
  let fs := (correct_batches LEFT_SEMI_JOIN ps bs).1 in
  let ps' := (correct_batches LEFT_SEMI_JOIN ps bs).2 in
  let kept := kept_flags_all p bs fs in
  let n := accepted_count p bs in
  length kept = n
  ∧ length (filter (fun x => x ≠ 0%N) kept) ≤ 1
  ∧ (probe_match_index ps !!! p = 0%N → 0 < n →
     kept = 1%N :: replicate (n - 1) 0%N
     ∧ probe_match_index ps' !!! p = 1%N)
  ∧ (probe_match_index ps !!! p ≠ 0%N → kept = replicate n 0%N)
  ∧ Forall2 only_accepted_touched bs fs.
Proof.
  intros fs ps' kept n.
  destruct (left_semi_batches p bs ps Hp) as (_ & Hflags & Hall).
  fold fs ps' kept n in Hflags, Hall.
  assert (kept = (first_match_only (probe_match_index ps !!! p) n).1) as Hk
    by (by rewrite <- Hflags).
  assert (probe_match_index ps' !!! p
          = (first_match_only (probe_match_index ps !!! p) n).2) as Hf
    by (by rewrite <- Hflags).
  split; [by rewrite Hk, first_match_only_length|].
  split; [rewrite Hk; apply at_most_one_kept|].
  split; [|split; [|exact Hall]].
  - intros H0 Hn. rewrite Hk, Hf, H0.
    destruct n as [|m]; [lia|]. simpl. rewrite Nat.sub_0_r. by split.
  - intros H0. rewrite Hk. apply N.eqb_neq in H0.
    destruct n as [|m]; [reflexivity|]. simpl. by rewrite H0.
Qed.

Lemma left_semi_keeps_first_match_witness :
  let fs := (correct_batches LEFT_SEMI_JOIN example_probe_state
               example_batches).1 in
  fs = [[1; 0; 0]; [0; 1]]%N
  ∧ kept_flags_all 0 example_batches fs = [1; 0; 0]%N.
Proof.
  pose proof (left_semi_keeps_first_match example_probe_state example_batches 0)
    as H.
  assert (0 < length (probe_match_index example_probe_state)) as Hp
    by (simpl; lia).
  destruct (H Hp) as (_ & _ & Hfirst & _).
  split; [reflexivity|].
  apply Hfirst; [reflexivity | vm_compute; lia].
Defined.

(** ** Appending build batches *)

Lemma size_append (dst src : Column) (n : nat) :
  size src = n → size (append dst src 0 n) = size dst + n.
Proof.
  intros Hn. destruct dst, src; simpl in *;
    rewrite length_app, length_take, drop_0; lia.
Qed.

Lemma size_upgrade_to_nullable (c : Column) :
  size (upgrade_to_nullable c) = size c.
Proof. destruct c; reflexivity. Qed.

Lemma assoc_find_snoc (m : list (nat * nat)) (k v id pos : nat) :
  assoc_find (m ++ [(k, v)]) id = Some pos →
  pos = v ∨ assoc_find m id = Some pos.
Proof.
  induction m as [|[k' v'] m IH]; simpl.
  - destruct (k =? id); intros H; [left; congruence|discriminate].
  - destruct (assoc_find (m ++ [(k, v)]) id) as [w|] eqn:E.
    + intros H. injection H as ->.
      destruct (IH eq_refl) as [->|Hm]; [by left|]. right. by rewrite Hm.
    + intros H. right.
      destruct (assoc_find m id) as [w|] eqn:Em; [|exact H].
      exfalso. clear IH H. revert E Em. clear.
      induction m as [|[k'' v''] m IH]; simpl; [discriminate|].
      destruct (assoc_find (m ++ [(k, v)]) id) eqn:E1; [discriminate|].
      destruct (assoc_find m id) eqn:E2; [intros; by eapply IH|].
      destruct (k'' =? id); discriminate.
Qed.

(** The loop of [append_chunk] over the build slots. *)
Lemma append_slot_columns_loop (chunk : Chunk)
    (slots_ : list HashTableSlotDescriptor) (cols : list Column)
    (rows m n : nat) :
  chunk_wf slots_ chunk →
  m ≤ length slots_ → m ≤ length cols →
  (∀ i, i < m → size (cols !!! i) = rows) →
  n ≤ m →
  ∃ cols',
    foldl (fun acc i => acc ≫= append_slot_column chunk slots_ i)
          (Some cols) (seq 0 n) = Some cols'
    ∧ length cols' = length cols
    ∧ (∀ i, i < n → size (cols' !!! i) = rows + num_rows chunk)
    ∧ (∀ i, n ≤ i → cols' !! i = cols !! i).
Proof.
  intros Hwf Hms Hmc Hsize. induction n as [|n IH]; intros Hn.
  - exists cols. simpl. split; [reflexivity|]. split; [reflexivity|].
    split; [intros i Hi; lia|reflexivity].
  - destruct IH as (cols' & Hrun & Hlen & Hdone & Hrest); [lia|].
    rewrite seq_S, foldl_app, Hrun. simpl.
    destruct (lookup_lt_is_Some_2 slots_ n) as [hs Hhs]; [lia|].
    destruct (lookup_lt_is_Some_2 cols n) as [dst Hdst]; [lia|].
    destruct (Hwf hs) as (column & Hcol & Hcs);
      [by eapply list_elem_of_lookup_2|].
    unfold append_slot_column.
    rewrite Hhs, (Hrest n) by lia. rewrite Hdst. simpl. rewrite Hcol. simpl.
    eexists. split; [reflexivity|].
    split; [by rewrite length_insert|].
    assert (size dst = rows) as Hds.
    { rewrite <- (Hsize n) by lia.
      by rewrite (list_lookup_total_correct _ _ _ Hdst). }
    split.
    + intros i Hi. destruct (decide (i = n)) as [->|Hne].
      * rewrite list_lookup_total_insert_eq by lia.
        destruct (is_nullable dst); [|destruct (is_nullable column)];
          rewrite size_append by exact Hcs;
          rewrite ?size_upgrade_to_nullable; lia.
      * rewrite list_lookup_total_insert_ne by lia. apply Hdone. lia.
    + intros i Hi. rewrite list_lookup_insert_ne by lia. apply Hrest. lia.
Qed.

(** The loop of [append_chunk] over the tuple marker columns leaves the
    slot columns alone. *)
Lemma append_tuple_markers_frame (chunk : Chunk) (rd : RowDescriptor)
    (rows bcc : nat) (entries : list (TupleId * nat)) :
  ∀ bc,
    bcc ≤ length (columns bc) →
    (∀ id pos, assoc_find (tuple_id_to_index bc) id = Some pos → bcc ≤ pos) →
    let bc' := foldl (append_tuple_marker chunk rd rows) bc entries in
    bcc ≤ length (columns bc')
    ∧ (∀ id pos, assoc_find (tuple_id_to_index bc') id = Some pos → bcc ≤ pos)
    ∧ (∀ i, i < bcc → columns bc' !!! i = columns bc !!! i).
Proof.
  induction entries as [|e entries IH]; intros bc Hlen Hidx.
  - simpl. repeat split; auto.
  - simpl.
    assert (bcc ≤ length (columns (append_tuple_marker chunk rd rows bc e))
            ∧ (∀ id pos,
                 assoc_find
                   (tuple_id_to_index (append_tuple_marker chunk rd rows bc e))
                   id = Some pos → bcc ≤ pos)
            ∧ (∀ i, i < bcc →
                 columns (append_tuple_marker chunk rd rows bc e) !!! i
                 = columns bc !!! i)) as (Hlen' & Hidx' & Hcols').
    { unfold append_tuple_marker. destruct (get_tuple_idx rd e.1); [|by auto].
      unfold is_tuple_exist, tuple_column_index.
      destruct (assoc_find (tuple_id_to_index bc) e.1) as [pos|] eqn:Efind;
        simpl.
      - split; [by rewrite length_insert|]. split; [exact Hidx|].
        intros i Hi. rewrite list_lookup_total_insert_ne; [reflexivity|].
        specialize (Hidx _ _ Efind). lia.
      - split; [rewrite length_app; lia|]. split.
        + intros id pos Hfind. apply assoc_find_snoc in Hfind as [->|Hfind];
            [exact Hlen|by eapply Hidx].
        + intros i Hi. apply lookup_total_app_l. lia. }
    destruct (IH _ Hlen' Hidx') as (H1 & H2 & H3).
    split; [exact H1|]. split; [exact H2|].
    intros i Hi. rewrite H3 by exact Hi. by apply Hcols'.
Qed.

Lemma create_build_slot_fresh param t s :
  fresh_build_columns t → fresh_build_columns (create_build_slot param t s).
Proof.
  intros (Hrc & Hslots & Hcols & Hsize & Htup).
  unfold fresh_build_columns, create_build_slot. simpl.
  split; [exact Hrc|]. split; [rewrite length_app; simpl; lia|].
  split; [rewrite length_app; simpl; lia|]. split; [|exact Htup].
  intros i Hi. destruct (decide (i < build_column_count t)) as [Hlt|Hge].
  - rewrite lookup_total_app_l by lia. by apply Hsize.
  - rewrite lookup_total_app_r by lia.
    replace (i - length (columns (build_chunk t))) with 0 by lia.
    by destruct (slot_is_nullable s).
Qed.

Lemma create_fresh (param : HashTableParam) :
  fresh_build_columns (_table_items (create param)).
Proof.
  unfold create. simpl. apply foldl_preserves.
  - apply foldl_preserves.
    + unfold fresh_build_columns. simpl.
      repeat split; try reflexivity. intros i Hi. lia.
    + intros t td Ht. unfold create_probe_tuple.
      assert (fresh_build_columns (foldl (create_probe_slot param) t (slots td)))
        as Ht' by (apply foldl_preserves; [exact Ht|intros a b Ha; exact Ha]).
      destruct (get_tuple_idx _ _); exact Ht'.
  - intros t td Ht. unfold create_build_tuple.
    assert (fresh_build_columns (foldl (create_build_slot param) t (slots td)))
      as Ht' by (apply foldl_preserves;
                 [exact Ht|intros a b; apply create_build_slot_fresh]).
    destruct (get_tuple_idx _ _); exact Ht'.
Qed.

Lemma fresh_build_columns_inv (t : JoinHashTableItems) :
  fresh_build_columns t → build_columns_inv t 0.
Proof.
  intros (Hrc & Hslots & Hcols & Hsize & Htup).
  split; [exact Hrc|]. split; [exact Hslots|]. split; [lia|].
  split; [exact Hsize|]. intros id pos. rewrite Htup. discriminate.
Qed.

Lemma append_chunk_inv (ht : JoinHashTable) (chunk : Chunk) (n : nat) :
  build_columns_inv (_table_items ht) n →
  chunk_wf (build_slots (_table_items ht)) chunk →
  ∃ ht',
    append_chunk ht chunk = Some ht'
    ∧ build_columns_inv (_table_items ht') (n + num_rows chunk)
    ∧ build_slots (_table_items ht') = build_slots (_table_items ht).
Proof.
  intros (Hrc & Hslots & Hcols & Hsize & Htup) Hwf.
  unfold append_chunk.
  destruct (append_slot_columns_loop chunk (build_slots (_table_items ht))
              (columns (build_chunk (_table_items ht))) (n + 1)
              (build_column_count (_table_items ht))
              (build_column_count (_table_items ht)) Hwf)
    as (cols & Hrun & Hlen & Hdone & _); [lia|exact Hcols|exact Hsize|lia|].
  rewrite Hrun. simpl. eexists. split; [reflexivity|]. simpl.
  split; [|reflexivity].
  unfold build_columns_inv. simpl.
  split; [lia|]. split; [exact Hslots|].
  destruct (_need_create_tuple_columns ht).
  - destruct (append_tuple_markers_frame chunk (row_desc (_table_items ht))
                (row_count (_table_items ht))
                (build_column_count (_table_items ht))
                (tuple_id_to_index chunk)
                (set_columns (build_chunk (_table_items ht)) cols))
      as (H1 & H2 & H3); [simpl; lia|exact Htup|].
    split; [exact H1|]. split; [|exact H2].
    intros i Hi. rewrite H3 by exact Hi. simpl. rewrite Hdone by exact Hi. lia.
  - simpl. split; [lia|]. split; [|exact Htup].
    intros i Hi. rewrite Hdone by exact Hi. lia.
Qed.

Lemma append_chunks_inv (chunks : list Chunk) :
  ∀ (ht : JoinHashTable) (n : nat),
    build_columns_inv (_table_items ht) n →
    Forall (chunk_wf (build_slots (_table_items ht))) chunks →
    ∃ ht',
      append_chunks ht chunks = Some ht'
      ∧ build_columns_inv (_table_items ht') (n + sum_list (map num_rows chunks)).
Proof.
  induction chunks as [|c chunks IH]; intros ht n Hinv Hwf.
  - exists ht. split; [reflexivity|]. simpl. by rewrite Nat.add_0_r.
  - inversion Hwf as [|c' l' Hc Hrest]; subst.
    destruct (append_chunk_inv ht c n Hinv Hc) as (ht1 & Happ & Hinv1 & Hsl).
    destruct (IH ht1 (n + num_rows c) Hinv1) as (ht' & Hrun & Hinv');
      [by rewrite Hsl|].
    exists ht'. unfold append_chunks in *. simpl. rewrite Happ.
    split; [exact Hrun|]. simpl in *.
    by rewrite Nat.add_assoc.
Qed.

(** C3, as amended.  For every sequence of batches passed to
    [append_chunk] after [create] (each holding a column of its row
    count for every build slot), all appends succeed, the table's row
    count afterwards is the sum of the batches' row counts, and every
    build-side output column of the build chunk has that many rows plus
    one: the default row that [create] put at index 0. *)
Theorem append_row_count_and_column_sizes
    (param : HashTableParam) (chunks : list Chunk)
    (Hwf : Forall (chunk_wf (build_slots (_table_items (create param))))
                  chunks) :
  ∃ ht,
    append_chunks (create param) chunks = Some ht
    ∧ row_count (_table_items ht) = sum_list (map num_rows chunks)
    ∧ ∀ i, i < build_column_count (_table_items ht) →
           size (columns (build_chunk (_table_items ht)) !!! i)
           = row_count (_table_items ht) + 1.
Proof.
  destruct (append_chunks_inv chunks (create param) 0
              (fresh_build_columns_inv _ (create_fresh param)) Hwf)
    as (ht & Hrun & Hrc & _ & _ & Hsize & _).
  exists ht. split; [exact Hrun|]. simpl in Hrc. split; [exact Hrc|].
  intros i Hi. rewrite Hrc. by apply Hsize.
Qed.

Lemma example_chunk_wf (jt : TJoinOp) :
  chunk_wf (build_slots (_table_items (create (example_param jt))))
           example_chunk.
Proof.
  intros hs Hin. cbn in Hin.
  repeat (apply elem_of_cons in Hin as [->|Hin];
          [eexists; split; reflexivity|]).
  by apply elem_of_nil in Hin.
Qed.

Lemma append_row_count_and_column_sizes_witness :
  ∃ ht,
    append_chunks (create (example_param INNER_JOIN))
                  [example_chunk; example_chunk] = Some ht
    ∧ row_count (_table_items ht) = 4
    ∧ ∀ i, i < build_column_count (_table_items ht) →
           size (columns (build_chunk (_table_items ht)) !!! i)
           = row_count (_table_items ht) + 1.
Proof.
  apply (append_row_count_and_column_sizes (example_param INNER_JOIN)
           [example_chunk; example_chunk]).
  repeat constructor; apply example_chunk_wf.
Defined.

(** C3 as worded fails on the column lengths: after one two-row batch
    the row count is 2 while both build columns hold 3 rows. *)
Lemma column_size_is_row_count_counterexample :
  ∃ ht,
    append_chunks (create (example_param INNER_JOIN)) [example_chunk] = Some ht
    ∧ row_count (_table_items ht) = 2
    ∧ map size (columns (build_chunk (_table_items ht))) = [3; 3]
    ∧ ¬ (∀ i, i < build_column_count (_table_items ht) →
              size (columns (build_chunk (_table_items ht)) !!! i)
              = row_count (_table_items ht)).
Proof.
  eexists. split; [vm_compute; reflexivity|]. split; [reflexivity|].
  split; [reflexivity|]. intros H.
  assert (0 < 2) as H2 by lia. specialize (H 0 H2).
  vm_compute in H. discriminate H.
Qed.

(** ** Bucket chains *)

Lemma chain_0 (fuel : nat) (next : list nat) : chain fuel next 0 = [].
Proof. destruct fuel; reflexivity. Qed.

(** A write to [next] above every row a walk can meet does not change
    the walk. *)
Lemma chain_insert_above (next : list nat) (r v : nat) :
  (∀ x, 1 ≤ x → next !!! x < x) →
  ∀ fuel row, row < r →
    chain fuel (<[r := v]> next) row = chain fuel next row.
Proof.
  intros Hdec fuel. induction fuel as [|fuel IH]; intros row Hrow.
  - reflexivity.
  - simpl. destruct (row =? 0) eqn:E; [reflexivity|].
    apply Nat.eqb_neq in E.
    rewrite list_lookup_total_insert_ne by lia.
    f_equal. apply IH. specialize (Hdec row). lia.
Qed.

Lemma rows_of_bucket_S (included : nat → bool) (bucket : nat → nat)
    (n b : nat) :
  rows_of_bucket included bucket (S n) b
  = rows_of_bucket included bucket n b
    ++ (if decide (included (S n) = true ∧ bucket (S n) = b)
        then [S n] else []).
Proof.
  unfold rows_of_bucket. rewrite seq_S, list.filter_app. simpl.
  rewrite filter_cons, filter_nil. reflexivity.
Qed.

(** The chains after linking rows 1..[k] from empty arrays. *)
Lemma link_rows_chains (included : nat → bool) (bucket : nat → nat)
    (B N k : nat) :
  k ≤ N →
  let fn := link_rows included bucket (seq 1 k)
              (replicate B 0, replicate (N + 1) 0) in
  length fn.1 = B ∧ length fn.2 = N + 1
  ∧ (∀ b, fn.1 !!! b ≤ k)
  ∧ (∀ x, 1 ≤ x → fn.2 !!! x < x)
  ∧ (∀ b fuel, b < B → k ≤ fuel →
       chain fuel fn.2 (fn.1 !!! b)
       = reverse (rows_of_bucket included bucket k b)).
Proof.
  induction k as [|k IH]; intros Hk.
  - simpl. rewrite !length_replicate.
    assert (∀ n i, replicate n 0 !!! i = 0) as Hz.
    { intros n i. destruct (decide (i < n)) as [Hi|Hi].
      - by apply lookup_total_replicate_2.
      - rewrite list_lookup_total_alt, (proj1 (lookup_replicate_None _ _ _));
          [reflexivity|lia]. }
    split; [reflexivity|]. split; [reflexivity|].
    split; [intros b; rewrite Hz; lia|].
    split; [intros x Hx; rewrite Hz; lia|].
    intros b fuel _ _. rewrite Hz, chain_0. reflexivity.
  - destruct IH as (Hlf & Hln & Hle & Hdec & Hchain); [lia|].
    cbn zeta. unfold link_rows in *. rewrite seq_S, foldl_app.
    destruct (foldl _ (replicate B 0, replicate (N + 1) 0) (seq 1 k))
      as [f nx]. cbn [fst snd] in *.
    replace (1 + k) with (S k) by lia. cbn [foldl].
    destruct (included (S k)) eqn:Hinc; cbn [fst snd].
    + split; [by rewrite length_insert|]. split; [by rewrite length_insert|].
      split.
      { intros b. destruct (decide (bucket (S k) = b)) as [<-|Hne].
        - destruct (decide (bucket (S k) < length f)) as [Hin|Hout].
          + rewrite list_lookup_total_insert_eq by exact Hin. lia.
          + rewrite list_insert_ge by lia. specialize (Hle (bucket (S k))). lia.
        - rewrite list_lookup_total_insert_ne by exact Hne.
          specialize (Hle b). lia. }
      split.
      { intros x Hx. destruct (decide (x = S k)) as [->|Hne].
        - rewrite list_lookup_total_insert_eq by lia.
          specialize (Hle (bucket (S k))). lia.
        - rewrite list_lookup_total_insert_ne by lia. by apply Hdec. }
      intros b fuel Hb Hfuel. rewrite rows_of_bucket_S, Hinc.
      destruct (decide (true = true ∧ bucket (S k) = b)) as [[_ Hbk]|Hnb].
      * rewrite reverse_snoc, Hbk.
        rewrite list_lookup_total_insert_eq by lia.
        destruct fuel as [|fuel]; [lia|]. cbn [chain]. simpl Nat.eqb.
        rewrite list_lookup_total_insert_eq by lia. f_equal.
        rewrite chain_insert_above; [|exact Hdec|specialize (Hle b); lia].
        apply Hchain; [exact Hb|lia].
      * rewrite app_nil_r.
        rewrite list_lookup_total_insert_ne by (intros Heq; apply Hnb; by split).
        rewrite chain_insert_above; [|exact Hdec|specialize (Hle b); lia].
        apply Hchain; [exact Hb|lia].
    + split; [exact Hlf|]. split; [exact Hln|].
      split; [intros b; specialize (Hle b); lia|].
      split; [exact Hdec|].
      intros b fuel Hb Hfuel. rewrite rows_of_bucket_S, Hinc.
      rewrite decide_False by (intros [H _]; discriminate H).
      rewrite app_nil_r. apply Hchain; [exact Hb|lia].
Qed.

(** ** The opaque-bytes build: from the loops to [link_rows] *)

Lemma pointwise_loop {A : Type} `{!Inhabited A} (g : nat → A → A)
    (l : list A) (count : nat) :
  count ≤ length l →
  let l' := for_loop count (fun j acc => <[j := g j (acc !!! j)]> acc) l in
  length l' = length l
  ∧ (∀ i, i < count → l' !!! i = g i (l !!! i))
  ∧ (∀ i, count ≤ i → l' !!! i = l !!! i).
Proof.
  intros Hc. cbn zeta.
  apply (for_loop_ind
           (fun n acc => n ≤ count →
              length acc = length l
              ∧ (∀ i, i < n → acc !!! i = g i (l !!! i))
              ∧ (∀ i, n ≤ i → acc !!! i = l !!! i))); [| |lia].
  - intros _. split; [reflexivity|]. split; [intros i Hi; lia|reflexivity].
  - intros n acc Hn IH Hle. destruct IH as (Hlen & Hdone & Hrest); [lia|].
    split; [by rewrite length_insert|]. split.
    + intros i Hi. destruct (decide (i = n)) as [->|Hne].
      * rewrite list_lookup_total_insert_eq by lia. by rewrite Hrest.
      * rewrite list_lookup_total_insert_ne by lia. apply Hdone. lia.
    + intros i Hi. rewrite list_lookup_total_insert_ne by lia.
      apply Hrest. lia.
Qed.

Lemma null_or_snoc (ncs : list NullColumn) (nc : NullColumn) (row : nat) :
  null_or (ncs ++ [nc]) row = N.lor (null_or ncs row) (nc !!! row).
Proof. unfold null_or. by rewrite foldl_app. Qed.

Lemma null_or_zero (ncs : list NullColumn) (row : nat) :
  null_or ncs row = 0%N ↔ ∀ nc, nc ∈ ncs → nc !!! row = 0%N.
Proof.
  induction ncs as [|nc ncs IH] using rev_ind.
  - split; [intros _ nc H; by apply elem_of_nil in H|reflexivity].
  - rewrite null_or_snoc, N.lor_eq_0_iff, IH. split.
    + intros [H1 H2] x Hx. apply elem_of_app in Hx as [Hx|Hx]; [by apply H1|].
      apply list_elem_of_singleton in Hx. by subst.
    + intros H. split.
      * intros x Hx. apply H, elem_of_app. by left.
      * apply H, elem_of_app. right. by apply list_elem_of_singleton.
Qed.

Lemma fill_is_nulls_spec (nc0 : NullColumn) (rest : list NullColumn)
    (start count : nat) (nulls : list N) :
  count ≤ length nulls →
  let nulls' := fill_is_nulls (nc0 :: rest) start count nulls in
  length nulls' = length nulls
  ∧ (∀ i, i < count → nulls' !!! i = null_or (nc0 :: rest) (start + i)).
Proof.
  intros Hc. unfold fill_is_nulls.
  destruct (pointwise_loop (fun j _ => nc0 !!! (start + j)) nulls count Hc)
    as (Hlen1 & Hval1 & _).
  cbn zeta in *. change ((nc0 :: rest) !!! 0) with nc0.
  set (nulls1 := for_loop count _ nulls) in *.
  unfold for_range. cbn [length]. replace (S (length rest) - 1) with (length rest) by lia.
  assert (∀ k, k ≤ length rest →
            let acc := foldl (fun acc i =>
                          for_loop count
                            (fun j acc =>
                               <[j := N.lor (acc !!! j)
                                        (((nc0 :: rest) !!! i) !!! (start + j))]>
                                 acc) acc)
                         nulls1 (seq 1 k) in
            length acc = length nulls
            ∧ ∀ i, i < count →
                acc !!! i = null_or (nc0 :: take k rest) (start + i)) as Hk.
  { induction k as [|k IH]; intros Hle.
    - simpl. split; [exact Hlen1|]. intros i Hi. rewrite Hval1 by exact Hi.
      reflexivity.
    - destruct IH as (Hlen & Hval); [lia|]. cbn zeta in *.
      rewrite seq_S, foldl_app. cbn [foldl].
      set (acc := foldl _ nulls1 (seq 1 k)) in *.
      destruct (pointwise_loop
                  (fun j x => N.lor x (((nc0 :: rest) !!! (1 + k)) !!! (start + j)))
                  acc count) as (Hlen2 & Hval2 & _); [lia|].
      cbn zeta in Hlen2, Hval2.
      split; [lia|]. intros i Hi. rewrite Hval2 by exact Hi.
      rewrite Hval by exact Hi.
      destruct (lookup_lt_is_Some_2 rest k) as [nc Hnc]; [lia|].
      rewrite (take_S_r _ _ _ Hnc).
      change (nc0 :: take k rest ++ [nc]) with ((nc0 :: take k rest) ++ [nc]).
      rewrite null_or_snoc. f_equal.
      change ((nc0 :: rest) !!! (1 + k)) with (rest !!! k).
      by rewrite (list_lookup_total_correct _ _ _ Hnc). }
  destruct (Hk (length rest)) as (Hlen & Hval); [lia|]. cbn zeta in *.
  rewrite firstn_all in Hval. split; assumption.
Qed.

Section SerializedBuildFacts.

Variable key_bytes : list Column → nat → list Byte.byte.
Variable bucket_of_bytes : list Byte.byte → nat → nat.

Local Abbreviation build_key_ := (build_key key_bytes bucket_of_bytes).

(** The bucket the build computes for row [r] of the data columns. *)
Local Abbreviation row_bucket dc B :=
  (fun r => bucket_of_bytes (key_bytes dc r) B).

(** The key loop of a batch: [first] and [next] stay as they are and
    [buckets[i]] receives the bucket of row [start + i] for every row
    [g] lets through. *)
Lemma key_loop_spec (dc : list Column) (start count : nat) (g : nat → bool)
    (body : nat → BuildCtx → BuildCtx)
    (t : JoinHashTableItems) (p : HashTableProbeState) (ptr : nat) :
  (∀ i ctx, i < count → is_nulls ctx.1.2 = is_nulls p →
            body i ctx = if g i then build_key_ dc start i ctx else ctx) →
  count ≤ length (buckets p) →
  start + count ≤ length (build_slice t) →
  let ctx := for_loop count body (t, p, ptr) in
  first ctx.1.1 = first t ∧ ti_next ctx.1.1 = ti_next t
  ∧ bucket_size ctx.1.1 = bucket_size t
  ∧ row_count ctx.1.1 = row_count t
  ∧ length (build_slice ctx.1.1) = length (build_slice t)
  ∧ is_nulls ctx.1.2 = is_nulls p
  ∧ build_match_index ctx.1.2 = build_match_index p
  ∧ length (buckets ctx.1.2) = length (buckets p)
  ∧ (∀ i, i < count → g i = true →
          buckets ctx.1.2 !!! i = row_bucket dc (bucket_size t) (start + i)).
Proof.
  intros Hbody Hb Hs. cbn zeta.
  apply (for_loop_ind
           (fun n ctx => n ≤ count →
              first ctx.1.1 = first t ∧ ti_next ctx.1.1 = ti_next t
              ∧ bucket_size ctx.1.1 = bucket_size t
              ∧ row_count ctx.1.1 = row_count t
              ∧ length (build_slice ctx.1.1) = length (build_slice t)
              ∧ is_nulls ctx.1.2 = is_nulls p
              ∧ build_match_index ctx.1.2 = build_match_index p
              ∧ length (buckets ctx.1.2) = length (buckets p)
              ∧ (∀ i, i < n → g i = true →
                   buckets ctx.1.2 !!! i
                   = row_bucket dc (bucket_size t) (start + i)))); [| |lia].
  - intros _. repeat split; try reflexivity. intros i Hi. lia.
  - intros n ctx Hn IH Hle.
    destruct IH as (Hf & Hnx & Hbs & Hrc & Hsl & Hnl & Hbmi & Hbl & Hval);
      [lia|].
    rewrite Hbody by assumption.
    destruct (g n) eqn:Hg.
    + destruct ctx as [[t1 p1] ptr1]. cbn [fst snd] in *.
      unfold build_key. cbn [fst snd first ti_next bucket_size row_count
        build_slice set_build_slice is_nulls buckets set_buckets
        build_match_index].
      rewrite length_insert.
      repeat (split; [assumption|]).
      split; [by rewrite length_insert|].
      intros i Hi Hgi. destruct (decide (i = n)) as [->|Hne].
      * rewrite list_lookup_total_insert_eq by lia.
        rewrite list_lookup_total_insert_eq by lia.
        unfold calc_bucket_num, get_hash_key. cbn [slice_bytes].
        by rewrite Hbs.
      * rewrite list_lookup_total_insert_ne by lia. apply Hval; [lia|exact Hgi].
    + repeat (split; [assumption|]).
      intros i Hi Hgi. destruct (decide (i = n)) as [->|Hne]; [congruence|].
      apply Hval; [lia|exact Hgi].
Qed.

(** The link loop of a batch: it performs [link_rows] on the rows
    [start .. start + count - 1]. *)
Lemma link_loop_spec (start count : nat) (g : nat → bool)
    (bucket : nat → nat) (body : nat → BuildCtx → BuildCtx)
    (t : JoinHashTableItems) (p : HashTableProbeState) (ptr : nat) :
  (∀ i ctx, i < count → ctx.1.2 = p →
            body i ctx = if g i then link_row start i ctx else ctx) →
  (∀ i, i < count → g i = true → buckets p !!! i = bucket (start + i)) →
  let ctx := for_loop count body (t, p, ptr) in
  ctx.1.2 = p
  ∧ bucket_size ctx.1.1 = bucket_size t
  ∧ row_count ctx.1.1 = row_count t
  ∧ build_slice ctx.1.1 = build_slice t
  ∧ (first ctx.1.1, ti_next ctx.1.1)
    = link_rows (fun r => g (r - start)) bucket (seq start count)
        (first t, ti_next t).
Proof.
  intros Hbody Hbk. cbn zeta.
  apply (for_loop_ind
           (fun n ctx => n ≤ count →
              ctx.1.2 = p
              ∧ bucket_size ctx.1.1 = bucket_size t
              ∧ row_count ctx.1.1 = row_count t
              ∧ build_slice ctx.1.1 = build_slice t
              ∧ (first ctx.1.1, ti_next ctx.1.1)
                = link_rows (fun r => g (r - start)) bucket (seq start n)
                    (first t, ti_next t))); [| |lia].
  - intros _. repeat split; reflexivity.
  - intros n ctx Hn IH Hle.
    destruct IH as (Hp & Hbs & Hrc & Hsl & Hlink); [lia|].
    rewrite Hbody by assumption.
    unfold link_rows in *. rewrite seq_S, foldl_app, <- Hlink. cbn [foldl].
    replace (start + n - start) with n by lia.
    destruct (g n) eqn:Hg.
    + destruct ctx as [[t1 p1] ptr1]. cbn [fst snd] in *. subst p1.
      unfold link_row. cbn [fst snd first ti_next bucket_size row_count
        build_slice set_first set_ti_next].
      rewrite (Hbk n Hn Hg).
      repeat (split; [first [assumption|reflexivity]|]). reflexivity.
    + repeat (split; [assumption|]). reflexivity.
Qed.

End SerializedBuildFacts.

Lemma link_rows_ext (inc1 inc2 : nat → bool) (bucket : nat → nat)
    (rows : list nat) (fn : list nat * list nat) :
  (∀ r, r ∈ rows → inc1 r = inc2 r) →
  link_rows inc1 bucket rows fn = link_rows inc2 bucket rows fn.
Proof.
  revert fn. induction rows as [|r rows IH]; intros [f nx] Hext; [reflexivity|].
  unfold link_rows in *. cbn [foldl]. rewrite (Hext r) by (by left).
  apply IH. intros x Hx. apply Hext. by right.
Qed.

Lemma link_rows_app (included : nat → bool) (bucket : nat → nat)
    (rows1 rows2 : list nat) (fn : list nat * list nat) :
  link_rows included bucket (rows1 ++ rows2) fn
  = link_rows included bucket rows2 (link_rows included bucket rows1 fn).
Proof. unfold link_rows. by rewrite foldl_app. Qed.

Section SerializedBatchFacts.

Variable key_bytes : list Column → nat → list Byte.byte.
Variable bucket_of_bytes : list Byte.byte → nat → nat.

Lemma build_columns_effect (dc : list Column) (start count : nat)
    (ctx0 : BuildCtx) :
  count ≤ length (buckets ctx0.1.2) →
  start + count ≤ length (build_slice ctx0.1.1) →
  batch_effect key_bytes bucket_of_bytes dc [] start count ctx0
    (_build_columns key_bytes bucket_of_bytes dc start count ctx0).
Proof.
  destruct ctx0 as [[t p] ptr]. cbn [fst snd]. intros Hb Hs.
  unfold _build_columns.
  pose proof (key_loop_spec key_bytes bucket_of_bytes dc start count
                (fun _ => true) (build_key key_bytes bucket_of_bytes dc start)
                t p ptr) as H1.
  cbn zeta in H1.
  destruct H1 as (Hf & Hnx & Hbs & Hrc & Hsl & Hnl & Hbmi & Hbl & Hval);
    [reflexivity|exact Hb|exact Hs|].
  destruct (for_loop count (build_key key_bytes bucket_of_bytes dc start)
              (t, p, ptr)) as [[t1 p1] ptr1].
  cbn [fst snd] in *.
  pose proof (link_loop_spec start count (fun _ => true)
                (fun r => bucket_of_bytes (key_bytes dc r) (bucket_size t))
                (link_row start) t1 p1 ptr1) as H2.
  cbn zeta in H2.
  destruct H2 as (Hp & Hbs2 & Hrc2 & Hsl2 & Hlink);
    [reflexivity|intros i Hi _; by apply Hval|].
  unfold batch_effect. cbn [fst snd].
  rewrite Hp, Hbs2, Hrc2, Hsl2, Hlink, Hf, Hnx.
  repeat (split; [first [assumption|congruence]|]).
  reflexivity.
Qed.

Lemma build_nullable_columns_effect (dc : list Column)
    (nc0 : NullColumn) (rest : list NullColumn) (start count : nat)
    (ctx0 : BuildCtx) :
  count ≤ length (buckets ctx0.1.2) →
  count ≤ length (is_nulls ctx0.1.2) →
  start + count ≤ length (build_slice ctx0.1.1) →
  batch_effect key_bytes bucket_of_bytes dc (nc0 :: rest) start count ctx0
    (_build_nullable_columns key_bytes bucket_of_bytes dc (nc0 :: rest)
       start count ctx0).
Proof.
  destruct ctx0 as [[t p] ptr]. cbn [fst snd]. intros Hb Hn Hs.
  unfold _build_nullable_columns. cbv beta iota zeta.
  destruct (fill_is_nulls_spec nc0 rest start count (is_nulls p) Hn)
    as (Hfl & Hfv). cbn zeta in Hfl, Hfv.
  set (nulls := fill_is_nulls (nc0 :: rest) start count (is_nulls p)) in *.
  set (g := fun i => (nulls !!! i =? 0)%N).
  pose (body1 := fun (i : nat) (ctx : BuildCtx) =>
                   if (is_nulls ctx.1.2 !!! i =? 0)%N
                   then build_key key_bytes bucket_of_bytes dc start i ctx
                   else ctx).
  pose (body2 := fun (i : nat) (ctx : BuildCtx) =>
                   if (is_nulls ctx.1.2 !!! i =? 0)%N
                   then link_row start i ctx else ctx).
  change (batch_effect key_bytes bucket_of_bytes dc (nc0 :: rest) start count
            (t, p, ptr)
            (for_loop count body2
               (for_loop count body1 (t, set_is_nulls p nulls, ptr)))).
  pose proof (key_loop_spec key_bytes bucket_of_bytes dc start count g
                body1 t (set_is_nulls p nulls) ptr) as H1.
  cbn zeta in H1.
  destruct H1 as (Hf & Hnx & Hbs & Hrc & Hsl & Hnl & Hbmi & Hbl & Hval).
  { intros i ctx Hi Hnls. unfold body1, g. rewrite Hnls. reflexivity. }
  { exact Hb. }
  { exact Hs. }
  destruct (for_loop count body1 (t, set_is_nulls p nulls, ptr))
    as [[t1 p1] ptr1].
  cbn [fst snd is_nulls set_is_nulls buckets build_match_index] in *.
  pose proof (link_loop_spec start count g
                (fun r => bucket_of_bytes (key_bytes dc r) (bucket_size t))
                body2 t1 p1 ptr1) as H2.
  cbn zeta in H2.
  destruct H2 as (Hp & Hbs2 & Hrc2 & Hsl2 & Hlink).
  { intros i ctx Hi Hctx. unfold body2, g. rewrite Hctx, Hnl. reflexivity. }
  { intros i Hi Hg. by apply Hval. }
  unfold batch_effect. cbn [fst snd].
  rewrite Hp, Hbs2, Hrc2, Hsl2, Hlink, Hf, Hnx, Hnl.
  repeat (split; [first [assumption|congruence]|]).
  apply link_rows_ext. intros r Hr. apply elem_of_seq in Hr.
  unfold g, row_included. rewrite Hfv by lia.
  replace (start + (r - start)) with r by lia. reflexivity.
Qed.

End SerializedBatchFacts.

Section ConstructFacts.

Variable max_serialized_size : Column → nat.
Variable allocate : nat → option nat.
Variable key_bytes : list Column → nat → list Byte.byte.
Variable bucket_of_bytes : list Byte.byte → nat → nat.

Local Abbreviation effect := (batch_effect key_bytes bucket_of_bytes).

(** The batch function [construct_hash_table] picks. *)
Local Abbreviation batch_of dc ncs :=
  (match ncs with
   | [] => _build_columns key_bytes bucket_of_bytes dc
   | _ => _build_nullable_columns key_bytes bucket_of_bytes dc ncs
   end).

Lemma batch_of_effect (dc : list Column) (ncs : list NullColumn)
    (start count : nat) (ctx0 : BuildCtx) :
  count ≤ length (buckets ctx0.1.2) →
  count ≤ length (is_nulls ctx0.1.2) →
  start + count ≤ length (build_slice ctx0.1.1) →
  effect dc ncs start count ctx0 (batch_of dc ncs start count ctx0).
Proof.
  intros Hb Hn Hs. destruct ncs as [|nc0 rest].
  - by apply build_columns_effect.
  - by apply build_nullable_columns_effect.
Qed.

Lemma batch_effect_refl (dc : list Column) (ncs : list NullColumn)
    (start : nat) (ctx0 : BuildCtx) :
  effect dc ncs start 0 ctx0 ctx0.
Proof. repeat split. Qed.

Lemma batch_effect_trans (dc : list Column) (ncs : list NullColumn)
    (start c1 c2 : nat) (ctx0 ctx1 ctx2 : BuildCtx) :
  effect dc ncs start c1 ctx0 ctx1 →
  effect dc ncs (start + c1) c2 ctx1 ctx2 →
  effect dc ncs start (c1 + c2) ctx0 ctx2.
Proof.
  intros (A1 & A2 & A3 & A4 & A5 & A6 & A7) (B1 & B2 & B3 & B4 & B5 & B6 & B7).
  unfold batch_effect.
  rewrite seq_app, link_rows_app, <- A7, <- A1, B7.
  repeat (split; [congruence|]). reflexivity.
Qed.

(** [construct_hash_table], when the allocation succeeds, links the
    rows 1..[row_count] in order and leaves the counters alone. *)
Lemma construct_hash_table_links (chunk_size : nat)
    (t : JoinHashTableItems) (p : HashTableProbeState) (ptr : nat) :
  let cols := prepare_columns (join_keys t) (ti_key_columns t) in
  0 < chunk_size →
  allocate (serialize_size max_serialized_size cols.1) = Some ptr →
  chunk_size ≤ length (buckets p) →
  chunk_size ≤ length (is_nulls p) →
  row_count t + 1 ≤ length (build_slice t) →
  ∃ t' p',
    construct_hash_table max_serialized_size allocate key_bytes
      bucket_of_bytes chunk_size t p = (OK, t', p')
    ∧ effect cols.1 cols.2 1 (row_count t) (t, p, ptr) (t', p', 0).
Proof.
  intros cols Hcs Halloc Hb Hn Hs. unfold construct_hash_table.
  fold cols. destruct cols as [dc ncs] eqn:Hcols. cbn [fst snd] in *.
  rewrite Halloc.
  set (quo := row_count t / chunk_size).
  set (rem := row_count t mod chunk_size).
  assert (row_count t = chunk_size * quo + rem) as Hdiv
    by apply Nat.div_mod_eq.
  assert (rem < chunk_size) as Hrem by (apply Nat.mod_upper_bound; lia).
  set (body := fun (i : nat) (ctx : BuildCtx) =>
                 batch_of dc ncs (1 + chunk_size * i) chunk_size ctx).
  assert (effect dc ncs 1 (chunk_size * quo) (t, p, ptr)
            (for_loop quo body (t, p, ptr))) as Hloop.
  { apply (for_loop_ind
             (fun n ctx => effect dc ncs 1 (chunk_size * n) (t, p, ptr) ctx)).
    - rewrite Nat.mul_0_r. apply batch_effect_refl.
    - intros i ctx Hi Hctx.
      replace (chunk_size * S i) with (chunk_size * i + chunk_size) by lia.
      eapply batch_effect_trans; [exact Hctx|].
      destruct Hctx as (_ & _ & C3 & C4 & C5 & _). cbn [fst snd] in *.
      assert (chunk_size * i + chunk_size ≤ chunk_size * quo)
        by (replace (chunk_size * i + chunk_size) with (chunk_size * S i)
              by lia; apply Nat.mul_le_mono_l; lia).
      apply batch_of_effect; lia. }
  change (fun (i : nat) (ctx : BuildCtx) =>
            batch_of dc ncs (1 + chunk_size * i) chunk_size ctx)
    with body.
  set (ctx1 := for_loop quo body (t, p, ptr)) in *.
  assert (effect dc ncs 1 (row_count t) (t, p, ptr)
            (batch_of dc ncs (1 + chunk_size * quo) rem ctx1)) as Hall.
  { rewrite Hdiv at 1. eapply batch_effect_trans; [exact Hloop|].
    destruct Hloop as (_ & _ & C3 & C4 & C5 & _). cbn [fst snd] in *.
    apply batch_of_effect; lia. }
  destruct (batch_of dc ncs (1 + chunk_size * quo) rem ctx1)
    as [[t' p'] ptr'].
  exists t', p'. split; [reflexivity|]. exact Hall.
Qed.

End ConstructFacts.

(** ** The opaque-bytes build: chains in reverse insertion order *)

Lemma chain_head (fuel : nat) (next : list nat) (row r : nat) (l : list nat) :
  chain fuel next row = r :: l → row = r.
Proof.
  destruct fuel as [|fuel]; simpl; [discriminate|].
  destruct (row =? 0); [discriminate|]. congruence.
Qed.

(** C6. In the opaque-bytes build ([prepare], then
    [construct_hash_table] on a table whose [first] and [next] are
    zeroed, the allocation succeeding): the index is what the two
    assignments [next[row] = first[bucket]; first[bucket] = row] give
    when made for the included rows 1..row_count in order; hence the
    chain of every bucket lists the included rows hashing to it in
    reverse insertion order, every included row is in the chain of its
    bucket, and the head of a chain is the row inserted last. *)
Theorem serialized_build_chain_order
    (max_serialized_size : Column → nat) (allocate : nat → option nat)
    (key_bytes : list Column → nat → list Byte.byte)
    (bucket_of_bytes : list Byte.byte → nat → nat)
    (chunk_size : nat) (t : JoinHashTableItems) (p : HashTableProbeState)
    (ptr : nat) :
  let cols := prepare_columns (join_keys t) (ti_key_columns t) in
  let included := row_included cols.2 in
  let bucket := fun r => bucket_of_bytes (key_bytes cols.1 r) (bucket_size t) in
  0 < chunk_size →
  allocate (serialize_size max_serialized_size cols.1) = Some ptr →
  first t = replicate (bucket_size t) 0 →
  ti_next t = replicate (row_count t + 1) 0 →
  ∃ t' p',
    construct_hash_table max_serialized_size allocate key_bytes bucket_of_bytes
      chunk_size (prepare chunk_size t p).1 (prepare chunk_size t p).2
    = (OK, t', p')
    ∧ row_count t' = row_count t
    ∧ bucket_size t' = bucket_size t
    ∧ (first t', ti_next t')
      = link_rows included bucket (seq 1 (row_count t)) (first t, ti_next t)
    ∧ (∀ b, b < bucket_size t →
         bucket_chain t' b
         = reverse (rows_of_bucket included bucket (row_count t) b))
    ∧ (∀ r, 1 ≤ r ≤ row_count t → included r = true →
         bucket r < bucket_size t → r ∈ bucket_chain t' (bucket r))
    ∧ (∀ b l r, b < bucket_size t →
         rows_of_bucket included bucket (row_count t) b = l ++ [r] →
         first t' !!! b = r).
Proof.
  intros cols included bucket Hcs Halloc Hfirst Hnext.
  destruct (construct_hash_table_links max_serialized_size allocate key_bytes
              bucket_of_bytes chunk_size (prepare chunk_size t p).1
              (prepare chunk_size t p).2 ptr)
    as (t' & p' & Hrun & Hbs & Hrc & _ & _ & _ & _ & Hlink);
    try (simpl; rewrite ?length_resize; first [assumption|lia]).
  cbn [fst snd prepare set_build_slice bucket_size row_count first ti_next
       join_keys ti_key_columns] in Hbs, Hrc, Hlink.
  fold cols in Hlink. fold included in Hlink. fold bucket in Hlink.
  exists t', p'. split; [exact Hrun|]. split; [exact Hrc|].
  split; [exact Hbs|]. split; [exact Hlink|].
  destruct (link_rows_chains included bucket (bucket_size t) (row_count t)
              (row_count t)) as (_ & _ & _ & _ & Hchain); [lia|].
  cbn zeta in Hchain. rewrite <- Hfirst, <- Hnext, <- Hlink in Hchain.
  cbn [fst snd] in Hchain.
  assert (∀ b, b < bucket_size t →
            bucket_chain t' b
            = reverse (rows_of_bucket included bucket (row_count t) b)) as Hb.
  { intros b Hlt. unfold bucket_chain. rewrite Hrc. by apply Hchain. }
  split; [exact Hb|]. split.
  - intros r Hr Hinc Hlt. rewrite Hb by exact Hlt.
    apply elem_of_reverse, list_elem_of_filter. split; [by split|].
    apply elem_of_seq. lia.
  - intros b l r Hlt Hrows. specialize (Hb b Hlt).
    rewrite Hrows, reverse_snoc in Hb. unfold bucket_chain in Hb.
    by apply chain_head in Hb.
Qed.

Lemma serialized_build_chain_order_witness :
  let t := _table_items example_allocated_table in
  let p := _probe_state example_allocated_table in
  ∃ t' p',
    construct_hash_table example_max_serialized_size example_allocate
      example_key_bytes example_bucket_of_bytes 2
      (prepare 2 t p).1 (prepare 2 t p).2 = (OK, t', p')
    ∧ bucket_chain t' 0 = [1].
Proof.
  intros t p.
  destruct (serialized_build_chain_order example_max_serialized_size
              example_allocate example_key_bytes example_bucket_of_bytes
              2 t p 0)
    as (t' & p' & Hrun & _ & _ & _ & Hchain & _).
  - lia.
  - reflexivity.
  - reflexivity.
  - reflexivity.
  - exists t', p'. split; [exact Hrun|].
    rewrite Hchain by (vm_compute; lia). reflexivity.
Defined.

(** ** NULL in a key that is not null-safe *)

(** A row whose null indicator is set makes the column report a NULL. *)
Lemma null_indicator_has_null (c : Column) (r : nat) (v : N) :
  null_column c !! r = Some v → v ≠ 0%N →
  is_nullable c = true ∧ has_null c = true.
Proof.
  intros Hr Hv. destruct c as [d|d n]; simpl in *; [discriminate|].
  split; [reflexivity|]. unfold has_null. simpl.
  apply existsb_exists. exists v. split.
  - apply list_elem_of_In. by eapply list_elem_of_lookup_2.
  - by apply negb_true_iff, N.eqb_neq.
Qed.

(** Such a column's null column is among those [prepare_columns]
    collects, unless the key is null-safe. *)
Lemma prepare_columns_collects (keys : list JoinKeyDesc)
    (key_columns : list Column) (k : nat) :
  k < length key_columns →
  is_null_safe_equal (keys !!! k) = false →
  is_nullable (key_columns !!! k) = true →
  has_null (key_columns !!! k) = true →
  null_column (key_columns !!! k) ∈ (prepare_columns keys key_columns).2.
Proof.
  intros Hk Hsafe Hnullable Hhas. unfold prepare_columns.
  apply (for_loop_ind
           (fun n (acc : list Column * list NullColumn) =>
              k < n → null_column (key_columns !!! k) ∈ acc.2)); [lia| |exact Hk].
  intros i [dc ncs] Hi IH Hlt. cbn [snd] in *.
  destruct (decide (k = i)) as [->|Hne].
  - rewrite Hsafe, Hnullable, Hhas. cbn [snd].
    apply elem_of_app. right. by apply list_elem_of_singleton.
  - assert (null_column (key_columns !!! k) ∈ ncs) as Hin by (apply IH; lia).
    destruct (is_null_safe_equal (keys !!! i)); [exact Hin|].
    destruct (is_nullable (key_columns !!! i)); [|exact Hin].
    destruct (has_null (key_columns !!! i)); [|exact Hin].
    cbn [snd]. apply elem_of_app. by left.
Qed.

(** So the row is not [row_included]. *)
Lemma null_key_row_not_included (keys : list JoinKeyDesc)
    (key_columns : list Column) (k r : nat) (v : N) :
  k < length key_columns →
  is_null_safe_equal (keys !!! k) = false →
  null_column (key_columns !!! k) !! r = Some v → v ≠ 0%N →
  null_column (key_columns !!! k) ∈ (prepare_columns keys key_columns).2
  ∧ null_or (prepare_columns keys key_columns).2 r ≠ 0%N.
Proof.
  intros Hk Hsafe Hr Hv.
  destruct (null_indicator_has_null _ _ _ Hr Hv) as [Hnullable Hhas].
  pose proof (prepare_columns_collects keys key_columns k Hk Hsafe Hnullable
                Hhas) as Hin.
  split; [exact Hin|]. intros Hzero.
  apply (proj1 (null_or_zero _ _)) with (nc := null_column (key_columns !!! k))
    in Hzero; [|exact Hin].
  rewrite (list_lookup_total_correct _ _ _ Hr) in Hzero. contradiction.
Qed.

Section SerializedProbeFacts.

Variable max_serialized_size : Column → nat.
Variable allocate : nat → option nat.
Variable key_bytes : list Column → nat → list Byte.byte.
Variable bucket_of_bytes : list Byte.byte → nat → nat.

(** [_probe_nullable_column] leaves cursor 0 at every probe row whose
    null flags or to a non-zero value. *)
Lemma probe_nullable_column_cursor (t : JoinHashTableItems)
    (dc : list Column) (nc0 : NullColumn) (rest : list NullColumn)
    (p : HashTableProbeState) (ptr : nat) :
  probe_row_count p ≤ length (is_nulls p) →
  probe_row_count p ≤ length (ps_next p) →
  let p' := (_probe_nullable_column key_bytes bucket_of_bytes t dc
               (nc0 :: rest) (p, ptr)).1 in
  ∀ i, i < probe_row_count p →
       null_or (nc0 :: rest) i ≠ 0%N → ps_next p' !!! i = 0.
Proof.
  intros Hn Hx. unfold _probe_nullable_column. cbv beta iota zeta.
  destruct (fill_is_nulls_spec nc0 rest 0 (probe_row_count p) (is_nulls p) Hn)
    as (_ & Hfv). cbn zeta in Hfv.
  set (nulls := fill_is_nulls (nc0 :: rest) 0 (probe_row_count p) (is_nulls p))
    in *.
  set (rc := probe_row_count p) in *.
  match goal with
  | |- context [for_loop rc ?b4 (for_loop rc ?b3 ?s)] =>
      set (body4 := b4); set (body3 := b3); set (s0 := s)
  end.
  assert (is_nulls (for_loop rc body3 s0).1 = nulls
          ∧ ps_next (for_loop rc body3 s0).1 = ps_next p) as [H3n H3x].
  { apply (for_loop_ind
             (fun n (acc : ProbeCtx) =>
                is_nulls acc.1 = nulls ∧ ps_next acc.1 = ps_next p)).
    - split; reflexivity.
    - intros i [p1 ptr1] Hi [Hnl Hnx]. cbn [fst] in *. unfold body3.
      destruct (is_nulls p1 !!! i =? 0)%N; cbn [fst]; by split. }
  set (s1 := for_loop rc body3 s0) in *.
  assert (is_nulls (for_loop rc body4 s1).1 = nulls
          ∧ length (ps_next (for_loop rc body4 s1).1) = length (ps_next p)
          ∧ ∀ i, i < rc → nulls !!! i ≠ 0%N →
                 ps_next (for_loop rc body4 s1).1 !!! i = 0) as (_ & _ & H4).
  { apply (for_loop_ind
             (fun n (acc : ProbeCtx) =>
                is_nulls acc.1 = nulls
                ∧ length (ps_next acc.1) = length (ps_next p)
                ∧ ∀ i, i < n → nulls !!! i ≠ 0%N → ps_next acc.1 !!! i = 0)).
    - split; [exact H3n|]. split; [by rewrite H3x|]. intros i Hi. lia.
    - intros n [p1 ptr1] Hlt (Hnl & Hlen & Hval). cbn [fst] in *.
      unfold body4. rewrite Hnl.
      destruct (nulls !!! n =? 0)%N eqn:E;
        cbn [fst is_nulls ps_next set_ps_next probe_bucket set_buckets].
      + split; [exact Hnl|]. split; [by rewrite length_insert|].
        intros i Hi Hnz. destruct (decide (i = n)) as [->|Hne].
        * apply N.eqb_eq in E. contradiction.
        * rewrite list_lookup_total_insert_ne by lia. apply Hval; [lia|exact Hnz].
      + split; [exact Hnl|]. split; [by rewrite length_insert|].
        intros i Hi Hnz. destruct (decide (i = n)) as [->|Hne].
        * rewrite list_lookup_total_insert_eq by lia. reflexivity.
        * rewrite list_lookup_total_insert_ne by lia. apply Hval; [lia|exact Hnz]. }
  intros i Hi Hnz. apply H4; [exact Hi|]. rewrite Hfv by exact Hi. exact Hnz.
Qed.

(** [lookup_init] on a probe batch: a row with a NULL in a key that is
    not null-safe gets cursor 0. *)
Lemma lookup_init_null_cursor (t : JoinHashTableItems)
    (p : HashTableProbeState) (ptr k i : nat) (v : N) :
  allocate (serialize_size max_serialized_size
              (prepare_columns (join_keys t) (ps_key_columns p)).1)
    = Some ptr →
  probe_row_count p ≤ length (is_nulls p) →
  probe_row_count p ≤ length (ps_next p) →
  k < length (ps_key_columns p) →
  is_null_safe_equal (join_keys t !!! k) = false →
  i < probe_row_count p →
  null_column (ps_key_columns p !!! k) !! i = Some v → v ≠ 0%N →
  let r := lookup_init max_serialized_size allocate key_bytes
             bucket_of_bytes t p in
  r.1 = OK ∧ ps_next r.2 !!! i = 0.
Proof.
  intros Halloc Hn Hx Hk Hsafe Hi Hv Hnz.
  destruct (null_key_row_not_included (join_keys t) (ps_key_columns p) k i v
              Hk Hsafe Hv Hnz) as [Hin Hor].
  unfold lookup_init.
  destruct (prepare_columns (join_keys t) (ps_key_columns p)) as [dc ncs].
  cbn [fst snd] in *. rewrite Halloc.
  destruct ncs as [|nc0 rest]; [by apply elem_of_nil in Hin|].
  cbn zeta. cbn [fst snd]. split; [reflexivity|].
  by apply probe_nullable_column_cursor.
Qed.

End SerializedProbeFacts.

(** * Further properties of the build and probe functions *)

(** ** [construct_hash_table]: batching, termination of chain walks,
    disjoint chains *)

Section SerializedIndexFacts.

Variable max_serialized_size : Column → nat.
Variable allocate : nat → option nat.
Variable key_bytes : list Column → nat → list Byte.byte.
Variable bucket_of_bytes : list Byte.byte → nat → nat.

(** [prepare] then [construct_hash_table]: the outcome in terms of
    [link_rows], whatever the chunk size. *)
Lemma prepare_construct_links (chunk_size : nat)
    (t : JoinHashTableItems) (p : HashTableProbeState) (ptr : nat) :
  let cols := prepare_columns (join_keys t) (ti_key_columns t) in
  0 < chunk_size →
  allocate (serialize_size max_serialized_size cols.1) = Some ptr →
  ∃ t' p',
    construct_hash_table max_serialized_size allocate key_bytes bucket_of_bytes
      chunk_size (prepare chunk_size t p).1 (prepare chunk_size t p).2
    = (OK, t', p')
    ∧ row_count t' = row_count t
    ∧ bucket_size t' = bucket_size t
    ∧ (first t', ti_next t')
      = link_rows (row_included cols.2)
          (fun r => bucket_of_bytes (key_bytes cols.1 r) (bucket_size t))
          (seq 1 (row_count t)) (first t, ti_next t).
Proof.
  intros cols Hcs Halloc.
  destruct (construct_hash_table_links max_serialized_size allocate key_bytes
              bucket_of_bytes chunk_size (prepare chunk_size t p).1
              (prepare chunk_size t p).2 ptr)
    as (t' & p' & Hrun & Hbs & Hrc & _ & _ & _ & _ & Hlink);
    try (simpl; rewrite ?length_resize; first [assumption|lia]).
  cbn [fst snd prepare set_build_slice bucket_size row_count first ti_next
       join_keys ti_key_columns] in Hbs, Hrc, Hlink.
  exists t', p'. repeat (split; [assumption|]). exact Hlink.
Qed.

(** The index does not depend on the chunk size the rows are batched
    by. *)
Theorem construct_hash_table_chunk_size_irrelevant (c1 c2 : nat)
    (t : JoinHashTableItems) (p : HashTableProbeState) (ptr : nat)
    (Hc1 : 0 < c1) (Hc2 : 0 < c2)
    (Halloc :
       allocate (serialize_size max_serialized_size
                   (prepare_columns (join_keys t) (ti_key_columns t)).1)
       = Some ptr) :
  let run c :=
    construct_hash_table max_serialized_size allocate key_bytes bucket_of_bytes
      c (prepare c t p).1 (prepare c t p).2 in
  (run c1).1.1 = OK ∧ (run c2).1.1 = OK
  ∧ first (run c1).1.2 = first (run c2).1.2
  ∧ ti_next (run c1).1.2 = ti_next (run c2).1.2.
Proof.
  intros run. subst run. cbv beta.
  destruct (prepare_construct_links c1 t p ptr Hc1 Halloc)
    as (t1 & p1 & Hrun1 & _ & _ & Hl1).
  destruct (prepare_construct_links c2 t p ptr Hc2 Halloc)
    as (t2 & p2 & Hrun2 & _ & _ & Hl2).
  rewrite Hrun1, Hrun2. cbn [fst snd].
  rewrite <- Hl2 in Hl1. injection Hl1 as Hf Hn. by repeat split.
Qed.

End SerializedIndexFacts.

Lemma construct_hash_table_chunk_size_irrelevant_witness :
  let t := _table_items example_allocated_table in
  let p := _probe_state example_allocated_table in
  let run c :=
    construct_hash_table example_max_serialized_size example_allocate
      example_key_bytes example_bucket_of_bytes c
      (prepare c t p).1 (prepare c t p).2 in
  (run 1).1.1 = OK ∧ (run 2).1.1 = OK
  ∧ first (run 1).1.2 = first (run 2).1.2
  ∧ ti_next (run 1).1.2 = ti_next (run 2).1.2.
Proof.
  apply (construct_hash_table_chunk_size_irrelevant
           example_max_serialized_size example_allocate example_key_bytes
           example_bucket_of_bytes 1 2
           (_table_items example_allocated_table)
           (_probe_state example_allocated_table) 0).
  - lia.
  - lia.
  - reflexivity.
Defined.

(** *** Walks over decreasing [next] arrays *)

Lemma chain_fuel_irrelevant (next : list nat) :
  (∀ x, 1 ≤ x → next !!! x < x) →
  ∀ fuel1 fuel2 cursor, cursor ≤ fuel1 → cursor ≤ fuel2 →
    chain fuel1 next cursor = chain fuel2 next cursor.
Proof.
  intros Hdec fuel1. induction fuel1 as [|f1 IH]; intros fuel2 cursor H1 H2.
  - replace cursor with 0 by lia. by rewrite !chain_0.
  - destruct fuel2 as [|f2]; [replace cursor with 0 by lia; by rewrite !chain_0|].
    simpl. destruct (cursor =? 0) eqn:E; [reflexivity|].
    apply Nat.eqb_neq in E. f_equal.
    specialize (Hdec cursor). apply IH; lia.
Qed.

Lemma chain_elem_bounds (next : list nat) :
  (∀ x, 1 ≤ x → next !!! x < x) →
  ∀ fuel cursor r, r ∈ chain fuel next cursor → 1 ≤ r ≤ cursor.
Proof.
  intros Hdec fuel. induction fuel as [|f IH]; intros cursor r Hr.
  - by apply elem_of_nil in Hr.
  - simpl in Hr. destruct (cursor =? 0) eqn:E; [by apply elem_of_nil in Hr|].
    apply Nat.eqb_neq in E.
    apply elem_of_cons in Hr as [->|Hr]; [lia|].
    apply IH in Hr. specialize (Hdec cursor). lia.
Qed.

Lemma chain_NoDup (next : list nat) :
  (∀ x, 1 ≤ x → next !!! x < x) →
  ∀ fuel cursor, NoDup (chain fuel next cursor).
Proof.
  intros Hdec fuel. induction fuel as [|f IH]; intros cursor; [constructor|].
  simpl. destruct (cursor =? 0) eqn:E; [constructor|].
  apply Nat.eqb_neq in E. constructor; [|apply IH].
  intros Hin. apply (chain_elem_bounds next Hdec) in Hin.
  specialize (Hdec cursor). lia.
Qed.

Lemma chain_length (next : list nat) :
  (∀ x, 1 ≤ x → next !!! x < x) →
  ∀ fuel cursor, length (chain fuel next cursor) ≤ cursor.
Proof.
  intros Hdec fuel. induction fuel as [|f IH]; intros cursor; [simpl; lia|].
  simpl. destruct (cursor =? 0) eqn:E; [simpl; lia|].
  apply Nat.eqb_neq in E. simpl.
  specialize (IH (next !!! cursor)). specialize (Hdec cursor). lia.
Qed.

Section SerializedShapeFacts.

Variable max_serialized_size : Column → nat.
Variable allocate : nat → option nat.
Variable key_bytes : list Column → nat → list Byte.byte.
Variable bucket_of_bytes : list Byte.byte → nat → nat.

(** The shape of the index [construct_hash_table] builds over zeroed
    arrays. *)
Lemma built_index_shape (chunk_size : nat)
    (t : JoinHashTableItems) (p : HashTableProbeState) (ptr : nat) :
  let cols := prepare_columns (join_keys t) (ti_key_columns t) in
  let included := row_included cols.2 in
  let bucket := fun r => bucket_of_bytes (key_bytes cols.1 r) (bucket_size t) in
  let r :=
    construct_hash_table max_serialized_size allocate key_bytes bucket_of_bytes
      chunk_size (prepare chunk_size t p).1 (prepare chunk_size t p).2 in
  0 < chunk_size →
  allocate (serialize_size max_serialized_size cols.1) = Some ptr →
  first t = replicate (bucket_size t) 0 →
  ti_next t = replicate (row_count t + 1) 0 →
  r.1.1 = OK
  ∧ row_count r.1.2 = row_count t
  ∧ length (first r.1.2) = bucket_size t
  ∧ length (ti_next r.1.2) = row_count t + 1
  ∧ (∀ b, first r.1.2 !!! b ≤ row_count t)
  ∧ (∀ x, 1 ≤ x → ti_next r.1.2 !!! x < x)
  ∧ (∀ b, b < bucket_size t →
       bucket_chain r.1.2 b
       = reverse (rows_of_bucket included bucket (row_count t) b)).
Proof.
  intros cols included bucket r Hcs Halloc Hfirst Hnext. subst r.
  destruct (prepare_construct_links max_serialized_size allocate key_bytes
              bucket_of_bytes chunk_size t p ptr Hcs Halloc)
    as (t' & p' & Hrun & Hrc & Hbs & Hlink).
  rewrite Hrun. cbn [fst snd].
  fold cols in Hlink. fold included in Hlink. fold bucket in Hlink.
  destruct (link_rows_chains included bucket (bucket_size t) (row_count t)
              (row_count t)) as (Hlf & Hln & Hle & Hdec & Hchain); [lia|].
  cbn zeta in *. rewrite <- Hfirst, <- Hnext, <- Hlink in *.
  cbn [fst snd] in *.
  repeat (split; [first [reflexivity|assumption]|]).
  intros b Hb. unfold bucket_chain. rewrite Hrc. by apply Hchain.
Qed.

(** Chain walks over a built index terminate: every cursor stored in
    [first] or [next] is a row number at most [row_count], each [next]
    entry is smaller than its row, so a walk from a cursor visits at
    most that many rows, all distinct, and extra fuel changes nothing. *)
Theorem built_chain_walks_terminate (chunk_size : nat)
    (t : JoinHashTableItems) (p : HashTableProbeState) (ptr : nat)
    (Hcs : 0 < chunk_size)
    (Halloc :
       allocate (serialize_size max_serialized_size
                   (prepare_columns (join_keys t) (ti_key_columns t)).1)
       = Some ptr)
    (Hfirst : first t = replicate (bucket_size t) 0)
    (Hnext : ti_next t = replicate (row_count t + 1) 0) :
  let t' :=
    (construct_hash_table max_serialized_size allocate key_bytes
       bucket_of_bytes chunk_size (prepare chunk_size t p).1
       (prepare chunk_size t p).2).1.2 in
  (∀ b, first t' !!! b ≤ row_count t')
  ∧ (∀ r, 1 ≤ r → ti_next t' !!! r < r)
  ∧ (∀ cursor fuel, cursor ≤ fuel →
       chain fuel (ti_next t') cursor = chain cursor (ti_next t') cursor)
  ∧ (∀ cursor fuel,
       length (chain fuel (ti_next t') cursor) ≤ cursor
       ∧ NoDup (chain fuel (ti_next t') cursor)
       ∧ ∀ r, r ∈ chain fuel (ti_next t') cursor → 1 ≤ r ≤ cursor).
Proof.
  intros t'. subst t'.
  destruct (built_index_shape chunk_size t p ptr Hcs Halloc Hfirst Hnext)
    as (_ & Hrc & _ & _ & Hle & Hdec & _).
  rewrite Hrc. split; [exact Hle|]. split; [exact Hdec|]. split.
  - intros cursor fuel Hf. apply chain_fuel_irrelevant; [exact Hdec|lia|lia].
  - intros cursor fuel. split; [by apply chain_length|].
    split; [by apply chain_NoDup|]. intros r. by apply chain_elem_bounds.
Qed.

(** The chains of a built index are disjoint lists of real rows: no row
    occurs twice in a chain, none occurs in the chains of two buckets,
    and every chain entry is a row number from 1 to [row_count]. *)
Theorem built_chains_disjoint (chunk_size : nat)
    (t : JoinHashTableItems) (p : HashTableProbeState) (ptr : nat)
    (Hcs : 0 < chunk_size)
    (Halloc :
       allocate (serialize_size max_serialized_size
                   (prepare_columns (join_keys t) (ti_key_columns t)).1)
       = Some ptr)
    (Hfirst : first t = replicate (bucket_size t) 0)
    (Hnext : ti_next t = replicate (row_count t + 1) 0) :
  let t' :=
    (construct_hash_table max_serialized_size allocate key_bytes
       bucket_of_bytes chunk_size (prepare chunk_size t p).1
       (prepare chunk_size t p).2).1.2 in
  (∀ b, NoDup (bucket_chain t' b))
  ∧ (∀ b r, r ∈ bucket_chain t' b → 1 ≤ r ≤ row_count t')
  ∧ (∀ b1 b2 r, r ∈ bucket_chain t' b1 → r ∈ bucket_chain t' b2 → b1 = b2).
Proof.
  intros t'. subst t'.
  destruct (built_index_shape chunk_size t p ptr Hcs Halloc Hfirst Hnext)
    as (_ & Hrc & Hlf & _ & Hle & Hdec & Hchain).
  set (t' := (construct_hash_table _ _ _ _ _ _ _).1.2) in *.
  assert (∀ b, bucket_size t ≤ b → bucket_chain t' b = []) as Hout.
  { intros b Hb. unfold bucket_chain.
    rewrite list_lookup_total_alt, lookup_ge_None_2 by lia. apply chain_0. }
  assert (∀ b r, r ∈ bucket_chain t' b →
            b < bucket_size t
            ∧ bucket_of_bytes
                (key_bytes (prepare_columns (join_keys t) (ti_key_columns t)).1 r)
                (bucket_size t) = b) as Hin.
  { intros b r Hr. destruct (decide (b < bucket_size t)) as [Hb|Hb].
    - split; [exact Hb|]. rewrite Hchain in Hr by exact Hb.
      apply elem_of_reverse, list_elem_of_filter in Hr as [[_ Hbk] _].
      exact Hbk.
    - rewrite Hout in Hr by lia. by apply elem_of_nil in Hr. }
  split; [intros b; by apply chain_NoDup|]. split.
  - intros b r Hr. unfold bucket_chain in Hr.
    apply (chain_elem_bounds _ Hdec) in Hr. specialize (Hle b). lia.
  - intros b1 b2 r H1 H2. apply Hin in H1 as [_ <-]. by apply Hin in H2 as [_ <-].
Qed.

End SerializedShapeFacts.

(** ** What the build and the probe set-up leave alone *)

Lemma for_loop_preserves {S : Type} (P : S → Prop) (body : nat → S → S)
    (n : nat) (s : S) :
  P s → (∀ i acc, P acc → P (body i acc)) → P (for_loop n body s).
Proof.
  intros Hs Hbody. apply (for_loop_ind (fun _ acc => P acc)); [exact Hs|].
  intros i acc _. apply Hbody.
Qed.

Lemma reindexed_self (t : JoinHashTableItems) :
  t = reindexed t (first t) (ti_next t) (build_slice t).
Proof. by destruct t. Qed.

Lemma rescratched_self (p : HashTableProbeState) :
  p = rescratched p (ps_next p) (buckets p) (is_nulls p) (probe_slice p).
Proof. by destruct p. Qed.

Section SerializedFrameFacts.

Variable max_serialized_size : Column → nat.
Variable allocate : nat → option nat.
Variable key_bytes : list Column → nat → list Byte.byte.
Variable bucket_of_bytes : list Byte.byte → nat → nat.

Lemma build_key_frame t p dc start i ctx :
  build_frame t p ctx →
  build_frame t p (build_key key_bytes bucket_of_bytes dc start i ctx).
Proof.
  destruct ctx as [[t1 p1] ptr1]. intros [Ht Hp]. cbn [fst snd] in *.
  unfold build_frame, build_key. cbn [fst snd]. split.
  - rewrite Ht at 1. reflexivity.
  - rewrite Hp at 1. reflexivity.
Qed.

Lemma link_row_frame t p start i ctx :
  build_frame t p ctx → build_frame t p (link_row start i ctx).
Proof.
  destruct ctx as [[t1 p1] ptr1]. intros [Ht Hp]. cbn [fst snd] in *.
  unfold build_frame, link_row. cbn [fst snd]. split.
  - rewrite Ht at 1. reflexivity.
  - exact Hp.
Qed.

Lemma build_columns_frame t p dc start count ctx :
  build_frame t p ctx →
  build_frame t p (_build_columns key_bytes bucket_of_bytes dc start count ctx).
Proof.
  intros H. unfold _build_columns.
  apply for_loop_preserves; [|intros; by apply link_row_frame].
  apply for_loop_preserves; [exact H|intros; by apply build_key_frame].
Qed.

Lemma build_nullable_columns_frame t p dc ncs start count ctx :
  build_frame t p ctx →
  build_frame t p
    (_build_nullable_columns key_bytes bucket_of_bytes dc ncs start count ctx).
Proof.
  destruct ctx as [[t1 p1] ptr1]. intros [Ht Hp]. cbn [fst snd] in *.
  unfold _build_nullable_columns. cbv beta iota zeta.
  apply for_loop_preserves.
  - apply for_loop_preserves.
    + split; cbn [fst snd]; [exact Ht|]. rewrite Hp at 1. reflexivity.
    + intros i acc Hacc. destruct (_ =? _)%N; [|exact Hacc].
      by apply build_key_frame.
  - intros i acc Hacc. destruct (_ =? _)%N; [|exact Hacc].
    by apply link_row_frame.
Qed.

Lemma construct_hash_table_writes (chunk_size : nat)
    (t : JoinHashTableItems) (p : HashTableProbeState) :
  let r :=
    construct_hash_table max_serialized_size allocate key_bytes
      bucket_of_bytes chunk_size t p in
  let arena :=
    allocate (serialize_size max_serialized_size
                (prepare_columns (join_keys t) (ti_key_columns t)).1) in
  r.1.2 = reindexed t (first r.1.2) (ti_next r.1.2) (build_slice r.1.2)
  ∧ r.2 = rescratched p (ps_next p) (buckets r.2) (is_nulls r.2) (probe_slice p)
  ∧ (r.1.1 = OK ↔ is_Some arena)
  ∧ (arena = None → r = (MemoryAllocFailed, t, p)).
Proof.
  intros r arena. subst r arena. unfold construct_hash_table.
  destruct (prepare_columns (join_keys t) (ti_key_columns t)) as [dc ncs].
  cbn [fst snd].
  destruct (allocate (serialize_size max_serialized_size dc)) as [ptr|].
  - cbv zeta.
    assert (build_frame t p (t, p, ptr)) as H0
      by (split; [apply reindexed_self|apply rescratched_self]).
    set (quo := row_count t / chunk_size).
    set (rem := row_count t mod chunk_size).
    destruct ncs as [|nc0 rest].
    + match goal with
      | |- context [for_loop quo ?body (t, p, ptr)] =>
          set (ctx1 := for_loop quo body (t, p, ptr))
      end.
      assert (build_frame t p ctx1) as H1.
      { apply for_loop_preserves; [exact H0|].
        intros i acc Hacc. by apply build_columns_frame. }
      pose proof (build_columns_frame t p dc (1 + chunk_size * quo) rem ctx1 H1)
        as Hfr.
      destruct (_build_columns key_bytes bucket_of_bytes dc
                  (1 + chunk_size * quo) rem ctx1) as [[t' p'] ptr'].
      destruct Hfr as [Ht Hp]. cbn [fst snd] in *.
      split; [exact Ht|]. split; [exact Hp|]. split; [|discriminate].
      split; [intros _; by eexists|reflexivity].
    + match goal with
      | |- context [for_loop quo ?body (t, p, ptr)] =>
          set (ctx1 := for_loop quo body (t, p, ptr))
      end.
      assert (build_frame t p ctx1) as H1.
      { apply for_loop_preserves; [exact H0|].
        intros i acc Hacc. by apply build_nullable_columns_frame. }
      pose proof (build_nullable_columns_frame t p dc (nc0 :: rest)
                    (1 + chunk_size * quo) rem ctx1 H1) as Hfr.
      destruct (_build_nullable_columns key_bytes bucket_of_bytes dc
                  (nc0 :: rest) (1 + chunk_size * quo) rem ctx1)
        as [[t' p'] ptr'].
      destruct Hfr as [Ht Hp]. cbn [fst snd] in *.
      split; [exact Ht|]. split; [exact Hp|]. split; [|discriminate].
      split; [intros _; by eexists|reflexivity].
  - cbn [fst snd]. split; [apply reindexed_self|].
    split; [apply rescratched_self|]. split; [|reflexivity].
    split; [discriminate|]. intros [x Hx]. discriminate Hx.
Qed.


End SerializedFrameFacts.


(** ** [lookup_init]: the initial cursors *)

Section LookupInitFacts.

Variable max_serialized_size : Column → nat.
Variable allocate : nat → option nat.
Variable key_bytes : list Column → nat → list Byte.byte.
Variable bucket_of_bytes : list Byte.byte → nat → nat.

(** What the cursor of probe row [i] should be: the head of the chain of
    the bucket its key bytes hash to. *)
Local Abbreviation head_for t dc i :=
  (first t !!! bucket_of_bytes (key_bytes dc i) (bucket_size t)).

Lemma probe_column_spec (t : JoinHashTableItems) (dc : list Column)
    (p : HashTableProbeState) (ptr : nat) :
  let ctx := _probe_column key_bytes bucket_of_bytes t dc (p, ptr) in
  probe_shape p ctx
  ∧ is_nulls ctx.1 = is_nulls p
  ∧ (probe_row_count p ≤ length (ps_next p) →
     probe_row_count p ≤ length (buckets p) →
     probe_row_count p ≤ length (probe_slice p) →
     ∀ i, i < probe_row_count p → ps_next ctx.1 !!! i = head_for t dc i).
Proof.
  unfold _probe_column. cbn [fst]. set (rc := probe_row_count p).
  match goal with
  | |- context [for_loop rc ?b2 (for_loop rc ?b1 ?s)] =>
      set (body2 := b2); set (body1 := b1)
  end.
  assert (let ctx := for_loop rc body1 (p, ptr) in
          probe_frame p ctx ∧ ps_next ctx.1 = ps_next p
          ∧ is_nulls ctx.1 = is_nulls p
          ∧ length (buckets ctx.1) = length (buckets p)
          ∧ length (probe_slice ctx.1) = length (probe_slice p)
          ∧ (rc ≤ length (buckets p) → rc ≤ length (probe_slice p) →
             ∀ i, i < rc →
               buckets ctx.1 !!! i
               = bucket_of_bytes (key_bytes dc i) (bucket_size t)))
    as (F1 & X1 & N1 & B1 & S1 & V1).
  { cbn zeta.
    apply (for_loop_ind
             (fun n (ctx : ProbeCtx) =>
                probe_frame p ctx ∧ ps_next ctx.1 = ps_next p
                ∧ is_nulls ctx.1 = is_nulls p
                ∧ length (buckets ctx.1) = length (buckets p)
                ∧ length (probe_slice ctx.1) = length (probe_slice p)
                ∧ (rc ≤ length (buckets p) → rc ≤ length (probe_slice p) →
                   ∀ i, i < n →
                     buckets ctx.1 !!! i
                     = bucket_of_bytes (key_bytes dc i) (bucket_size t)))).
    - split; [apply rescratched_self|]. repeat (split; [reflexivity|]).
      intros _ _ i Hi. lia.
    - intros n [p1 ptr1] Hn (F & X & N & B & S & V). unfold body1.
      unfold probe_frame in *.
      cbn [fst probe_key probe_bucket set_probe_slice set_buckets ps_next
           buckets probe_slice is_nulls] in *.
      split; [rewrite F at 1; reflexivity|]. split; [exact X|].
      split; [exact N|].
      split; [by rewrite length_insert|]. split; [by rewrite length_insert|].
      intros Hb Hs i Hi. destruct (decide (i = n)) as [->|Hne].
      + rewrite list_lookup_total_insert_eq by lia.
        rewrite list_lookup_total_insert_eq by lia. reflexivity.
      + rewrite list_lookup_total_insert_ne by lia. apply V; [exact Hb|exact Hs|lia]. }
  cbn zeta in *. set (ctx1 := for_loop rc body1 (p, ptr)) in *.
  assert (let ctx := for_loop rc body2 ctx1 in
          probe_frame p ctx ∧ buckets ctx.1 = buckets ctx1.1
          ∧ probe_slice ctx.1 = probe_slice ctx1.1
          ∧ is_nulls ctx.1 = is_nulls p
          ∧ length (ps_next ctx.1) = length (ps_next p)
          ∧ (∀ i, rc ≤ i → ps_next ctx.1 !! i = ps_next p !! i)
          ∧ (rc ≤ length (ps_next p) →
             ∀ i, i < rc →
               ps_next ctx.1 !!! i = first t !!! (buckets ctx1.1 !!! i)))
    as (F2 & B2 & S2 & N2 & X2 & R2 & V2).
  { cbn zeta.
    apply (for_loop_ind
             (fun n (ctx : ProbeCtx) =>
                n ≤ rc →
                probe_frame p ctx ∧ buckets ctx.1 = buckets ctx1.1
                ∧ probe_slice ctx.1 = probe_slice ctx1.1
                ∧ is_nulls ctx.1 = is_nulls p
                ∧ length (ps_next ctx.1) = length (ps_next p)
                ∧ (∀ i, rc ≤ i → ps_next ctx.1 !! i = ps_next p !! i)
                ∧ (rc ≤ length (ps_next p) →
                   ∀ i, i < n →
                     ps_next ctx.1 !!! i = first t !!! (buckets ctx1.1 !!! i))));
      [| |lia].
    - intros _. split; [exact F1|]. repeat (split; [first [reflexivity|assumption]|]).
      split; [by rewrite X1|]. split; [intros i _; by rewrite X1|].
      intros _ i Hi. lia.
    - intros n [p1 ptr1] Hn IH Hle.
      destruct IH as (F & B & S & N & X & R & V); [lia|]. unfold body2.
      unfold probe_frame in *.
      cbn [fst set_ps_next ps_next buckets probe_slice is_nulls] in *.
      split; [rewrite F at 1; reflexivity|].
      split; [exact B|]. split; [exact S|]. split; [exact N|].
      split; [by rewrite length_insert|]. split.
      + intros i Hi. rewrite list_lookup_insert_ne by lia. by apply R.
      + intros Hx i Hi. destruct (decide (i = n)) as [->|Hne].
        * rewrite list_lookup_total_insert_eq by lia. by rewrite B.
        * rewrite list_lookup_total_insert_ne by lia. apply V; [exact Hx|lia]. }
  cbn zeta in *. split.
  - split; [exact F2|]. split; [exact X2|]. split; [by rewrite B2|].
    split; [by rewrite S2|]. exact R2.
  - split; [exact N2|]. intros Hx Hb Hs i Hi.
    rewrite V2 by assumption. by rewrite V1.
Qed.

Lemma probe_nullable_column_spec (t : JoinHashTableItems) (dc : list Column)
    (nc0 : NullColumn) (rest : list NullColumn)
    (p : HashTableProbeState) (ptr : nat) :
  let ctx := _probe_nullable_column key_bytes bucket_of_bytes t dc
               (nc0 :: rest) (p, ptr) in
  probe_shape p ctx
  ∧ (probe_row_count p ≤ length (is_nulls p) →
     probe_row_count p ≤ length (ps_next p) →
     probe_row_count p ≤ length (buckets p) →
     probe_row_count p ≤ length (probe_slice p) →
     ∀ i, i < probe_row_count p → row_included (nc0 :: rest) i = true →
          ps_next ctx.1 !!! i = head_for t dc i).
Proof.
  unfold _probe_nullable_column. cbv beta iota zeta.
  set (rc := probe_row_count p).
  set (nulls := fill_is_nulls (nc0 :: rest) 0 rc (is_nulls p)).
  match goal with
  | |- context [for_loop rc ?b2 (for_loop rc ?b1 ?s)] =>
      set (body2 := b2); set (body1 := b1)
  end.
  assert (let ctx := for_loop rc body1 (set_is_nulls p nulls, ptr) in
          probe_frame p ctx ∧ ps_next ctx.1 = ps_next p
          ∧ is_nulls ctx.1 = nulls ∧ buckets ctx.1 = buckets p
          ∧ length (probe_slice ctx.1) = length (probe_slice p)
          ∧ (rc ≤ length (probe_slice p) →
             ∀ i, i < rc → (nulls !!! i =? 0)%N = true →
               slice_bytes (probe_slice ctx.1 !!! i) = key_bytes dc i))
    as (F1 & X1 & N1 & B1 & S1 & V1).
  { cbn zeta.
    apply (for_loop_ind
             (fun n (ctx : ProbeCtx) =>
                probe_frame p ctx ∧ ps_next ctx.1 = ps_next p
                ∧ is_nulls ctx.1 = nulls ∧ buckets ctx.1 = buckets p
                ∧ length (probe_slice ctx.1) = length (probe_slice p)
                ∧ (rc ≤ length (probe_slice p) →
                   ∀ i, i < n → (nulls !!! i =? 0)%N = true →
                     slice_bytes (probe_slice ctx.1 !!! i) = key_bytes dc i))).
    - split; [unfold probe_frame; cbn [fst]; by destruct p|].
      repeat (split; [reflexivity|]). intros _ i Hi. lia.
    - intros n [p1 ptr1] Hn (F & X & N & B & S & V). unfold body1.
      unfold probe_frame in *. cbn [fst] in *. rewrite N.
      destruct (nulls !!! n =? 0)%N eqn:E;
        cbn [fst probe_key set_probe_slice ps_next buckets probe_slice
             is_nulls].
      + split; [rewrite F at 1; reflexivity|]. split; [exact X|].
        split; [exact N|]. split; [exact B|].
        split; [by rewrite length_insert|].
        intros Hs i Hi Hz. destruct (decide (i = n)) as [->|Hne].
        * rewrite list_lookup_total_insert_eq by lia. reflexivity.
        * rewrite list_lookup_total_insert_ne by lia. apply V; [exact Hs|lia|exact Hz].
      + repeat (split; [assumption|]).
        intros Hs i Hi Hz. destruct (decide (i = n)) as [->|Hne]; [congruence|].
        apply V; [exact Hs|lia|exact Hz]. }
  cbn zeta in *. set (ctx1 := for_loop rc body1 (set_is_nulls p nulls, ptr)) in *.
  assert (let ctx := for_loop rc body2 ctx1 in
          probe_frame p ctx
          ∧ probe_slice ctx.1 = probe_slice ctx1.1
          ∧ is_nulls ctx.1 = nulls
          ∧ length (ps_next ctx.1) = length (ps_next p)
          ∧ length (buckets ctx.1) = length (buckets p)
          ∧ (∀ i, rc ≤ i → ps_next ctx.1 !! i = ps_next p !! i)
          ∧ (rc ≤ length (ps_next p) → rc ≤ length (buckets p) →
             ∀ i, i < rc → (nulls !!! i =? 0)%N = true →
               ps_next ctx.1 !!! i
               = first t !!! bucket_of_bytes
                               (slice_bytes (probe_slice ctx1.1 !!! i))
                               (bucket_size t)))
    as (F2 & S2 & N2 & X2 & B2 & R2 & V2).
  { cbn zeta.
    apply (for_loop_ind
             (fun n (ctx : ProbeCtx) =>
                n ≤ rc →
                probe_frame p ctx
                ∧ probe_slice ctx.1 = probe_slice ctx1.1
                ∧ is_nulls ctx.1 = nulls
                ∧ length (ps_next ctx.1) = length (ps_next p)
                ∧ length (buckets ctx.1) = length (buckets p)
                ∧ (∀ i, rc ≤ i → ps_next ctx.1 !! i = ps_next p !! i)
                ∧ (rc ≤ length (ps_next p) → rc ≤ length (buckets p) →
                   ∀ i, i < n → (nulls !!! i =? 0)%N = true →
                     ps_next ctx.1 !!! i
                     = first t !!! bucket_of_bytes
                                     (slice_bytes (probe_slice ctx1.1 !!! i))
                                     (bucket_size t)))); [| |lia].
    - intros _. split; [exact F1|]. split; [reflexivity|]. split; [exact N1|].
      split; [by rewrite X1|]. split; [by rewrite B1|].
      split; [intros i _; by rewrite X1|]. intros _ _ i Hi. lia.
    - intros n [p1 ptr1] Hn IH Hle.
      destruct IH as (F & S & N & X & B & R & V); [lia|]. unfold body2.
      unfold probe_frame in *. cbn [fst] in *. rewrite N.
      destruct (nulls !!! n =? 0)%N eqn:E;
        cbn [fst probe_bucket set_buckets set_ps_next ps_next buckets
             probe_slice is_nulls].
      + split; [rewrite F at 1; reflexivity|]. split; [exact S|].
        split; [exact N|]. split; [by rewrite length_insert|].
        split; [by rewrite length_insert|]. split.
        * intros i Hi. rewrite list_lookup_insert_ne by lia. by apply R.
        * intros Hx Hb i Hi Hz. destruct (decide (i = n)) as [->|Hne].
          -- rewrite list_lookup_total_insert_eq by lia.
             rewrite list_lookup_total_insert_eq by lia.
             unfold calc_bucket_num. by rewrite S.
          -- rewrite list_lookup_total_insert_ne by lia.
             apply V; [exact Hx|exact Hb|lia|exact Hz].
      + split; [rewrite F at 1; reflexivity|]. split; [exact S|].
        split; [exact N|]. split; [by rewrite length_insert|].
        split; [exact B|]. split.
        * intros i Hi. rewrite list_lookup_insert_ne by lia. by apply R.
        * intros Hx Hb i Hi Hz. destruct (decide (i = n)) as [->|Hne];
            [congruence|].
          rewrite list_lookup_total_insert_ne by lia.
          apply V; [exact Hx|exact Hb|lia|exact Hz]. }
  cbn zeta in *. split.
  - split; [exact F2|]. split; [exact X2|]. split; [exact B2|].
    split; [by rewrite S2|]. exact R2.
  - intros Hn Hx Hb Hs i Hi Hinc.
    destruct (fill_is_nulls_spec nc0 rest 0 rc (is_nulls p) Hn) as (_ & Hfv).
    cbn zeta in Hfv. fold nulls in Hfv.
    assert ((nulls !!! i =? 0)%N = true) as Hz
      by (rewrite Hfv by exact Hi; exact Hinc).
    rewrite V2 by assumption. by rewrite V1.
Qed.

End LookupInitFacts.

Section LookupInitTheorems.

Variable max_serialized_size : Column → nat.
Variable allocate : nat → option nat.
Variable key_bytes : list Column → nat → list Byte.byte.
Variable bucket_of_bytes : list Byte.byte → nat → nat.

Lemma lookup_init_spec (t : JoinHashTableItems) (p : HashTableProbeState) :
  let cols := prepare_columns (join_keys t) (ps_key_columns p) in
  let r := lookup_init max_serialized_size allocate key_bytes
             bucket_of_bytes t p in
  match allocate (serialize_size max_serialized_size cols.1) with
  | None => r = (MemoryAllocFailed, p)
  | Some ptr =>
      r.1 = OK ∧ probe_shape p (r.2, ptr)
      ∧ (probe_row_count p ≤ length (is_nulls p) →
         probe_row_count p ≤ length (ps_next p) →
         probe_row_count p ≤ length (buckets p) →
         probe_row_count p ≤ length (probe_slice p) →
         ∀ i, i < probe_row_count p → row_included cols.2 i = true →
              ps_next r.2 !!! i
              = first t !!! bucket_of_bytes (key_bytes cols.1 i) (bucket_size t))
  end.
Proof.
  intros cols r. subst r cols. unfold lookup_init.
  destruct (prepare_columns (join_keys t) (ps_key_columns p)) as [dc ncs].
  cbn [fst snd].
  destruct (allocate (serialize_size max_serialized_size dc)) as [ptr|];
    [|reflexivity].
  destruct ncs as [|nc0 rest]; cbn [fst snd].
  - destruct (probe_column_spec key_bytes bucket_of_bytes t dc p ptr)
      as (Hshape & _ & Hcur). cbn zeta in *.
    split; [reflexivity|]. split; [exact Hshape|].
    intros _ Hx Hb Hs i Hi _. by apply Hcur.
  - destruct (probe_nullable_column_spec key_bytes bucket_of_bytes t dc nc0
                rest p ptr) as (Hshape & Hcur). cbn zeta in *.
    split; [reflexivity|]. split; [exact Hshape|]. exact Hcur.
Qed.

Lemma lookup_init_bucket_heads
    (t : JoinHashTableItems) (p : HashTableProbeState) (ptr : nat)
    (Halloc :
       allocate (serialize_size max_serialized_size
                   (prepare_columns (join_keys t) (ps_key_columns p)).1)
       = Some ptr)
    (Hn : probe_row_count p ≤ length (is_nulls p))
    (Hx : probe_row_count p ≤ length (ps_next p))
    (Hb : probe_row_count p ≤ length (buckets p))
    (Hs : probe_row_count p ≤ length (probe_slice p)) :
  let cols := prepare_columns (join_keys t) (ps_key_columns p) in
  let r := lookup_init max_serialized_size allocate key_bytes
             bucket_of_bytes t p in
  r.1 = OK
  ∧ ∀ i, i < probe_row_count p → row_included cols.2 i = true →
         ps_next r.2 !!! i
         = first t !!! bucket_of_bytes (key_bytes cols.1 i) (bucket_size t).
Proof.
  intros cols r. pose proof (lookup_init_spec t p) as H. cbn zeta in H.
  rewrite Halloc in H. destruct H as (Hok & _ & Hcur).
  split; [exact Hok|]. by apply Hcur.
Qed.

(** [lookup_init] starts every probe row that has no NULL in a key that
    is not null-safe at the head of the chain of the bucket its
    serialized key hashes to. *)
Theorem lookup_init_cursor_is_bucket_head
    (t : JoinHashTableItems) (p : HashTableProbeState) (ptr : nat)
    (Halloc :
       allocate (serialize_size max_serialized_size
                   (prepare_columns (join_keys t) (ps_key_columns p)).1)
       = Some ptr)
    (Hn : probe_row_count p ≤ length (is_nulls p))
    (Hx : probe_row_count p ≤ length (ps_next p))
    (Hb : probe_row_count p ≤ length (buckets p))
    (Hs : probe_row_count p ≤ length (probe_slice p)) :
  let cols := prepare_columns (join_keys t) (ps_key_columns p) in
  let r := lookup_init max_serialized_size allocate key_bytes
             bucket_of_bytes t p in
  r.1 = OK
  ∧ ∀ i, i < probe_row_count p → row_included cols.2 i = true →
         ps_next r.2 !!! i
         = first t !!! bucket_of_bytes (key_bytes cols.1 i) (bucket_size t).
Proof.
  exact (lookup_init_bucket_heads t p ptr Halloc Hn Hx Hb Hs).
Qed.





End LookupInitTheorems.

Lemma lookup_init_cursor_is_bucket_head_witness :
  let t := _table_items (example_build 2 (example_table RIGHT_OUTER_JOIN)).2 in
  let r := lookup_init example_max_serialized_size example_allocate
             example_key_bytes example_bucket_of_bytes t example_probe_batch in
  r.1 = OK ∧ ps_next r.2 !!! 0 = 1 ∧ ps_next r.2 !!! 2 = 1.
Proof.
  intros t r.
  destruct (lookup_init_cursor_is_bucket_head example_max_serialized_size
              example_allocate example_key_bytes example_bucket_of_bytes
              t example_probe_batch 0) as [Hok Hcur];
    try reflexivity; try (vm_compute; lia).
  split; [exact Hok|]. split.
  - rewrite Hcur; [reflexivity|vm_compute; lia|reflexivity].
  - rewrite Hcur; [reflexivity|vm_compute; lia|reflexivity].
Defined.

(** ** Build, then probe: an equal key is found *)

Section RoundTrip.

Variable max_serialized_size : Column → nat.
Variable allocate : nat → option nat.
Variable key_bytes : list Column → nat → list Byte.byte.
Variable bucket_of_bytes : list Byte.byte → nat → nat.

(** After the opaque-bytes build, [lookup_init] puts a probe row whose
    serialized key equals that of an indexed build row [r] on a chain
    that contains [r]: the index has no false negatives. *)
Theorem build_then_probe_finds_equal_key (chunk_size : nat)
    (t : JoinHashTableItems) (p : HashTableProbeState) (ptr : nat)
    (pp : HashTableProbeState) (ptr' r i : nat)
    (Hcs : 0 < chunk_size)
    (Halloc :
       allocate (serialize_size max_serialized_size
                   (prepare_columns (join_keys t) (ti_key_columns t)).1)
       = Some ptr)
    (Hfirst : first t = replicate (bucket_size t) 0)
    (Hnext : ti_next t = replicate (row_count t + 1) 0)
    (Halloc' :
       allocate (serialize_size max_serialized_size
                   (prepare_columns (join_keys t) (ps_key_columns pp)).1)
       = Some ptr')
    (Hn : probe_row_count pp ≤ length (is_nulls pp))
    (Hx : probe_row_count pp ≤ length (ps_next pp))
    (Hb : probe_row_count pp ≤ length (buckets pp))
    (Hs : probe_row_count pp ≤ length (probe_slice pp))
    (Hr : 1 ≤ r ≤ row_count t)
    (Hrinc :
       row_included (prepare_columns (join_keys t) (ti_key_columns t)).2 r
       = true)
    (Hi : i < probe_row_count pp)
    (Hiinc :
       row_included (prepare_columns (join_keys t) (ps_key_columns pp)).2 i
       = true)
    (Hkey :
       key_bytes (prepare_columns (join_keys t) (ps_key_columns pp)).1 i
       = key_bytes (prepare_columns (join_keys t) (ti_key_columns t)).1 r)
    (Hrange :
       bucket_of_bytes
         (key_bytes (prepare_columns (join_keys t) (ti_key_columns t)).1 r)
         (bucket_size t) < bucket_size t) :
  let built :=
    construct_hash_table max_serialized_size allocate key_bytes
      bucket_of_bytes chunk_size (prepare chunk_size t p).1
      (prepare chunk_size t p).2 in
  let probed :=
    lookup_init max_serialized_size allocate key_bytes bucket_of_bytes
      built.1.2 pp in
  built.1.1 = OK ∧ probed.1 = OK
  ∧ r ∈ chain (row_count built.1.2) (ti_next built.1.2) (ps_next probed.2 !!! i).
Proof.
  intros built probed.
  destruct (built_index_shape max_serialized_size allocate key_bytes
              bucket_of_bytes chunk_size t p ptr Hcs Halloc Hfirst Hnext)
    as (Hok & Hrc & _ & _ & _ & _ & Hchain).
  fold built in Hok, Hrc, Hchain.
  destruct (construct_hash_table_writes max_serialized_size allocate key_bytes
              bucket_of_bytes chunk_size (prepare chunk_size t p).1
              (prepare chunk_size t p).2) as (Hframe & _).
  fold built in Hframe.
  assert (join_keys built.1.2 = join_keys t) as Hjk
    by (rewrite Hframe; reflexivity).
  assert (bucket_size built.1.2 = bucket_size t) as Hbs
    by (rewrite Hframe; reflexivity).
  destruct (lookup_init_bucket_heads max_serialized_size allocate
              key_bytes bucket_of_bytes built.1.2 pp ptr') as [Hpok Hcur];
    try assumption; [by rewrite Hjk|].
  fold probed in Hpok, Hcur. rewrite Hjk, Hbs in Hcur.
  split; [exact Hok|]. split; [exact Hpok|].
  rewrite Hcur by assumption. rewrite Hkey.
  specialize (Hchain _ Hrange). unfold bucket_chain in Hchain.
  rewrite Hchain. apply elem_of_reverse, list_elem_of_filter.
  split; [by split|]. apply elem_of_seq. lia.
Qed.

End RoundTrip.

Lemma build_then_probe_finds_equal_key_witness :
  let t := _table_items example_allocated_table in
  let p := _probe_state example_allocated_table in
  let built :=
    construct_hash_table example_max_serialized_size example_allocate
      example_key_bytes example_bucket_of_bytes 2
      (prepare 2 t p).1 (prepare 2 t p).2 in
  let probed :=
    lookup_init example_max_serialized_size example_allocate example_key_bytes
      example_bucket_of_bytes built.1.2 example_probe_batch in
  built.1.1 = OK ∧ probed.1 = OK
  ∧ 1 ∈ chain (row_count built.1.2) (ti_next built.1.2) (ps_next probed.2 !!! 0).
Proof.
  apply (build_then_probe_finds_equal_key example_max_serialized_size
           example_allocate example_key_bytes example_bucket_of_bytes 2
           (_table_items example_allocated_table)
           (_probe_state example_allocated_table) 0 example_probe_batch 0 1 0);
    try reflexivity; vm_compute; lia.
Defined.

Lemma built_chain_walks_terminate_witness :
  let t := _table_items example_allocated_table in
  let p := _probe_state example_allocated_table in
  let t' :=
    (construct_hash_table example_max_serialized_size example_allocate
       example_key_bytes example_bucket_of_bytes 2
       (prepare 2 t p).1 (prepare 2 t p).2).1.2 in
  ti_next t' !!! 1 < 1 ∧ ti_next t' !!! 2 < 2
  ∧ chain 7 (ti_next t') 2 = chain 2 (ti_next t') 2.
Proof.
  intros t p t'.
  destruct (built_chain_walks_terminate example_max_serialized_size
              example_allocate example_key_bytes example_bucket_of_bytes 2
              t p 0) as (_ & Hdec & Hfuel & _); try reflexivity; [lia|].
  split; [apply Hdec; lia|]. split; [apply Hdec; lia|]. apply Hfuel. lia.
Defined.

Lemma built_chains_disjoint_witness :
  let t := _table_items example_allocated_table in
  let p := _probe_state example_allocated_table in
  let t' :=
    (construct_hash_table example_max_serialized_size example_allocate
       example_key_bytes example_bucket_of_bytes 2
       (prepare 2 t p).1 (prepare 2 t p).2).1.2 in
  NoDup (bucket_chain t' 0) ∧ NoDup (bucket_chain t' 1).
Proof.
  intros t p t'.
  destruct (built_chains_disjoint example_max_serialized_size
              example_allocate example_key_bytes example_bucket_of_bytes 2
              t p 0) as (Hnd & _); try reflexivity; [lia|].
  split; apply Hnd.
Defined.

(** ** The selector: layout families, stability, typed layouts *)

Lemma drop_null_safe_flags_lookup (keys : list JoinKeyDesc)
    (cols : list Column) (i : nat) :
  drop_null_safe_flags keys cols !! i
  = (fun k => match cols !! i with
              | Some c => if has_null c then k else mkJoinKeyDesc (type k) false
              | None => k
              end) <$> keys !! i.
Proof. unfold drop_null_safe_flags. by rewrite list_lookup_imap. Qed.

Lemma drop_null_safe_flags_length (keys : list JoinKeyDesc) (cols : list Column) :
  length (drop_null_safe_flags keys cols) = length keys.
Proof. unfold drop_null_safe_flags. by rewrite length_imap. Qed.

Lemma drop_null_safe_flags_idemp (keys : list JoinKeyDesc) (cols : list Column) :
  drop_null_safe_flags (drop_null_safe_flags keys cols) cols
  = drop_null_safe_flags keys cols.
Proof.
  apply list_eq. intros i. rewrite !drop_null_safe_flags_lookup.
  destruct (keys !! i) as [k|]; [|reflexivity]. simpl.
  destruct (cols !! i) as [c|]; [|reflexivity].
  destruct (has_null c); reflexivity.
Qed.

Lemma layout_of_total_packed (total : nat) :
  layout_of_total total ∈ [fixed32; fixed64; fixed128; slice].
Proof.
  unfold layout_of_total.
  destruct (total <=? 4); [repeat constructor|].
  destruct (total <=? 8); [repeat constructor|].
  destruct (total <=? 16); repeat constructor.
Qed.

(** The selector never leaves the layout undecided.  In terms of the
    keys as given: with no key or several keys it picks a packed layout
    or slice; with one key it picks the typed single-key layout, never
    a packed one, when the key is not null-safe or its build column
    holds no NULL, and a packed layout or slice when the key is
    null-safe and its build column holds a NULL.  In terms of the flags
    as the first loop leaves them: a packed layout is picked only on
    the path for several keys or a key still null-safe, and on that
    path nothing but a packed layout or slice. *)
Theorem choose_layout_families (sizeof_CppType : PrimitiveType → nat)
    (keys : list JoinKeyDesc) (cols : list Column) :
  let chosen := (_choose_join_hash_map sizeof_CppType keys cols).1 in
  let keys' := drop_null_safe_flags keys cols in
  chosen ≠ empty
  ∧ (packed_path keys' = true →
     chosen ∈ [fixed32; fixed64; fixed128; slice])
  ∧ (packed_path keys' = false →
     chosen ∉ [fixed32; fixed64; fixed128])
  ∧ (length keys ≠ 1 → chosen ∈ [fixed32; fixed64; fixed128; slice])
  ∧ (∀ k, keys = [k] → is_null_safe_equal k = false →
       chosen = single_key_layout (type k)
       ∧ chosen ∉ [fixed32; fixed64; fixed128])
  ∧ (∀ k c, keys = [k] → cols !! 0 = Some c → has_null c = false →
       chosen = single_key_layout (type k)
       ∧ chosen ∉ [fixed32; fixed64; fixed128])
  ∧ (∀ k c, keys = [k] → cols !! 0 = Some c →
       is_null_safe_equal k = true → has_null c = true →
       chosen ∈ [fixed32; fixed64; fixed128; slice]).
Proof.
  intros chosen keys'. subst chosen.
  assert (∀ t, single_key_layout t ∉ [empty; fixed32; fixed64; fixed128])
    as Hsingle.
  { intros t Hin. destruct t; simpl in Hin;
      repeat (apply elem_of_cons in Hin as [Hin|Hin]; [discriminate Hin|]);
      by apply elem_of_nil in Hin. }
  assert (∀ t, single_key_layout t ∉ [fixed32; fixed64; fixed128]) as Hsingle'.
  { intros t Hin. apply (Hsingle t). by right. }
  assert (∀ l, l ∈ [fixed32; fixed64; fixed128; slice] → l ≠ empty) as Hne.
  { intros l Hin ->.
    repeat (apply elem_of_cons in Hin as [Hin|Hin]; [discriminate Hin|]).
    by apply elem_of_nil in Hin. }
  assert (packed_path keys' = true →
          (_choose_join_hash_map sizeof_CppType keys cols).1
          ∈ [fixed32; fixed64; fixed128; slice]) as Hpacked.
  { intros Hpath. rewrite choose_on_packed_path by exact Hpath.
    destruct (sum_key_sizes _ _ _); [apply layout_of_total_packed|].
    repeat constructor. }
  assert (∀ k, keys' = [k] → is_null_safe_equal k = false →
          (_choose_join_hash_map sizeof_CppType keys cols).1
          = single_key_layout (type k)) as Htyped.
  { intros k Hk Hflag. unfold _choose_join_hash_map. fold keys'.
    rewrite Hk. cbn. rewrite Hflag. reflexivity. }
  split; [|split; [|split; [|split; [|split; [|split]]]]].
  - destruct (packed_path keys') eqn:Hpath; [by apply Hne, Hpacked|].
    unfold packed_path in Hpath. apply negb_false_iff in Hpath.
    unfold _choose_join_hash_map. fold keys'. rewrite Hpath. cbn [fst].
    intros Heq. apply (Hsingle (type (keys' !!! 0))). rewrite Heq. by left.
  - exact Hpacked.
  - intros Hpath. unfold packed_path in Hpath. apply negb_false_iff in Hpath.
    unfold _choose_join_hash_map. fold keys'. rewrite Hpath. cbn [fst].
    apply Hsingle'.
  - intros Hlen. apply Hpacked. unfold packed_path, keys'.
    rewrite drop_null_safe_flags_length.
    destruct (Nat.eqb_spec (length keys) 1) as [E|_]; [done|reflexivity].
  - intros k -> Hflag.
    assert ((_choose_join_hash_map sizeof_CppType [k] cols).1
            = single_key_layout (type k)) as E.
    { destruct (cols !! 0) as [c|] eqn:Hc.
      - destruct (has_null c) eqn:Hn.
        + apply (Htyped k); [|exact Hflag].
          unfold keys', drop_null_safe_flags. cbn. by rewrite Hc, Hn.
        + apply (Htyped (mkJoinKeyDesc (type k) false)); [|reflexivity].
          unfold keys', drop_null_safe_flags. cbn. by rewrite Hc, Hn.
      - apply (Htyped k); [|exact Hflag].
        unfold keys', drop_null_safe_flags. cbn. by rewrite Hc. }
    split; [exact E|]. rewrite E. apply Hsingle'.
  - intros k c -> Hc Hn.
    assert ((_choose_join_hash_map sizeof_CppType [k] cols).1
            = single_key_layout (type k)) as E.
    { apply (Htyped (mkJoinKeyDesc (type k) false)); [|reflexivity].
      unfold keys', drop_null_safe_flags. cbn. by rewrite Hc, Hn. }
    split; [exact E|]. rewrite E. apply Hsingle'.
  - intros k c -> Hc Hflag Hn. apply Hpacked.
    unfold keys', drop_null_safe_flags, packed_path. cbn.
    rewrite Hc, Hn. cbn. by rewrite Hflag.
Qed.

(** The selection is stable: run again on the keys it wrote back (and
    the same key columns), the selector returns the same layout and the
    same keys.  It never sets a null-safe flag, keeps the key types, and
    a key that stays null-safe has a key column holding a NULL. *)
Theorem choose_is_stable (sizeof_CppType : PrimitiveType → nat)
    (keys : list JoinKeyDesc) (cols : list Column) :
  let r := _choose_join_hash_map sizeof_CppType keys cols in
  _choose_join_hash_map sizeof_CppType r.2 cols = r
  ∧ length r.2 = length keys
  ∧ (∀ i k k', keys !! i = Some k → r.2 !! i = Some k' →
       type k' = type k
       ∧ (is_null_safe_equal k' = true → is_null_safe_equal k = true)
       ∧ (is_null_safe_equal k' = true →
          ∀ c, cols !! i = Some c → has_null c = true)).
Proof.
  intros r.
  assert (r.2 = drop_null_safe_flags keys cols) as Hkeys.
  { subst r. unfold _choose_join_hash_map.
    destruct (_ && _); [reflexivity|]. by destruct (sum_key_sizes _ _ _). }
  split; [|split].
  - rewrite Hkeys. subst r. unfold _choose_join_hash_map.
    by rewrite drop_null_safe_flags_idemp.
  - by rewrite Hkeys, drop_null_safe_flags_length.
  - intros i k k' Hk Hk'. rewrite Hkeys, drop_null_safe_flags_lookup, Hk in Hk'.
    simpl in Hk'. injection Hk' as <-.
    destruct (cols !! i) as [c|] eqn:Hc.
    + destruct (has_null c) eqn:Hn; simpl.
      * split; [reflexivity|]. split; [auto|]. intros _ c' Hc'. congruence.
      * split; [reflexivity|]. split; discriminate.
    + split; [reflexivity|]. split; [auto|]. intros _ c' Hc'. discriminate.
Qed.

(** For one key that is not null-safe the layout tells the key type
    apart: two such keys get the same layout only if their types are
    equal, or both are CHAR or VARCHAR, or neither has a typed layout
    (both fall back to slice). *)
Theorem single_key_layout_separates_types
    (sizeof_CppType : PrimitiveType → nat) (t1 t2 : PrimitiveType)
    (cols1 cols2 : list Column) :
  let choose ty cols :=
    (_choose_join_hash_map sizeof_CppType [mkJoinKeyDesc ty false] cols).1 in
  choose t1 cols1 = choose t2 cols2 →
  t1 = t2
  ∨ (t1 ∈ [TYPE_CHAR; TYPE_VARCHAR] ∧ t2 ∈ [TYPE_CHAR; TYPE_VARCHAR])
  ∨ (choose t1 cols1 = slice ∧ choose t2 cols2 = slice).
Proof.
  intros choose.
  assert (∀ ty cols, choose ty cols = single_key_layout ty) as Hc.
  { intros ty cols. subst choose. unfold _choose_join_hash_map.
    assert (drop_null_safe_flags [mkJoinKeyDesc ty false] cols
            = [mkJoinKeyDesc ty false]) as ->.
    { unfold drop_null_safe_flags. simpl.
      destruct (cols !! 0) as [c|]; [|reflexivity]. by destruct (has_null c). }
    reflexivity. }
  rewrite !Hc. intros Heq.
  destruct t1, t2; simpl in Heq; try discriminate Heq;
    first [ left; reflexivity
          | right; right; split; reflexivity
          | right; left; split; repeat constructor ].
Qed.

Lemma single_key_layout_separates_types_witness :
  (_choose_join_hash_map cpp_sizeof [mkJoinKeyDesc TYPE_CHAR false] []).1
  = (_choose_join_hash_map cpp_sizeof [mkJoinKeyDesc TYPE_VARCHAR false] []).1
  ∧ (TYPE_CHAR = TYPE_VARCHAR
     ∨ (TYPE_CHAR ∈ [TYPE_CHAR; TYPE_VARCHAR]
        ∧ TYPE_VARCHAR ∈ [TYPE_CHAR; TYPE_VARCHAR])
     ∨ ((_choose_join_hash_map cpp_sizeof [mkJoinKeyDesc TYPE_CHAR false] []).1
        = slice
        ∧ (_choose_join_hash_map cpp_sizeof
             [mkJoinKeyDesc TYPE_VARCHAR false] []).1 = slice)).
Proof.
  split; [reflexivity|].
  apply (single_key_layout_separates_types cpp_sizeof TYPE_CHAR TYPE_VARCHAR
           [] []).
  reflexivity.
Defined.

(** ** [build]: the match index of other join types, and the
    opaque-bytes layout end to end *)

(** For every join type other than RIGHT_OUTER, FULL_OUTER, RIGHT_SEMI
    and RIGHT_ANTI, [build] leaves [build_match_index] as it found it
    (the outside helpers not touching it). *)
Theorem build_keeps_build_match_index
    (sizeof_CppType : PrimitiveType → nat)
    (calc_bucket_size : nat → nat)
    (prepare_map_index : HashTableProbeState → nat → HashTableProbeState)
    (layout_build :
       JoinHashMapType → nat → JoinHashTableItems → HashTableProbeState →
       Status * JoinHashTableItems * HashTableProbeState)
    (chunk_size : nat) (ht : JoinHashTable)
    (Hprep : ∀ p n, build_match_index (prepare_map_index p n)
                    = build_match_index p)
    (Hlayout : ∀ tag n t p, build_match_index (layout_build tag n t p).2
                            = build_match_index p)
    (Hjt : join_type (_table_items ht)
           ∉ [RIGHT_OUTER_JOIN; FULL_OUTER_JOIN; RIGHT_SEMI_JOIN;
              RIGHT_ANTI_JOIN]) :
  build_match_index
    (_probe_state
       (build sizeof_CppType calc_bucket_size prepare_map_index layout_build
          chunk_size ht).2)
  = build_match_index (_probe_state ht).
Proof.
  assert (needs_build_match_index (join_type (_table_items ht)) = false) as Hn.
  { destruct (needs_build_match_index _) eqn:E; [|reflexivity].
    exfalso. by apply Hjt, needs_build_match_index_iff. }
  unfold build.
  destruct (_choose_join_hash_map _ _ _) as [tag keys]. simpl.
  rewrite Hn.
  destruct tag; simpl; rewrite ?Hprep; try reflexivity;
    match goal with
    | |- context [layout_build ?tag ?n ?t ?p] =>
        pose proof (Hlayout tag n t p) as Hl;
        destruct (layout_build tag n t p) as [[st t'] p']; simpl in *;
        rewrite Hl, Hprep; reflexivity
    end.
Qed.

Lemma build_keeps_build_match_index_witness :
  build_match_index
    (_probe_state
       (build cpp_sizeof (fun _ => 4) (fun p _ => p)
          (fun _ _ t p => (OK, t, p)) 4 (example_table LEFT_OUTER_JOIN)).2)
  = [].
Proof.
  rewrite (build_keeps_build_match_index cpp_sizeof (fun _ => 4)
             (fun p _ => p) (fun _ _ t p => (OK, t, p)) 4
             (example_table LEFT_OUTER_JOIN)).
  - reflexivity.
  - reflexivity.
  - reflexivity.
  - vm_compute. intros H.
    repeat (apply elem_of_cons in H as [H|H]; [discriminate H|]).
    by apply elem_of_nil in H.
Defined.

Section BuildSerialized.

Variable sizeof_CppType : PrimitiveType → nat.
Variable calc_bucket_size : nat → nat.
Variable prepare_map_index : HashTableProbeState → nat → HashTableProbeState.
Variable layout_build :
  JoinHashMapType → nat → JoinHashTableItems → HashTableProbeState →
  Status * JoinHashTableItems * HashTableProbeState.
Variable max_serialized_size : Column → nat.
Variable allocate : nat → option nat.
Variable key_bytes : list Column → nat → list Byte.byte.
Variable bucket_of_bytes : list Byte.byte → nat → nat.

(** [build] on a table not built before, when the selector picks the
    opaque-bytes layout and that layout's routine is [prepare] followed
    by [construct_hash_table]: the allocation made by [build] is what
    the routine needs.  The build succeeds, the bucket count is the one
    computed from row count plus one, the keys are those the selector
    wrote back, and every bucket's chain lists, last inserted first, the
    rows hashing to it that have no NULL in a key that is not
    null-safe. *)
Theorem build_with_serialized_layout (chunk_size : nat) (ht : JoinHashTable)
    (ptr : nat)
    (Hlayout :
       ∀ cs t p,
         layout_build slice cs t p
         = construct_hash_table max_serialized_size allocate key_bytes
             bucket_of_bytes cs (prepare cs t p).1 (prepare cs t p).2)
    (Hslice :
       (_choose_join_hash_map sizeof_CppType (join_keys (_table_items ht))
          (ti_key_columns (_table_items ht))).1 = slice)
    (Hfirst : first (_table_items ht) = [])
    (Hnext : ti_next (_table_items ht) = [])
    (Hcs : 0 < chunk_size)
    (Halloc :
       allocate
         (serialize_size max_serialized_size
            (prepare_columns
               (_choose_join_hash_map sizeof_CppType
                  (join_keys (_table_items ht))
                  (ti_key_columns (_table_items ht))).2
               (ti_key_columns (_table_items ht))).1) = Some ptr) :
  let t := _table_items ht in
  let keys := (_choose_join_hash_map sizeof_CppType (join_keys t)
                 (ti_key_columns t)).2 in
  let cols := prepare_columns keys (ti_key_columns t) in
  let r := build sizeof_CppType calc_bucket_size prepare_map_index
             layout_build chunk_size ht in
  let t' := _table_items r.2 in
  r.1 = OK
  ∧ _hash_map_type r.2 = slice
  ∧ join_keys t' = keys
  ∧ row_count t' = row_count t
  ∧ bucket_size t' = calc_bucket_size (row_count t + 1)
  ∧ length (first t') = bucket_size t'
  ∧ length (ti_next t') = row_count t + 1
  ∧ (∀ b, b < bucket_size t' →
       bucket_chain t' b
       = reverse
           (rows_of_bucket (row_included cols.2)
              (fun r => bucket_of_bytes (key_bytes cols.1 r) (bucket_size t'))
              (row_count t) b)).
Proof.
  intros t keys cols r t'. subst t' r cols keys. unfold build.
  remember (_table_items ht) as t0 eqn:Ht0. subst t. clear Ht0.
  rename t0 into t.
  destruct (_choose_join_hash_map sizeof_CppType (join_keys t)
              (ti_key_columns t)) as [tag keys] eqn:Hch.
  cbn [fst snd] in *. subst tag.
  set (t1 := set_ti_next _ _).
  set (p1 := prepare_map_index _ chunk_size).
  rewrite Hlayout.
  assert (join_keys t1 = keys) as Hjk by reflexivity.
  assert (ti_key_columns t1 = ti_key_columns t) as Hkc by reflexivity.
  assert (row_count t1 = row_count t) as Hrc1 by reflexivity.
  assert (bucket_size t1 = calc_bucket_size (row_count t + 1)) as Hbs1
    by reflexivity.
  assert (first t1 = replicate (bucket_size t1) 0) as Hf1.
  { subst t1. cbn. rewrite Hfirst. apply resize_nil. }
  assert (ti_next t1 = replicate (row_count t1 + 1) 0) as Hn1.
  { subst t1. cbn. rewrite Hnext. apply resize_nil. }
  destruct (built_index_shape max_serialized_size allocate key_bytes
              bucket_of_bytes chunk_size t1 p1 ptr Hcs)
    as (Hok & Hrc & Hlf & Hln & _ & _ & Hchain);
    [by rewrite Hjk, Hkc|exact Hf1|exact Hn1|].
  destruct (construct_hash_table_writes max_serialized_size allocate key_bytes
              bucket_of_bytes chunk_size (prepare chunk_size t1 p1).1
              (prepare chunk_size t1 p1).2) as (Hframe & _).
  destruct (construct_hash_table _ _ _ _ _ _ _) as [[st t'] p'].
  cbn [fst snd _table_items _hash_map_type] in *.
  assert (join_keys t' = keys) as Hjk' by (rewrite Hframe; reflexivity).
  assert (bucket_size t' = bucket_size t1) as Hbs'
    by (rewrite Hframe; reflexivity).
  rewrite Hjk, Hkc in Hchain.
  split; [exact Hok|]. split; [reflexivity|]. split; [exact Hjk'|].
  split; [congruence|]. split; [congruence|]. split; [congruence|].
  split; [congruence|]. rewrite Hbs', <- Hrc1. exact Hchain.
Qed.

End BuildSerialized.

Lemma build_with_serialized_layout_witness :
  let r := example_build 2 (example_table RIGHT_OUTER_JOIN) in
  r.1 = OK ∧ _hash_map_type r.2 = slice
  ∧ bucket_chain (_table_items r.2) 0 = [1].
Proof.
  intros r.
  destruct (build_with_serialized_layout cpp_sizeof (fun _ => 4) (fun p _ => p)
              (serialized_layout_build example_max_serialized_size
                 example_allocate example_key_bytes example_bucket_of_bytes)
              example_max_serialized_size example_allocate example_key_bytes
              example_bucket_of_bytes 2 (example_table RIGHT_OUTER_JOIN) 0)
    as (Hok & Hty & _ & _ & _ & _ & _ & Hchain); try reflexivity; [lia|].
  split; [exact Hok|]. split; [exact Hty|].
  unfold r, example_build. rewrite Hchain by (vm_compute; lia). reflexivity.
Defined.

(** ** [remove_duplicate_index]: what every correction leaves alone *)

Lemma rematched_self (p : HashTableProbeState) :
  p = rematched p (probe_match_index p) (build_match_index p).
Proof. by destruct p. Qed.

Lemma dedup_inv_start (kp kb : bool) (f : Filter) (p : HashTableProbeState) :
  dedup_inv kp kb f p (f, p).
Proof.
  unfold dedup_inv. cbn [fst snd].
  split; [reflexivity|]. split; [apply rematched_self|]. by repeat split.
Qed.

Ltac dedup_step :=
  let f := fresh "f" in
  let p := fresh "p" in
  let H1 := fresh in let H2 := fresh in let H3 := fresh in
  let H4 := fresh in let H5 := fresh in let H6 := fresh in
  intros [f p] (H1 & H2 & H3 & H4 & H5 & H6);
  unfold dedup_inv in *; cbn [fst snd] in *;
  unfold pmi_at, set_pmi_at, bmi_at, set_bmi_at;
  repeat match goal with
    | |- context [(?a =? ?b)%N] => destruct (a =? b)%N
    end;
  cbn [fst snd probe_match_index build_match_index set_probe_match_index
       set_build_match_index];
  rewrite ?length_insert;
  (split; [assumption|]);
  (split; [rewrite H2 at 1; reflexivity|]);
  (split; [assumption|]); (split; [assumption|]);
  (split; [first [assumption|discriminate]
          |first [assumption|discriminate]]).

Lemma left_outer_step_inv f0 p0 i :
  ∀ s, dedup_inv false true f0 p0 s →
       dedup_inv false true f0 p0 (left_outer_step i s).
Proof. unfold left_outer_step. dedup_step. Qed.

Lemma left_semi_step_inv f0 p0 i :
  ∀ s, dedup_inv false true f0 p0 s →
       dedup_inv false true f0 p0 (left_semi_step i s).
Proof. unfold left_semi_step. dedup_step. Qed.

Lemma left_anti_step_inv f0 p0 i :
  ∀ s, dedup_inv false true f0 p0 s →
       dedup_inv false true f0 p0 (left_anti_step i s).
Proof. unfold left_anti_step. dedup_step. Qed.

Lemma right_outer_step_inv f0 p0 i :
  ∀ s, dedup_inv true false f0 p0 s →
       dedup_inv true false f0 p0 (right_outer_step i s).
Proof. unfold right_outer_step. dedup_step. Qed.

Lemma right_semi_step_inv f0 p0 i :
  ∀ s, dedup_inv true false f0 p0 s →
       dedup_inv true false f0 p0 (right_semi_step i s).
Proof. unfold right_semi_step. dedup_step. Qed.

Lemma full_outer_step_inv f0 p0 i :
  ∀ s, dedup_inv false false f0 p0 s →
       dedup_inv false false f0 p0 (full_outer_step i s).
Proof. unfold full_outer_step. dedup_step. Qed.

(** Whatever the join type, [remove_duplicate_index] keeps the length
    of the keep/drop vector and of both match indexes and changes
    nothing of the probe state but the match indexes.  The LEFT_*
    corrections leave [build_match_index] alone, the RIGHT_* ones leave
    [probe_match_index] alone, and for INNER, CROSS and MERGE nothing
    changes at all. *)
Theorem remove_duplicate_index_frame (jt : TJoinOp) (f : Filter)
    (p : HashTableProbeState) :
  let r := remove_duplicate_index jt (f, p) in
  length r.1 = length f
  ∧ r.2 = rematched p (probe_match_index r.2) (build_match_index r.2)
  ∧ length (probe_match_index r.2) = length (probe_match_index p)
  ∧ length (build_match_index r.2) = length (build_match_index p)
  ∧ (jt ∈ [LEFT_OUTER_JOIN; LEFT_SEMI_JOIN; LEFT_ANTI_JOIN;
           NULL_AWARE_LEFT_ANTI_JOIN] →
     build_match_index r.2 = build_match_index p)
  ∧ (jt ∈ [RIGHT_OUTER_JOIN; RIGHT_SEMI_JOIN; RIGHT_ANTI_JOIN] →
     probe_match_index r.2 = probe_match_index p)
  ∧ (jt ∈ [INNER_JOIN; CROSS_JOIN; MERGE_JOIN] → r = (f, p)).
Proof.
  intros r0.
  assert (∀ r kp kb, dedup_inv kp kb f p r →
            length r.1 = length f
            ∧ r.2 = rematched p (probe_match_index r.2) (build_match_index r.2)
            ∧ length (probe_match_index r.2) = length (probe_match_index p)
            ∧ length (build_match_index r.2) = length (build_match_index p)
            ∧ (kb = true → build_match_index r.2 = build_match_index p)
            ∧ (kp = true → probe_match_index r.2 = probe_match_index p))
    as Hinv by (intros r kp kb (H1 & H2 & H3 & H4 & H5 & H6); by repeat split).
  assert (∀ (x : TJoinOp) l, x ∈ l → existsb (fun y => bool_decide (x = y)) l
                                      = true) as Hmem.
  { intros x l Hx. apply existsb_exists. exists x.
    split; [by apply list_elem_of_In|by apply bool_decide_eq_true]. }
  subst r0.
  destruct jt; cbn [remove_duplicate_index].
  all: try (repeat (split; [first [reflexivity|apply rematched_self]|]);
            repeat split; intros _; reflexivity).
  all: match goal with
       | |- context [_remove_duplicate_index_for_left_outer_join] =>
           unfold _remove_duplicate_index_for_left_outer_join;
           match goal with |- context [for_loop ?n ?b ?s0] => destruct (Hinv (for_loop n b s0) false true) as (H1 & H2 & H3 & H4 & H5 & H6) end;
           [apply for_loop_preserves;
            [apply dedup_inv_start|intros; by apply left_outer_step_inv]|]
       | |- context [_remove_duplicate_index_for_left_semi_join] =>
           unfold _remove_duplicate_index_for_left_semi_join;
           match goal with |- context [for_loop ?n ?b ?s0] => destruct (Hinv (for_loop n b s0) false true) as (H1 & H2 & H3 & H4 & H5 & H6) end;
           [apply for_loop_preserves;
            [apply dedup_inv_start|intros; by apply left_semi_step_inv]|]
       | |- context [_remove_duplicate_index_for_left_anti_join] =>
           unfold _remove_duplicate_index_for_left_anti_join;
           match goal with |- context [for_loop ?n ?b ?s0] => destruct (Hinv (for_loop n b s0) false true) as (H1 & H2 & H3 & H4 & H5 & H6) end;
           [apply for_loop_preserves;
            [apply dedup_inv_start|intros; by apply left_anti_step_inv]|]
       | |- context [_remove_duplicate_index_for_right_outer_join] =>
           unfold _remove_duplicate_index_for_right_outer_join;
           match goal with |- context [for_loop ?n ?b ?s0] => destruct (Hinv (for_loop n b s0) true false) as (H1 & H2 & H3 & H4 & H5 & H6) end;
           [apply for_loop_preserves;
            [apply dedup_inv_start|intros; by apply right_outer_step_inv]|]
       | |- context [_remove_duplicate_index_for_right_semi_join] =>
           unfold _remove_duplicate_index_for_right_semi_join;
           match goal with |- context [for_loop ?n ?b ?s0] => destruct (Hinv (for_loop n b s0) true false) as (H1 & H2 & H3 & H4 & H5 & H6) end;
           [apply for_loop_preserves;
            [apply dedup_inv_start|intros; by apply right_semi_step_inv]|]
       | |- context [_remove_duplicate_index_for_right_anti_join] =>
           unfold _remove_duplicate_index_for_right_anti_join;
           match goal with |- context [for_loop ?n ?b ?s0] => destruct (Hinv (for_loop n b s0) true false) as (H1 & H2 & H3 & H4 & H5 & H6) end;
           [apply for_loop_preserves;
            [apply dedup_inv_start|intros; by apply right_outer_step_inv]|]
       | |- context [_remove_duplicate_index_for_full_outer_join] =>
           unfold _remove_duplicate_index_for_full_outer_join;
           match goal with |- context [for_loop ?n ?b ?s0] => destruct (Hinv (for_loop n b s0) false false) as (H1 & H2 & H3 & H4 & H5 & H6) end;
           [apply for_loop_preserves;
            [apply dedup_inv_start|intros; by apply full_outer_step_inv]|]
       end.
  all: cbn [fst snd] in *.
  all: repeat (split; [assumption|]).
  all: repeat split; intros Hin;
       first [ by auto
             | apply Hmem in Hin; discriminate Hin ].
Qed.

(** ** The probe-side corrections follow per-row rules *)

Lemma insert_lookup_total_id {A : Type} `{!Inhabited A} (l : list A) (i : nat) :
  <[i := l !!! i]> l = l.
Proof.
  destruct (decide (i < length l)) as [Hi|Hi].
  - apply list_insert_id. by apply list_lookup_lookup_total_lt.
  - apply list_insert_ge. lia.
Qed.

Lemma set_pmi_at_id (p : HashTableProbeState) (i : nat) :
  set_pmi_at p i (pmi_at p i) = p.
Proof.
  unfold set_pmi_at, pmi_at. rewrite insert_lookup_total_id. by destruct p.
Qed.

Lemma left_outer_step_rule (i : nat) (s : DedupState) :
  left_outer_step i s = rule_step left_outer_rule i s.
Proof.
  destruct s as [f p]. unfold left_outer_step, rule_step, left_outer_rule.
  repeat match goal with
    | |- context [(?a =? ?b)%N] => destruct (a =? b)%N eqn:?
    end; cbn [fst snd];
    rewrite ?set_pmi_at_id, ?insert_lookup_total_id; reflexivity.
Qed.

Lemma left_semi_step_rule (i : nat) (s : DedupState) :
  left_semi_step i s = rule_step left_semi_rule i s.
Proof.
  destruct s as [f p]. unfold left_semi_step, rule_step, left_semi_rule.
  repeat match goal with
    | |- context [(?a =? ?b)%N] => destruct (a =? b)%N eqn:?
    end; cbn [fst snd];
    rewrite ?set_pmi_at_id, ?insert_lookup_total_id; reflexivity.
Qed.

Lemma left_anti_step_rule (i : nat) (s : DedupState) :
  left_anti_step i s = rule_step left_anti_rule i s.
Proof.
  destruct s as [f p]. unfold left_anti_step, rule_step, left_anti_rule.
  repeat match goal with
    | |- context [(?a =? ?b)%N] => destruct (a =? b)%N eqn:?
    end; cbn [fst snd];
    rewrite ?set_pmi_at_id, ?insert_lookup_total_id; reflexivity.
Qed.

Lemma for_loop_ext {S : Type} (body1 body2 : nat → S → S) (n : nat) (s : S) :
  (∀ i acc, body1 i acc = body2 i acc) →
  for_loop n body1 s = for_loop n body2 s.
Proof.
  intros H. induction n as [|n IH]; [reflexivity|].
  by rewrite !for_loop_S, IH, H.
Qed.

Lemma run_rule_app (rule : MatchRule) (c : N) (l1 l2 : list N) :
  run_rule rule c (l1 ++ l2)
  = ((run_rule rule c l1).1 ++ (run_rule rule (run_rule rule c l1).2 l2).1,
     (run_rule rule (run_rule rule c l1).2 l2).2).
Proof.
  revert c. induction l1 as [|a l1 IH]; intros c.
  - simpl. by destruct (run_rule rule c l2).
  - simpl. rewrite IH. reflexivity.
Qed.

Lemma run_rule_length (rule : MatchRule) (c : N) (l : list N) :
  length (run_rule rule c l).1 = length l.
Proof.
  revert c. induction l as [|a l IH]; intros c; [reflexivity|].
  simpl. by rewrite IH.
Qed.

Section RuleLoop.

Variable rule : MatchRule.
Variable f0 : Filter.
Variable p0 : HashTableProbeState.

Local Abbreviation candidates_upto p n :=
  (filter (fun i => probe_index p0 !!! i = p) (seq 0 n)).

(** The state after the first [n] rounds of a loop that follows
    [rule]: for every probe row, the flags of its candidates so far and
    its counter are what the rule makes of the flags they had. *)
Lemma rule_loop (n : nat) :
  n ≤ length f0 →
  ∃ f pmi,
    for_loop n (rule_step rule) (f0, p0) = (f, set_probe_match_index p0 pmi)
    ∧ length f = length f0
    ∧ length pmi = length (probe_match_index p0)
    ∧ (∀ k, n ≤ k → f !!! k = f0 !!! k)
    ∧ (∀ p, p < length (probe_match_index p0) →
            (map (fun i => f !!! i) (candidates_upto p n), pmi !!! p)
            = run_rule rule (probe_match_index p0 !!! p)
                (map (fun i => f0 !!! i) (candidates_upto p n))).
Proof.
  induction n as [|n IH]; intros Hn.
  - exists f0, (probe_match_index p0). rewrite for_loop_0.
    split; [by destruct p0|]. repeat split; reflexivity.
  - destruct IH as (f & pmi & Hrun & Hlf & Hlp & Hrest & Hrow); [lia|].
    rewrite for_loop_S, Hrun. unfold rule_step, pmi_at, set_pmi_at.
    set (upto := seq 0 (S n)).
    cbn [probe_index probe_match_index set_probe_match_index]. subst upto.
    remember (probe_index p0 !!! n) as q eqn:Hq0.
    assert (f !!! n = f0 !!! n) as Hfn by (apply Hrest; lia).
    eexists _, _. split; [reflexivity|].
    split; [by rewrite length_insert|]. split; [by rewrite length_insert|].
    split.
    { intros k Hk. rewrite list_lookup_total_insert_ne by lia. apply Hrest. lia. }
    intros p Hp. rewrite filter_seq_S, <- Hq0. specialize (Hrow p Hp).
    destruct (decide (q = p)) as [Hq|Hq].
    + rewrite !map_app. cbn [map]. rewrite run_rule_app, <- Hrow.
      cbn [fst snd run_rule]. subst p.
      rewrite list_lookup_total_insert_eq by lia.
      rewrite list_lookup_total_insert_eq by lia.
      rewrite map_lookup_insert_above
        by (intros i; apply filter_seq_lt; apply _).
      by rewrite Hfn.
    + rewrite !app_nil_r.
      rewrite map_lookup_insert_above
        by (intros i; apply filter_seq_lt; apply _).
      rewrite list_lookup_total_insert_ne by exact Hq. exact Hrow.
Qed.

End RuleLoop.

(** Over the batches of a probe chunk: for every probe row the flags of
    its candidates, in order, and its counter come out as the rule run
    over the flags they went in with. *)
Lemma rule_batches_spec (rule : MatchRule) (p : nat)
    (bs : list CandidateBatch) :
  ∀ ps, p < length (probe_match_index ps) →
    let r := rule_batches rule ps bs in
    length (probe_match_index r.2) = length (probe_match_index ps)
    ∧ (flags_out_all p bs r.1, probe_match_index r.2 !!! p)
      = run_rule rule (probe_match_index ps !!! p) (flags_in_all p bs)
    ∧ Forall2 (fun b f => length f = length (batch_filter b)) bs r.1.
Proof.
  induction bs as [|b bs IH]; intros ps Hp.
  - simpl. repeat split. constructor.
  - cbn [rule_batches]. cbn zeta.
    destruct (rule_loop rule (batch_filter b) (load_batch ps b)
                (length (batch_filter b)))
      as (f & pmi & Hrun & Hlf & Hlp & _ & Hrow); [lia|].
    rewrite Hrun. cbn [fst snd].
    cbn [probe_match_index load_batch probe_index] in Hlp, Hrow.
    specialize (IH (set_probe_match_index (load_batch ps b) pmi)).
    cbn [probe_match_index set_probe_match_index] in IH.
    rewrite Hlp in IH. specialize (IH Hp). cbn zeta in IH.
    destruct IH as (Hlen & Hflags & Hall).
    split; [exact Hlen|]. split.
    + unfold flags_out_all, flags_in_all in *.
      cbn [zip_with concat map]. rewrite run_rule_app.
      unfold flags_in, flags_out, candidate_positions in *.
      rewrite <- (Hrow p Hp). cbn [fst snd]. rewrite <- Hflags. reflexivity.
    + constructor; assumption.
Qed.

Lemma correct_batches_left_outer (ps : HashTableProbeState)
    (bs : list CandidateBatch) :
  correct_batches LEFT_OUTER_JOIN ps bs = rule_batches left_outer_rule ps bs.
Proof.
  revert ps. induction bs as [|b bs IH]; intros ps; [reflexivity|].
  cbn [correct_batches rule_batches remove_duplicate_index].
  unfold _remove_duplicate_index_for_left_outer_join. cbn [fst].
  rewrite (for_loop_ext _ _ _ _ left_outer_step_rule).
  destruct (for_loop _ _ _) as [f p1]. rewrite IH. cbn [fst snd].
  by destruct (rule_batches left_outer_rule p1 bs).
Qed.

Lemma correct_batches_left_semi (ps : HashTableProbeState)
    (bs : list CandidateBatch) :
  correct_batches LEFT_SEMI_JOIN ps bs = rule_batches left_semi_rule ps bs.
Proof.
  revert ps. induction bs as [|b bs IH]; intros ps; [reflexivity|].
  cbn [correct_batches rule_batches remove_duplicate_index].
  unfold _remove_duplicate_index_for_left_semi_join. cbn [fst].
  rewrite (for_loop_ext _ _ _ _ left_semi_step_rule).
  destruct (for_loop _ _ _) as [f p1]. rewrite IH. cbn [fst snd].
  by destruct (rule_batches left_semi_rule p1 bs).
Qed.

Lemma correct_batches_left_anti (jt : TJoinOp) (ps : HashTableProbeState)
    (bs : list CandidateBatch) :
  jt = LEFT_ANTI_JOIN ∨ jt = NULL_AWARE_LEFT_ANTI_JOIN →
  correct_batches jt ps bs = rule_batches left_anti_rule ps bs.
Proof.
  intros Hjt. revert ps. induction bs as [|b bs IH]; intros ps; [reflexivity|].
  cbn [correct_batches rule_batches].
  assert (∀ s, remove_duplicate_index jt s
               = for_loop (length s.1) (rule_step left_anti_rule) s) as Hrd.
  { intros s. destruct Hjt as [-> | ->]; cbn [remove_duplicate_index];
      unfold _remove_duplicate_index_for_left_anti_join;
      apply for_loop_ext, left_anti_step_rule. }
  rewrite Hrd. cbn [fst].
  destruct (for_loop _ _ _) as [f p1]. rewrite IH. cbn [fst snd].
  by destruct (rule_batches left_anti_rule p1 bs).
Qed.

(** ** LEFT_OUTER and LEFT_ANTI: how many candidates of a probe row
    survive *)

Lemma dec32_pred (c : N) : (1 ≤ c < 2 ^ 32)%N → dec32 c = (c - 1)%N.
Proof.
  intros Hc. unfold dec32. change (2 ^ 32)%N with 4294967296%N in *.
  symmetry. apply N.mod_unique with (q := 1%N); lia.
Qed.

Lemma rejected_count_cons (a : N) (l : list N) :
  rejected_count (a :: l)
  = (if (a =? 0)%N then 1 else 0) + rejected_count l.
Proof.
  unfold rejected_count. rewrite filter_cons.
  destruct (N.eqb_spec a 0) as [->|Hne].
  - by rewrite decide_True.
  - by rewrite decide_False.
Qed.

Lemma rejected_count_le (l : list N) : rejected_count l ≤ length l.
Proof. apply length_filter. Qed.

Lemma rejected_all (l : list N) :
  (∀ a, a ∈ l → a = 0%N) → l = replicate (length l) 0%N.
Proof.
  induction l as [|a l IH]; intros H; [reflexivity|]. simpl.
  rewrite (H a) by (by left). f_equal. apply IH. intros x Hx. apply H. by right.
Qed.

Lemma rejected_some_accepted (l : list N) :
  (∃ a, a ∈ l ∧ a ≠ 0%N) → rejected_count l < length l.
Proof.
  intros (a & Ha & Hne). unfold rejected_count.
  apply (length_filter_lt _ _ a); [exact Ha|exact Hne].
Qed.

Lemma run_rule_cons (rule : MatchRule) (c a a' c' : N) (l : list N) :
  rule c a = (a', c') →
  run_rule rule c (a :: l)
  = (a' :: (run_rule rule c' l).1, (run_rule rule c' l).2).
Proof. intros E. cbn [run_rule]. rewrite E. reflexivity. Qed.

Ltac rule_case :=
  repeat case N.eqb_spec; intros; first [reflexivity | lia | congruence].

(** LEFT_OUTER from a counter above the number of rejected candidates:
    no flag changes. *)
Lemma left_outer_run_unchanged (l : list N) :
  ∀ c, (N.of_nat (rejected_count l) < c < 2 ^ 32)%N →
       run_rule left_outer_rule c l = (l, (c - N.of_nat (rejected_count l))%N).
Proof.
  induction l as [|a l IH]; intros c Hc.
  - simpl. f_equal. unfold rejected_count. simpl. lia.
  - rewrite rejected_count_cons in *.
    destruct (N.eqb_spec a 0) as [->|Ha].
    + rewrite (run_rule_cons _ c 0%N 0%N (c - 1)%N).
      * rewrite IH by lia. cbn [fst snd]. f_equal. lia.
      * unfold left_outer_rule. rewrite <- (dec32_pred c) by lia. rule_case.
    + rewrite (run_rule_cons _ c a a c).
      * rewrite IH by (simpl in Hc; lia). reflexivity.
      * unfold left_outer_rule. rule_case.
Qed.

(** LEFT_OUTER when every candidate is rejected and the counter is
    their number: the last one is kept. *)
Lemma left_outer_run_all_rejected (n : nat) :
  1 ≤ n → (N.of_nat n < 2 ^ 32)%N →
  run_rule left_outer_rule (N.of_nat n) (replicate n 0%N)
  = (replicate (n - 1) 0%N ++ [1%N], 1%N).
Proof.
  induction n as [|n IH]; intros H1 H2; [lia|].
  destruct n as [|m].
  - reflexivity.
  - change (replicate (S (S m)) 0%N) with (0%N :: replicate (S m) 0%N).
    rewrite (run_rule_cons _ _ 0%N 0%N (N.of_nat (S m))).
    + rewrite IH by lia. cbn [fst snd].
      replace (S (S m) - 1) with (S (S m - 1)) by lia. reflexivity.
    + unfold left_outer_rule.
      replace (N.of_nat (S m)) with (dec32 (N.of_nat (S (S m))))
        by (rewrite dec32_pred by lia; lia).
      rule_case.
Qed.

(** Under LEFT_OUTER, for a probe row whose [probe_match_index] entry
    holds the number [n] of its candidates when the first batch arrives:
    if a candidate is accepted, the flags of all its candidates stay as
    they were; if none is, all stay dropped but the last, which is kept.
    Either way at least one candidate of the row survives. *)
Theorem left_outer_row_surfaces (ps : HashTableProbeState)
    (bs : list CandidateBatch) (p : nat)
    (Hp : p < length (probe_match_index ps))
    (Hcount : probe_match_index ps !!! p
              = N.of_nat (length (flags_in_all p bs)))
    (Hsome : 1 ≤ length (flags_in_all p bs))
    (Hword : (N.of_nat (length (flags_in_all p bs)) < 2 ^ 32)%N) :
  let fs := (correct_batches LEFT_OUTER_JOIN ps bs).1 in
  let inp := flags_in_all p bs in
  let out := flags_out_all p bs fs in
  ((∃ a, a ∈ inp ∧ a ≠ 0%N) → out = inp)
  ∧ ((∀ a, a ∈ inp → a = 0%N) →
     out = replicate (length inp - 1) 0%N ++ [1%N])
  ∧ (∃ a, a ∈ out ∧ a ≠ 0%N).
Proof.
  intros fs inp out.
  destruct (rule_batches_spec left_outer_rule p bs ps Hp) as (_ & Hrun & _).
  cbn zeta in Hrun. rewrite <- correct_batches_left_outer in Hrun.
  fold fs out inp in Hrun. fold inp in Hcount, Hsome, Hword.
  rewrite Hcount in Hrun.
  assert ((∃ a, a ∈ inp ∧ a ≠ 0%N) → out = inp) as Hacc.
  { intros Hex. pose proof (rejected_some_accepted inp Hex) as Hlt.
    rewrite left_outer_run_unchanged in Hrun by lia. congruence. }
  assert ((∀ a, a ∈ inp → a = 0%N) →
          out = replicate (length inp - 1) 0%N ++ [1%N]) as Hrej.
  { intros Hall.
    pose proof (left_outer_run_all_rejected (length inp) Hsome Hword) as R.
    rewrite <- (rejected_all inp Hall) in R. rewrite R in Hrun. congruence. }
  split; [exact Hacc|]. split; [exact Hrej|].
  destruct (decide (Forall (fun a => a = 0%N) inp)) as [Hall|Hnot].
  - rewrite Hrej by (by apply list.Forall_forall). exists 1%N.
    split; [|discriminate]. apply elem_of_app. right. by left.
  - apply not_Forall_Exists in Hnot; [|apply _].
    apply list.Exists_exists in Hnot as (a & Ha & Hne).
    assert (∃ x, x ∈ inp ∧ x ≠ 0%N) as Hex by (exists a; split; assumption).
    rewrite (Hacc Hex). exact Hex.
Qed.

Lemma left_outer_row_surfaces_witness :
  flags_in_all 0 example_outer_batches = [0; 0; 0]%N
  ∧ flags_out_all 0 example_outer_batches
      (correct_batches LEFT_OUTER_JOIN example_outer_probe_state
         example_outer_batches).1 = [0; 0; 1]%N
  ∧ flags_out_all 1 example_outer_batches
      (correct_batches LEFT_OUTER_JOIN example_outer_probe_state
         example_outer_batches).1 = [1; 0]%N.
Proof.
  split; [reflexivity|]. split.
  - destruct (left_outer_row_surfaces example_outer_probe_state
                example_outer_batches 0) as (_ & H & _);
      [simpl; lia | reflexivity | simpl; lia | vm_compute; reflexivity |].
    rewrite H; [reflexivity|].
    intros a Ha. change (a ∈ [0; 0; 0]%N) in Ha.
    repeat (apply elem_of_cons in Ha as [->|Ha]; [reflexivity|]).
    by apply elem_of_nil in Ha.
  - destruct (left_outer_row_surfaces example_outer_probe_state
                example_outer_batches 1) as (H & _ & _);
      [simpl; lia | reflexivity | simpl; lia | vm_compute; reflexivity |].
    rewrite H; [reflexivity|].
    exists 1%N. split; [|discriminate]. change (1%N ∈ [1; 0]%N). by left.
Defined.

(** LEFT_ANTI from a counter above the number of candidates left: every
    flag is cleared. *)
Lemma left_anti_run_above (l : list N) :
  ∀ c, (N.of_nat (length l) < c < 2 ^ 32)%N →
       (run_rule left_anti_rule c l).1 = replicate (length l) 0%N.
Proof.
  induction l as [|a l IH]; intros c Hc; [reflexivity|].
  cbn [length] in *.
  destruct (N.eqb_spec a 0) as [->|Ha].
  - rewrite (run_rule_cons _ c 0%N 0%N (c - 1)%N).
    + cbn [fst replicate]. rewrite IH by lia. reflexivity.
    + unfold left_anti_rule. rewrite <- (dec32_pred c) by lia. rule_case.
  - rewrite (run_rule_cons _ c a 0%N c).
    + cbn [fst replicate]. rewrite IH by lia. reflexivity.
    + unfold left_anti_rule. rule_case.
Qed.

Lemma left_anti_run_some_accepted (l : list N) :
  (∃ a, a ∈ l ∧ a ≠ 0%N) → (N.of_nat (length l) < 2 ^ 32)%N →
  (run_rule left_anti_rule (N.of_nat (length l)) l).1
  = replicate (length l) 0%N.
Proof.
  induction l as [|a l IH]; intros (x & Hx & Hne) Hw.
  - by apply elem_of_nil in Hx.
  - cbn [length] in *. destruct (N.eqb_spec a 0) as [->|Ha].
    + apply elem_of_cons in Hx as [->|Hx]; [done|].
      assert (1 ≤ length l).
      { destruct l; [by apply elem_of_nil in Hx|simpl; lia]. }
      rewrite (run_rule_cons _ _ 0%N 0%N (N.of_nat (length l))).
      * cbn [fst replicate]. rewrite IH; [reflexivity| by exists x | lia].
      * unfold left_anti_rule.
        replace (N.of_nat (length l)) with (dec32 (N.of_nat (S (length l))))
          by (rewrite dec32_pred by lia; lia).
        rule_case.
    + destruct l as [|b l'].
      * rewrite (run_rule_cons _ _ a 0%N 0%N); [reflexivity|].
        unfold left_anti_rule, lnot8. cbn [length].
        change (dec32 (N.of_nat 1)) with 0%N. rule_case.
      * rewrite (run_rule_cons _ _ a 0%N (N.of_nat (S (length (b :: l'))))).
        -- cbn [fst]. rewrite left_anti_run_above by lia. reflexivity.
        -- unfold left_anti_rule. cbn [length]. rule_case.
Qed.

Lemma left_anti_run_all_rejected (n : nat) :
  1 ≤ n → (N.of_nat n < 2 ^ 32)%N →
  run_rule left_anti_rule (N.of_nat n) (replicate n 0%N)
  = (replicate (n - 1) 0%N ++ [1%N], 0%N).
Proof.
  induction n as [|n IH]; intros H1 H2; [lia|].
  destruct n as [|m].
  - reflexivity.
  - change (replicate (S (S m)) 0%N) with (0%N :: replicate (S m) 0%N).
    rewrite (run_rule_cons _ _ 0%N 0%N (N.of_nat (S m))).
    + rewrite IH by lia. cbn [fst snd].
      replace (S (S m) - 1) with (S (S m - 1)) by lia. reflexivity.
    + unfold left_anti_rule.
      replace (N.of_nat (S m)) with (dec32 (N.of_nat (S (S m))))
        by (rewrite dec32_pred by lia; lia).
      rule_case.
Qed.

(** Under LEFT_ANTI and NULL_AWARE_LEFT_ANTI, for a probe row whose
    [probe_match_index] entry holds the number of its candidates when
    the first batch arrives: if a candidate is accepted, every candidate
    of the row is dropped; if none is, exactly the last one is kept. *)
Theorem left_anti_row_kept_iff_all_rejected (jt : TJoinOp)
    (ps : HashTableProbeState) (bs : list CandidateBatch) (p : nat)
    (Hjt : jt = LEFT_ANTI_JOIN ∨ jt = NULL_AWARE_LEFT_ANTI_JOIN)
    (Hp : p < length (probe_match_index ps))
    (Hcount : probe_match_index ps !!! p
              = N.of_nat (length (flags_in_all p bs)))
    (Hsome : 1 ≤ length (flags_in_all p bs))
    (Hword : (N.of_nat (length (flags_in_all p bs)) < 2 ^ 32)%N) :
  let fs := (correct_batches jt ps bs).1 in
  let inp := flags_in_all p bs in
  let out := flags_out_all p bs fs in
  ((∃ a, a ∈ inp ∧ a ≠ 0%N) → out = replicate (length inp) 0%N)
  ∧ ((∀ a, a ∈ inp → a = 0%N) →
     out = replicate (length inp - 1) 0%N ++ [1%N]).
Proof.
  intros fs inp out.
  destruct (rule_batches_spec left_anti_rule p bs ps Hp) as (_ & Hrun & _).
  cbn zeta in Hrun. rewrite <- (correct_batches_left_anti jt) in Hrun by done.
  fold fs out inp in Hrun. fold inp in Hcount, Hsome, Hword.
  rewrite Hcount in Hrun. split.
  - intros Hex. rewrite <- (left_anti_run_some_accepted inp Hex Hword).
    by rewrite <- Hrun.
  - intros Hall.
    pose proof (left_anti_run_all_rejected (length inp) Hsome Hword) as R.
    rewrite <- (rejected_all inp Hall) in R. rewrite R in Hrun. congruence.
Qed.

Lemma left_anti_row_kept_iff_all_rejected_witness :
  flags_out_all 0 example_outer_batches
    (correct_batches LEFT_ANTI_JOIN example_outer_probe_state
       example_outer_batches).1 = [0; 0; 1]%N
  ∧ flags_out_all 1 example_outer_batches
      (correct_batches LEFT_ANTI_JOIN example_outer_probe_state
         example_outer_batches).1 = [0; 0]%N.
Proof.
  split.
  - destruct (left_anti_row_kept_iff_all_rejected LEFT_ANTI_JOIN
                example_outer_probe_state example_outer_batches 0)
      as (_ & H);
      [by left | simpl; lia | reflexivity | simpl; lia
      | vm_compute; reflexivity |].
    rewrite H; [reflexivity|].
    intros a Ha. change (a ∈ [0; 0; 0]%N) in Ha.
    repeat (apply elem_of_cons in Ha as [->|Ha]; [reflexivity|]).
    by apply elem_of_nil in Ha.
  - destruct (left_anti_row_kept_iff_all_rejected LEFT_ANTI_JOIN
                example_outer_probe_state example_outer_batches 1)
      as (H & _);
      [by left | simpl; lia | reflexivity | simpl; lia
      | vm_compute; reflexivity |].
    rewrite H; [reflexivity|].
    exists 1%N. split; [|discriminate]. change (1%N ∈ [1; 0]%N). by left.
Defined.

Lemma zero_counter_run (rule : MatchRule) (l : list N) :
  (∀ a, rule 0%N a = (1%N, 0%N)) →
  run_rule rule 0%N l = (replicate (length l) 1%N, 0%N).
Proof.
  intros Hr. induction l as [|a l IH]; [reflexivity|].
  rewrite (run_rule_cons _ _ a 1%N 0%N) by apply Hr.
  rewrite IH. reflexivity.
Qed.

(** Under LEFT_OUTER, LEFT_ANTI and NULL_AWARE_LEFT_ANTI, a probe row
    whose [probe_match_index] entry is 0 (it found no build row) has
    every one of its candidates kept, whatever the residual predicates
    said, and its entry stays 0. *)
Theorem unmatched_probe_row_kept (jt : TJoinOp)
    (ps : HashTableProbeState) (bs : list CandidateBatch) (p : nat)
    (Hjt : jt = LEFT_OUTER_JOIN ∨ jt = LEFT_ANTI_JOIN
           ∨ jt = NULL_AWARE_LEFT_ANTI_JOIN)
    (Hp : p < length (probe_match_index ps))
    (Hzero : probe_match_index ps !!! p = 0%N) :
  let r := correct_batches jt ps bs in
  flags_out_all p bs r.1 = replicate (length (flags_in_all p bs)) 1%N
  ∧ probe_match_index r.2 !!! p = 0%N.
Proof.
  intros r.
  assert (∃ rule, correct_batches jt ps bs = rule_batches rule ps bs
                  ∧ ∀ a, rule 0%N a = (1%N, 0%N)) as (rule & Hcb & Hr).
  { destruct Hjt as [-> | Hjt].
    - exists left_outer_rule. split; [apply correct_batches_left_outer|done].
    - exists left_anti_rule.
      split; [by apply correct_batches_left_anti|done]. }
  destruct (rule_batches_spec rule p bs ps Hp) as (_ & Hrun & _).
  cbn zeta in Hrun. rewrite <- Hcb in Hrun. fold r in Hrun.
  rewrite Hzero, zero_counter_run in Hrun by exact Hr.
  by inversion Hrun.
Qed.

Lemma unmatched_probe_row_kept_witness :
  flags_in_all 0 example_unmatched_batches = [0%N]
  ∧ flags_out_all 0 example_unmatched_batches
      (correct_batches LEFT_OUTER_JOIN example_unmatched_probe_state
         example_unmatched_batches).1 = [1%N].
Proof.
  split; [reflexivity|].
  destruct (unmatched_probe_row_kept LEFT_OUTER_JOIN
              example_unmatched_probe_state example_unmatched_batches 0)
    as (H & _); [by left | simpl; lia | reflexivity |].
  rewrite H. reflexivity.
Defined.

(** ** RIGHT_SEMI: LEFT_SEMI with the two sides exchanged *)

Lemma swap_sides_involutive (p : HashTableProbeState) :
  swap_sides (swap_sides p) = p.
Proof. by destruct p. Qed.

Lemma right_semi_step_swap (i : nat) (f : Filter) (p : HashTableProbeState) :
  right_semi_step i (f, p)
  = ((left_semi_step i (f, swap_sides p)).1,
     swap_sides (left_semi_step i (f, swap_sides p)).2).
Proof.
  unfold right_semi_step, left_semi_step.
  change (pmi_at (swap_sides p) i) with (bmi_at p i).
  destruct (f !!! i =? 1)%N; [destruct (bmi_at p i =? 0)%N|];
    cbn [fst snd]; rewrite ?swap_sides_involutive; try reflexivity;
    by destruct p.
Qed.

Lemma right_semi_loop_swap (n : nat) (f : Filter) (p : HashTableProbeState) :
  for_loop n right_semi_step (f, p)
  = ((for_loop n left_semi_step (f, swap_sides p)).1,
     swap_sides (for_loop n left_semi_step (f, swap_sides p)).2).
Proof.
  induction n as [|n IH].
  - rewrite !for_loop_0. cbn [fst snd]. by rewrite swap_sides_involutive.
  - rewrite !for_loop_S, IH.
    destruct (for_loop n left_semi_step (f, swap_sides p)) as [f1 q].
    cbn [fst snd]. rewrite right_semi_step_swap.
    by rewrite swap_sides_involutive.
Qed.

Lemma load_batch_swap (p : HashTableProbeState) (b : CandidateBatch) :
  load_batch (swap_sides p) (swap_batch b) = swap_sides (load_batch p b).
Proof. reflexivity. Qed.

Lemma correct_batches_right_semi (ps : HashTableProbeState)
    (bs : list CandidateBatch) :
  correct_batches RIGHT_SEMI_JOIN ps bs
  = ((correct_batches LEFT_SEMI_JOIN (swap_sides ps) (map swap_batch bs)).1,
     swap_sides
       (correct_batches LEFT_SEMI_JOIN (swap_sides ps) (map swap_batch bs)).2).
Proof.
  revert ps. induction bs as [|b bs IH]; intros ps.
  - cbn. by rewrite swap_sides_involutive.
  - cbn [correct_batches map remove_duplicate_index].
    unfold _remove_duplicate_index_for_right_semi_join,
      _remove_duplicate_index_for_left_semi_join. cbn [fst].
    rewrite right_semi_loop_swap, load_batch_swap.
    change (batch_filter (swap_batch b)) with (batch_filter b).
    destruct (for_loop _ left_semi_step _) as [f1 q]. cbn [fst snd].
    rewrite IH, swap_sides_involutive.
    by destruct (correct_batches LEFT_SEMI_JOIN q (map swap_batch bs)).
Qed.

(** The RIGHT_SEMI correction of one batch is the LEFT_SEMI correction
    run on the state with probe side and build side exchanged (row
    indexes and match indexes alike), the sides exchanged back after. *)
Theorem right_semi_mirrors_left_semi (f : Filter) (p : HashTableProbeState) :
  remove_duplicate_index RIGHT_SEMI_JOIN (f, p)
  = ((remove_duplicate_index LEFT_SEMI_JOIN (f, swap_sides p)).1,
     swap_sides (remove_duplicate_index LEFT_SEMI_JOIN (f, swap_sides p)).2).
Proof.
  cbn [remove_duplicate_index].
  unfold _remove_duplicate_index_for_right_semi_join,
    _remove_duplicate_index_for_left_semi_join. cbn [fst].
  apply right_semi_loop_swap.
Qed.

Lemma left_semi_run_seen (l : list N) (c : N) :
  c ≠ 0%N → run_rule left_semi_rule c l = (map clear_accepted l, c).
Proof.
  intros Hc. induction l as [|a l IH]; [reflexivity|].
  rewrite (run_rule_cons _ c a (clear_accepted a) c).
  - by rewrite IH.
  - unfold left_semi_rule, clear_accepted. rule_case.
Qed.

Lemma left_semi_run_none (l : list N) (c : N) :
  1%N ∉ l → run_rule left_semi_rule c l = (l, c).
Proof.
  induction l as [|a l IH]; intros Hn; [reflexivity|].
  apply not_elem_of_cons in Hn as [Ha Hl].
  rewrite (run_rule_cons _ c a a c).
  - by rewrite IH.
  - unfold left_semi_rule. rule_case.
Qed.

Lemma left_semi_run_first (l1 l2 : list N) :
  1%N ∉ l1 →
  run_rule left_semi_rule 0%N (l1 ++ 1%N :: l2)
  = (l1 ++ 1%N :: map clear_accepted l2, 1%N).
Proof.
  intros Hn. rewrite run_rule_app, left_semi_run_none by exact Hn.
  cbn [fst snd]. rewrite (run_rule_cons _ 0%N 1%N 1%N 1%N) by reflexivity.
  by rewrite left_semi_run_seen.
Qed.

Lemma build_flags_in_all_swap (j : nat) (bs : list CandidateBatch) :
  flags_in_all j (map swap_batch bs) = build_flags_in_all j bs.
Proof.
  unfold flags_in_all, build_flags_in_all. f_equal.
  rewrite map_map. reflexivity.
Qed.

Lemma build_flags_out_all_swap (j : nat) (bs : list CandidateBatch)
    (fs : list Filter) :
  flags_out_all j (map swap_batch bs) fs = build_flags_out_all j bs fs.
Proof.
  unfold flags_out_all, build_flags_out_all. f_equal.
  revert fs. induction bs as [|b bs IH]; intros [|f fs]; try reflexivity.
  cbn [map zip_with]. f_equal. apply IH.
Qed.

(** Under RIGHT_SEMI, for a build row [j] over all the batches of the
    probe phase, in order: while [build_match_index[j]] is 0 the first
    accepted candidate of [j] keeps its flag and sets the entry to 1;
    every accepted candidate of [j] after it, or all of them when the
    entry was non-zero from the start, has its flag cleared; flags
    other than 1 are left as they are. *)
Theorem right_semi_first_match_per_build_row (ps : HashTableProbeState)
    (bs : list CandidateBatch) (j : nat)
    (Hj : j < length (build_match_index ps)) :
  let r := correct_batches RIGHT_SEMI_JOIN ps bs in
  let inp := build_flags_in_all j bs in
  let out := build_flags_out_all j bs r.1 in
  (build_match_index ps !!! j = 0%N →
   ∀ l1 l2, inp = l1 ++ 1%N :: l2 → 1%N ∉ l1 →
     out = l1 ++ 1%N :: map clear_accepted l2
     ∧ build_match_index r.2 !!! j = 1%N)
  ∧ (1%N ∉ inp →
     out = inp ∧ build_match_index r.2 !!! j = build_match_index ps !!! j)
  ∧ (build_match_index ps !!! j ≠ 0%N →
     out = map clear_accepted inp
     ∧ build_match_index r.2 !!! j = build_match_index ps !!! j).
Proof.
  intros r inp out.
  destruct (rule_batches_spec left_semi_rule j (map swap_batch bs)
              (swap_sides ps) Hj) as (_ & Hrun & _).
  cbn zeta in Hrun. rewrite <- correct_batches_left_semi in Hrun.
  rewrite build_flags_out_all_swap, build_flags_in_all_swap in Hrun.
  assert ((out, build_match_index r.2 !!! j)
          = run_rule left_semi_rule (build_match_index ps !!! j) inp) as Hr.
  { unfold out, inp, r. rewrite correct_batches_right_semi. exact Hrun. }
  split; [|split].
  - intros Hz l1 l2 Hin Hn.
    rewrite Hz, Hin, left_semi_run_first in Hr by exact Hn. by inversion Hr.
  - intros Hn. rewrite left_semi_run_none in Hr by exact Hn. by inversion Hr.
  - intros Hnz. rewrite left_semi_run_seen in Hr by exact Hnz. by inversion Hr.
Qed.

Lemma right_semi_first_match_per_build_row_witness :
  build_flags_in_all 1 example_right_batches = [1; 1]%N
  ∧ build_flags_out_all 1 example_right_batches
      (correct_batches RIGHT_SEMI_JOIN example_right_probe_state
         example_right_batches).1 = [1; 0]%N.
Proof.
  split; [reflexivity|].
  destruct (right_semi_first_match_per_build_row example_right_probe_state
              example_right_batches 1) as (H & _); [simpl; lia|].
  destruct (H eq_refl [] [1%N] eq_refl) as [Hout _]; [apply not_elem_of_nil|].
  exact Hout.
Defined.

(** ** FULL_OUTER: LEFT_OUTER on the probe side, marks on the build
    side *)

Lemma build_marks_from_mono (f : Filter) (p : HashTableProbeState)
    (n m : nat) (bmi : list N) :
  n ≤ m → build_marks_from f p n bmi → build_marks_from f p m bmi.
Proof.
  intros Hle H j. destruct (H j) as [E | (E & i & Hi & Hrest)]; [by left|].
  right. split; [exact E|]. exists i. split; [lia|exact Hrest].
Qed.

Lemma build_marks_from_insert (f : Filter) (p : HashTableProbeState)
    (n : nat) (bmi : list N) :
  f !!! n ≠ 0%N → build_marks_from f p n bmi →
  build_marks_from f p (S n) (<[build_index p !!! n := 1%N]> bmi).
Proof.
  intros Hne H j. rewrite list_lookup_insert. case decide as [[<- Hlt]|Hnot].
  - right. split; [reflexivity|]. exists n. split; [lia|]. by split.
  - by apply (build_marks_from_mono f p n (S n)); [lia|].
Qed.

Lemma full_outer_loop (f : Filter) (p : HashTableProbeState) (n : nat) :
  let s := for_loop n full_outer_step (f, p) in
  let s' := for_loop n left_outer_step (f, p) in
  s.1 = s'.1
  ∧ probe_match_index s.2 = probe_match_index s'.2
  ∧ probe_index s.2 = probe_index p ∧ probe_index s'.2 = probe_index p
  ∧ build_index s.2 = build_index p
  ∧ (∀ k, n ≤ k → s.1 !!! k = f !!! k)
  ∧ build_marks_from f p n (build_match_index s.2).
Proof.
  induction n as [|n IH]; cbn zeta.
  - rewrite !for_loop_0. cbn [fst snd].
    do 5 (split; [reflexivity|]). split; [reflexivity|]. intros j. by left.
  - rewrite !for_loop_S. cbn zeta in IH.
    destruct (for_loop n full_outer_step (f, p)) as [f1 q].
    destruct (for_loop n left_outer_step (f, p)) as [f1' q'].
    cbn [fst snd] in IH.
    destruct IH as (Hf & Hpmi & Hpi & Hpi' & Hbi & Hk & Hb). subst f1'.
    assert (pmi_at q' n = pmi_at q n) as Hat
      by (unfold pmi_at; rewrite Hpmi, Hpi, Hpi'; reflexivity).
    assert (f1 !!! n = f !!! n) as Hfn by (apply Hk; lia).
    assert (∀ v k, S n ≤ k → <[n := v]> f1 !!! k = f !!! k) as Hins.
    { intros v k Hle. rewrite list_lookup_total_insert_ne by lia.
      apply Hk; lia. }
    assert (∀ k, S n ≤ k → f1 !!! k = f !!! k) as Hk'
      by (intros k Hle; apply Hk; lia).
    pose proof (build_marks_from_mono f p n (S n) _ (Nat.le_succ_diag_r n) Hb)
      as Hb'.
    assert (f1 !!! n ≠ 0%N →
            build_marks_from f p (S n) (build_match_index (set_bmi_at q n 1%N)))
      as Hmark.
    { intros Hne. unfold set_bmi_at.
      replace (build_match_index (set_build_match_index q
                 (<[build_index q !!! n := 1%N]> (build_match_index q))))
        with (<[build_index p !!! n := 1%N]> (build_match_index q))
        by (rewrite <- Hbi; by destruct q).
      apply build_marks_from_insert; [by rewrite <- Hfn|exact Hb]. }
    assert (set_probe_match_index q
              (<[probe_index q !!! n := dec32 (pmi_at q n)]>
                 (probe_match_index q))
            = set_pmi_at q n (dec32 (pmi_at q n))) as Hfold by reflexivity.
    unfold full_outer_step, left_outer_step. rewrite Hat.
    destruct (pmi_at q n =? 0)%N; [|destruct (pmi_at q n =? 1)%N];
      destruct (N.eqb_spec (f1 !!! n) 0) as [Hz|Hnz]; cbn [fst snd];
      (split; [reflexivity|]);
      (split; [first [exact Hpmi
                     | unfold set_pmi_at; rewrite Hpmi, Hpi, Hpi';
                       by destruct q, q']|]);
      (split; [first [exact Hpi | by destruct q]|]);
      (split; [first [exact Hpi' | by destruct q']|]);
      (split; [first [exact Hbi | by destruct q]|]);
      (split; [first [apply Hins | exact Hk']|]);
      first [exact Hb' | by apply Hmark | by destruct q].
Qed.

(** The FULL_OUTER correction of a batch leaves the keep/drop vector and
    [probe_match_index] that the LEFT_OUTER correction leaves; beside
    that it changes [build_match_index] only, and there only by setting
    to 1 entries of build rows of candidates whose flag was not 0. *)
Theorem full_outer_extends_left_outer (f : Filter) (p : HashTableProbeState) :
  let r := remove_duplicate_index FULL_OUTER_JOIN (f, p) in
  let r' := remove_duplicate_index LEFT_OUTER_JOIN (f, p) in
  r.1 = r'.1
  ∧ probe_match_index r.2 = probe_match_index r'.2
  ∧ ∀ j, build_match_index r.2 !! j = build_match_index p !! j
         ∨ (build_match_index r.2 !! j = Some 1%N
            ∧ ∃ i, i < length f ∧ f !!! i ≠ 0%N ∧ build_index p !!! i = j).
Proof.
  cbn [remove_duplicate_index].
  unfold _remove_duplicate_index_for_full_outer_join,
    _remove_duplicate_index_for_left_outer_join. cbn [fst].
  destruct (full_outer_loop f p (length f)) as (H1 & H2 & _ & _ & _ & _ & H3).
  split; [exact H1|]. split; [exact H2|exact H3].
Qed.

(** ** [create]: the loops over the tuples and slots in closed form *)

Lemma create_probe_slots_fold (param : HashTableParam)
    (t : JoinHashTableItems) (ss : list SlotDescriptor) :
  foldl (create_probe_slot param) t ss
  = mkItems (build_chunk t) (ti_key_columns t) (build_slots t)
      (probe_slots t ++ map (ht_slot param) ss)
      (output_build_tuple_ids t) (output_probe_tuple_ids t) (row_desc t)
      (join_type t) (bucket_size t) (row_count t) (build_column_count t)
      (probe_column_count t + length ss) (with_other_conjunct t)
      (need_create_tuple_columns t) (left_to_nullable t) (right_to_nullable t)
      (join_keys t) (first t) (ti_next t) (build_slice t).
Proof.
  induction ss as [|s ss IH] using rev_ind.
  - simpl. rewrite app_nil_r, Nat.add_0_r. by destruct t.
  - rewrite foldl_app. simpl. rewrite IH. unfold create_probe_slot. simpl.
    rewrite map_app, length_app, app_assoc, Nat.add_assoc. reflexivity.
Qed.

Lemma create_build_slots_fold (param : HashTableParam)
    (t : JoinHashTableItems) (ss : list SlotDescriptor) :
  foldl (create_build_slot param) t ss
  = mkItems
      (mkChunk (columns (build_chunk t) ++ map default_row_column ss)
         (slot_id_to_index (build_chunk t)
          ++ imap (fun i s => (slot_id s, length (columns (build_chunk t)) + i))
               ss)
         (tuple_id_to_index (build_chunk t)))
      (ti_key_columns t) (build_slots t ++ map (ht_slot param) ss)
      (probe_slots t)
      (output_build_tuple_ids t) (output_probe_tuple_ids t) (row_desc t)
      (join_type t) (bucket_size t) (row_count t)
      (build_column_count t + length ss)
      (probe_column_count t) (with_other_conjunct t)
      (need_create_tuple_columns t) (left_to_nullable t) (right_to_nullable t)
      (join_keys t) (first t) (ti_next t) (build_slice t).
Proof.
  induction ss as [|s ss IH] using rev_ind.
  - simpl. rewrite !app_nil_r, Nat.add_0_r. by destruct t as [[] ?].
  - rewrite foldl_app. simpl. rewrite IH.
    unfold create_build_slot, append_column. simpl.
    rewrite !map_app, imap_app, !length_app, !length_map, !app_assoc,
      Nat.add_assoc.
    simpl. rewrite Nat.add_0_r. reflexivity.
Qed.

Lemma known_tuple_ids_snoc (out : RowDescriptor) (tds : list TupleDescriptor)
    (td : TupleDescriptor) :
  known_tuple_ids out (tds ++ [td])
  = known_tuple_ids out tds
    ++ match get_tuple_idx out (tuple_id td) with
       | Some _ => [tuple_id td]
       | None => []
       end.
Proof.
  unfold known_tuple_ids. rewrite list.filter_app, map_app. f_equal.
  rewrite filter_cons, filter_nil.
  destruct (get_tuple_idx out (tuple_id td)) eqn:E.
  - by rewrite decide_True by (by eexists).
  - by rewrite decide_False by (by intros [? ?]).
Qed.

Lemma create_probe_tuples_fold (param : HashTableParam)
    (t : JoinHashTableItems) (tds : list TupleDescriptor) :
  foldl (create_probe_tuple param) t tds
  = mkItems (build_chunk t) (ti_key_columns t) (build_slots t)
      (probe_slots t ++ map (ht_slot param) (concat (map slots tds)))
      (output_build_tuple_ids t)
      (output_probe_tuple_ids t ++ known_tuple_ids (row_desc t) tds)
      (row_desc t)
      (join_type t) (bucket_size t) (row_count t) (build_column_count t)
      (probe_column_count t + length (concat (map slots tds)))
      (with_other_conjunct t)
      (need_create_tuple_columns t) (left_to_nullable t) (right_to_nullable t)
      (join_keys t) (first t) (ti_next t) (build_slice t).
Proof.
  induction tds as [|td tds IH] using rev_ind.
  - simpl. rewrite !app_nil_r, Nat.add_0_r. by destruct t.
  - rewrite foldl_app. simpl. rewrite IH. unfold create_probe_tuple.
    rewrite create_probe_slots_fold. simpl.
    rewrite known_tuple_ids_snoc, map_app, concat_app, map_app, length_app.
    simpl. rewrite !app_nil_r, !app_assoc, Nat.add_assoc.
    destruct (get_tuple_idx (row_desc t) (tuple_id td)); simpl;
      rewrite ?app_nil_r; reflexivity.
Qed.

Lemma create_build_tuples_fold (param : HashTableParam)
    (t : JoinHashTableItems) (tds : list TupleDescriptor) :
  foldl (create_build_tuple param) t tds
  = mkItems
      (mkChunk
         (columns (build_chunk t)
          ++ map default_row_column (concat (map slots tds)))
         (slot_id_to_index (build_chunk t)
          ++ imap (fun i s => (slot_id s, length (columns (build_chunk t)) + i))
               (concat (map slots tds)))
         (tuple_id_to_index (build_chunk t)))
      (ti_key_columns t)
      (build_slots t ++ map (ht_slot param) (concat (map slots tds)))
      (probe_slots t)
      (output_build_tuple_ids t ++ known_tuple_ids (row_desc t) tds)
      (output_probe_tuple_ids t) (row_desc t)
      (join_type t) (bucket_size t) (row_count t)
      (build_column_count t + length (concat (map slots tds)))
      (probe_column_count t) (with_other_conjunct t)
      (need_create_tuple_columns t) (left_to_nullable t) (right_to_nullable t)
      (join_keys t) (first t) (ti_next t) (build_slice t).
Proof.
  induction tds as [|td tds IH] using rev_ind.
  - simpl. rewrite !app_nil_r, Nat.add_0_r. by destruct t as [[] ?].
  - rewrite foldl_app. simpl. rewrite IH. unfold create_build_tuple.
    rewrite create_build_slots_fold. simpl.
    rewrite known_tuple_ids_snoc, map_app, concat_app, !map_app, imap_app,
      !length_app, !length_map.
    simpl. rewrite !app_nil_r, !app_assoc, !Nat.add_assoc.
    rewrite (imap_ext
               (fun i s => (slot_id s,
                            length (columns (build_chunk t))
                            + length (concat (map slots tds)) + i))
               (fun i s => (slot_id s,
                            length (columns (build_chunk t))
                            + (length (concat (map slots tds)) + i)))
               (slots td))
      by (intros i s _; simpl; f_equal; lia).
    destruct (get_tuple_idx (row_desc t) (tuple_id td)); simpl;
      rewrite ?app_nil_r; reflexivity.
Qed.

(** [create] records the slots of the probe and of the build row
    descriptor tuple by tuple, in order, and counts them; the build
    chunk gets one column per build slot, in the same order and under the
    slot's id, nullable as the slot is and holding the default row only;
    of the tuples of either side, the ids of those the output row
    descriptor knows are recorded. *)
Theorem create_layout (param : HashTableParam) :
  let t := _table_items (create param) in
  let bs := all_slots (param_build_row_desc param) in
  let ps := all_slots (param_probe_row_desc param) in
  build_slots t = map (ht_slot param) bs
  ∧ columns (build_chunk t) = map default_row_column bs
  ∧ slot_id_to_index (build_chunk t) = imap (fun i s => (slot_id s, i)) bs
  ∧ build_column_count t = length bs
  ∧ probe_slots t = map (ht_slot param) ps
  ∧ probe_column_count t = length ps
  ∧ output_build_tuple_ids t
    = known_tuple_ids (param_row_desc param)
        (tuple_descriptors (param_build_row_desc param))
  ∧ output_probe_tuple_ids t
    = known_tuple_ids (param_row_desc param)
        (tuple_descriptors (param_probe_row_desc param))
  ∧ row_count t = 0.
Proof.
  unfold create, all_slots. cbn [_table_items].
  rewrite create_build_tuples_fold, create_probe_tuples_fold. simpl.
  repeat split; reflexivity.
Qed.

(** ** [append_chunk]: the rows of the slot columns *)

Lemma append_slot_value_rows (dst column : Column) (n : nat) :
  rows_appended n dst column
    (if is_nullable dst then append dst column 0 n
     else if is_nullable column then
       append (upgrade_to_nullable dst) column 0 n
     else append dst column 0 n).
Proof.
  destruct dst as [d|d dn], column as [s|s sn]; unfold rows_appended; simpl;
    rewrite ?drop_0, ?length_app, ?replicate_add, ?take_replicate,
      ?length_take; repeat split; reflexivity.
Qed.

Lemma append_slot_columns_rows (chunk : Chunk)
    (slots_ : list HashTableSlotDescriptor) (cols : list Column) (n : nat) :
  ∀ cols',
    foldl (fun acc i => acc ≫= append_slot_column chunk slots_ i)
          (Some cols) (seq 0 n) = Some cols' →
    length cols' = length cols
    ∧ (∀ i, n ≤ i → cols' !! i = cols !! i)
    ∧ (∀ i, i < n →
         ∃ hs column,
           slots_ !! i = Some hs
           ∧ get_column_by_slot_id chunk (slot_id (slot hs)) = Some column
           ∧ rows_appended (num_rows chunk) (cols !!! i) column (cols' !!! i)).
Proof.
  induction n as [|n IH]; intros cols' Hrun.
  - simpl in Hrun. injection Hrun as <-.
    split; [reflexivity|]. split; [reflexivity|]. intros i Hi. lia.
  - rewrite seq_S, foldl_app in Hrun. simpl in Hrun.
    destruct (foldl _ (Some cols) (seq 0 n)) as [cols1|] eqn:Hrun1;
      [|discriminate Hrun].
    destruct (IH cols1 eq_refl) as (Hlen & Hrest & Hdone).
    simpl in Hrun. unfold append_slot_column in Hrun.
    destruct (slots_ !! n) as [hs|] eqn:Hhs; [|discriminate Hrun].
    destruct (cols1 !! n) as [dst|] eqn:Hdst; [|discriminate Hrun].
    simpl in Hrun.
    destruct (get_column_by_slot_id chunk (slot_id (slot hs))) as [column|]
      eqn:Hcol; [|discriminate Hrun].
    simpl in Hrun. injection Hrun as <-.
    assert (n < length cols1) as Hn by (by eapply lookup_lt_Some).
    assert (cols !!! n = dst) as Hold.
    { apply list_lookup_total_correct. rewrite <- Hrest by lia. exact Hdst. }
    split; [by rewrite length_insert|]. split.
    + intros i Hi. rewrite list_lookup_insert_ne by lia. apply Hrest. lia.
    + intros i Hi. destruct (decide (i = n)) as [->|Hne].
      * exists hs, column. split; [exact Hhs|]. split; [exact Hcol|].
        rewrite list_lookup_total_insert_eq by exact Hn. rewrite Hold.
        apply append_slot_value_rows.
      * rewrite list_lookup_total_insert_ne by lia. apply Hdone. lia.
Qed.

(** When [append_chunk] succeeds on a table whose slot columns come
    first in the build chunk, every slot column is the column it was
    with the batch's rows of the batch's column for that slot behind it:
    the rows it held keep their values and their null flags, and a
    column that was not nullable is nullable afterwards exactly when the
    batch's column is. *)
Theorem append_chunk_extends_slot_columns (ht ht' : JoinHashTable)
    (chunk : Chunk) (n : nat)
    (Hinv : build_columns_inv (_table_items ht) n)
    (Happ : append_chunk ht chunk = Some ht') :
  ∀ i, i < build_column_count (_table_items ht) →
    ∃ hs column,
      build_slots (_table_items ht) !! i = Some hs
      ∧ get_column_by_slot_id chunk (slot_id (slot hs)) = Some column
      ∧ rows_appended (num_rows chunk)
          (columns (build_chunk (_table_items ht)) !!! i) column
          (columns (build_chunk (_table_items ht')) !!! i).
Proof.
  destruct Hinv as (Hrc & Hslots & Hcols & Hsize & Htup).
  unfold append_chunk in Happ.
  destruct (foldl _ (Some (columns (build_chunk (_table_items ht)))) _)
    as [cols|] eqn:Hrun; [|discriminate Happ].
  simpl in Happ. injection Happ as <-. cbn [_table_items].
  destruct (append_slot_columns_rows _ _ _ _ cols Hrun) as (Hlen & _ & Hdone).
  intros i Hi. destruct (Hdone i Hi) as (hs & column & Hhs & Hcol & Hrows).
  exists hs, column. split; [exact Hhs|]. split; [exact Hcol|].
  replace (columns (build_chunk (set_row_count (set_build_chunk
             (_table_items ht) _) _)) !!! i) with (cols !!! i); [exact Hrows|].
  destruct (_need_create_tuple_columns ht); [|reflexivity].
  destruct (append_tuple_markers_frame chunk (row_desc (_table_items ht))
              (row_count (_table_items ht))
              (build_column_count (_table_items ht))
              (tuple_id_to_index chunk)
              (set_columns (build_chunk (_table_items ht)) cols))
    as (_ & _ & H3); [simpl; lia|exact Htup|].
  symmetry. apply (H3 i Hi).
Qed.

Lemma append_chunk_extends_slot_columns_witness :
  ∃ hs column,
    build_slots (_table_items (create (example_param INNER_JOIN))) !! 1
      = Some hs
    ∧ get_column_by_slot_id example_nullable_chunk (slot_id (slot hs))
      = Some column
    ∧ rows_appended (num_rows example_nullable_chunk)
        (columns (build_chunk (_table_items
                                 (create (example_param INNER_JOIN)))) !!! 1)
        column
        (columns (build_chunk (_table_items example_appended_table)) !!! 1).
Proof.
  assert (append_chunk (create (example_param INNER_JOIN))
            example_nullable_chunk = Some example_appended_table) as Happ
    by (vm_compute; reflexivity).
  assert (1 < build_column_count
                (_table_items (create (example_param INNER_JOIN)))) as Hlt
    by (vm_compute; lia).
  exact (append_chunk_extends_slot_columns
           (create (example_param INNER_JOIN)) example_appended_table
           example_nullable_chunk 0
           (fresh_build_columns_inv _ (create_fresh _)) Happ 1 Hlt).
Defined.

(** ** [HashJoinBuildOperator::prepare] and [close] *)

Lemma filter_map_absent {A} (f : A → LifecycleCall) (c : LifecycleCall)
    (l : list A) :
  (∀ a, f a ≠ c) → filter (fun x => x = c) (map f l) = [].
Proof.
  intros H. induction l as [|a l IH]; [reflexivity|].
  simpl. rewrite filter_cons, decide_False by apply H. exact IH.
Qed.

Lemma count_prober_calls (f : Joiner → LifecycleCall) (j : Joiner)
    (ids : list nat) :
  (∀ a b, f a = f b → a = b) →
  length (filter (fun c => c = f j) (map (fun id => f (Prober id)) ids))
  = length (filter (fun id => Prober id = j) ids).
Proof.
  intros Hinj. induction ids as [|id ids IH]; [reflexivity|].
  simpl. rewrite !filter_cons.
  destruct (decide (Prober id = j)) as [->|Hne].
  - rewrite decide_True by reflexivity. simpl. by rewrite IH.
  - rewrite decide_False by (intros E; apply Hne, Hinj, E). exact IH.
Qed.

(** When [Operator::prepare] succeeds, [prepare] takes every joiner
    exactly as often as [close] releases it, whatever the builder's
    [prepare] answers, and that answer is what [prepare] returns; when
    it fails, [prepare] returns the failure and has taken no joiner and
    not called the builder. *)
Theorem prepare_close_balanced (operator_prepare builder_prepare : Status)
    (op : HashJoinBuildOperator) :
  let r := Lifecycle.prepare operator_prepare builder_prepare op in
  (operator_prepare = OK →
   r.1 = builder_prepare
   ∧ ∀ j, ref_count j r.2 = unref_count j (Lifecycle.close op))
  ∧ (operator_prepare ≠ OK →
     r.1 = operator_prepare
     ∧ (BuilderPrepare ∉ r.2) ∧ ∀ j, ref_count j r.2 = 0).
Proof.
  unfold Lifecycle.prepare, Lifecycle.close. split.
  - intros ->. split; [reflexivity|]. intros j. cbn [fst snd].
    unfold ref_count, unref_count.
    rewrite !list.filter_app, !length_app.
    rewrite (count_prober_calls Ref) by (by intros a b [= ->]).
    rewrite (count_prober_calls Unref) by (by intros a b [= ->]).
    rewrite !filter_cons, !filter_nil.
    rewrite (decide_False (P := OperatorPrepare = Ref j)) by discriminate.
    rewrite (decide_False (P := BuilderPrepare = Ref j)) by discriminate.
    rewrite (decide_False (P := OperatorClose = Unref j)) by discriminate.
    destruct j as [|id].
    + rewrite !decide_True by reflexivity. simpl. lia.
    + rewrite !decide_False by discriminate. simpl. lia.
  - intros Hne. destruct operator_prepare; [done| |]; cbn [fst snd];
      (split; [reflexivity|]);
      (split; [intros Hin; apply list_elem_of_singleton in Hin; discriminate|]);
      intros j; unfold ref_count; rewrite filter_cons, filter_nil;
      by rewrite decide_False by discriminate.
Qed.

(** ** The nullable variants on batches without a NULL key *)

Section NullableVariants.

Variable key_bytes : list Column → nat → list Byte.byte.
Variable bucket_of_bytes : list Byte.byte → nat → nat.

(** On a build batch in which no row has a NULL indicator set,
    [_build_nullable_columns] links the rows into [first] and [next]
    exactly as [_build_columns] does. *)
Theorem build_nullable_columns_agree_without_nulls (dc : list Column)
    (nc0 : NullColumn) (rest : list NullColumn) (start count : nat)
    (ctx0 : BuildCtx)
    (Hb : count ≤ length (buckets ctx0.1.2))
    (Hn : count ≤ length (is_nulls ctx0.1.2))
    (Hs : start + count ≤ length (build_slice ctx0.1.1))
    (Hnone : ∀ r, start ≤ r < start + count →
                  null_or (nc0 :: rest) r = 0%N) :
  let a := _build_nullable_columns key_bytes bucket_of_bytes dc (nc0 :: rest)
             start count ctx0 in
  let b := _build_columns key_bytes bucket_of_bytes dc start count ctx0 in
  first a.1.1 = first b.1.1 ∧ ti_next a.1.1 = ti_next b.1.1.
Proof.
  intros a b.
  destruct (build_nullable_columns_effect key_bytes bucket_of_bytes dc nc0 rest
              start count ctx0 Hb Hn Hs) as (_ & _ & _ & _ & _ & _ & Ha).
  destruct (build_columns_effect key_bytes bucket_of_bytes dc start count ctx0
              Hb Hs) as (_ & _ & _ & _ & _ & _ & Hbb).
  fold a in Ha. fold b in Hbb.
  rewrite (link_rows_ext _ (row_included []) _ (seq start count)) in Ha.
  - rewrite <- Hbb in Ha. by inversion Ha.
  - intros r Hr. apply elem_of_seq in Hr. unfold row_included.
    rewrite Hnone by lia. reflexivity.
Qed.

(** On a probe chunk in which no row has a NULL indicator set,
    [_probe_nullable_column] leaves the cursors [_probe_column]
    leaves. *)
Theorem probe_nullable_column_agrees_without_nulls (t : JoinHashTableItems)
    (dc : list Column) (nc0 : NullColumn) (rest : list NullColumn)
    (p : HashTableProbeState) (ptr : nat)
    (Hn : probe_row_count p ≤ length (is_nulls p))
    (Hx : probe_row_count p ≤ length (ps_next p))
    (Hb : probe_row_count p ≤ length (buckets p))
    (Hs : probe_row_count p ≤ length (probe_slice p))
    (Hnone : ∀ i, i < probe_row_count p → null_or (nc0 :: rest) i = 0%N) :
  ps_next (_probe_nullable_column key_bytes bucket_of_bytes t dc (nc0 :: rest)
             (p, ptr)).1
  = ps_next (_probe_column key_bytes bucket_of_bytes t dc (p, ptr)).1.
Proof.
  destruct (probe_nullable_column_spec key_bytes bucket_of_bytes t dc nc0 rest
              p ptr) as ((_ & Hla & _ & _ & Hka) & Ha).
  destruct (probe_column_spec key_bytes bucket_of_bytes t dc p ptr)
    as ((_ & Hlb & _ & _ & Hkb) & _ & Hbb).
  apply list_eq. intros i.
  destruct (decide (i < probe_row_count p)) as [Hi|Hi].
  - rewrite !(list_lookup_lookup_total_lt _ i) by lia. f_equal.
    rewrite Ha, Hbb; try assumption; [reflexivity|].
    unfold row_included. rewrite Hnone by exact Hi. reflexivity.
  - rewrite Hka, Hkb by lia. reflexivity.
Qed.

End NullableVariants.

Lemma build_nullable_columns_agree_without_nulls_witness :
  let a := _build_nullable_columns example_key_bytes example_bucket_of_bytes
             [ValueColumn [0; 5; 6]%Z] [[0; 0; 0]%N] 1 2 example_build_ctx in
  let b := _build_columns example_key_bytes example_bucket_of_bytes
             [ValueColumn [0; 5; 6]%Z] 1 2 example_build_ctx in
  first a.1.1 = first b.1.1 ∧ ti_next a.1.1 = ti_next b.1.1.
Proof.
  apply (build_nullable_columns_agree_without_nulls example_key_bytes
           example_bucket_of_bytes [ValueColumn [0; 5; 6]%Z] [0; 0; 0]%N []
           1 2 example_build_ctx).
  - vm_compute. lia.
  - vm_compute. lia.
  - vm_compute. lia.
  - intros r Hr. assert (r = 1 ∨ r = 2) as [-> | ->] by lia; reflexivity.
Defined.

Lemma probe_nullable_column_agrees_without_nulls_witness :
  let t := _table_items (example_build 2 (example_table RIGHT_OUTER_JOIN)).2 in
  ps_next (_probe_nullable_column example_key_bytes example_bucket_of_bytes t
             [ValueColumn [10; 11; 12]%Z] [[0; 0; 0]%N]
             (example_probe_batch, 0)).1
  = ps_next (_probe_column example_key_bytes example_bucket_of_bytes t
               [ValueColumn [10; 11; 12]%Z] (example_probe_batch, 0)).1.
Proof.
  intros t.
  apply (probe_nullable_column_agrees_without_nulls example_key_bytes
           example_bucket_of_bytes t [ValueColumn [10; 11; 12]%Z]
           [0; 0; 0]%N [] example_probe_batch 0).
  - vm_compute. lia.
  - vm_compute. lia.
  - vm_compute. lia.
  - vm_compute. lia.
  - intros i Hi. change (probe_row_count example_probe_batch) with 3 in Hi.
    assert (i = 0 ∨ i = 1 ∨ i = 2) as [-> | [-> | ->]] by lia; reflexivity.
Defined.

(** ** [build]: the selector's answer always has a build routine *)

Lemma choose_not_empty (sizeof_CppType : PrimitiveType → nat)
    (keys : list JoinKeyDesc) (cols : list Column) :
  (_choose_join_hash_map sizeof_CppType keys cols).1 ≠ empty.
Proof.
  destruct (packed_path (drop_null_safe_flags keys cols)) eqn:Hpath.
  - rewrite choose_on_packed_path by exact Hpath.
    destruct (sum_key_sizes _ _ _) as [total|]; [|discriminate].
    pose proof (layout_of_total_packed total) as Hin. intros Heq.
    rewrite Heq in Hin.
    repeat (apply elem_of_cons in Hin as [Hin|Hin]; [discriminate Hin|]).
    by apply elem_of_nil in Hin.
  - unfold packed_path in Hpath. apply negb_false_iff in Hpath.
    unfold _choose_join_hash_map. rewrite Hpath. cbn [fst].
    by destruct (type _).
Qed.

(** [build] never takes its branch for the [empty] layout: whatever the
    keys, it hands the table to the build routine of the layout the
    selector chose and returns that routine's status.  The routine gets
    the keys the selector wrote back, the bucket count computed from
    row count plus one, [first] sized to the bucket count and [next] to
    row count plus one. *)
Theorem build_runs_layout_routine (sizeof_CppType : PrimitiveType → nat)
    (calc_bucket_size : nat → nat)
    (prepare_map_index : HashTableProbeState → nat → HashTableProbeState)
    (layout_build :
       JoinHashMapType → nat → JoinHashTableItems → HashTableProbeState →
       Status * JoinHashTableItems * HashTableProbeState)
    (chunk_size : nat) (ht : JoinHashTable) :
  let t := _table_items ht in
  let chosen :=
    _choose_join_hash_map sizeof_CppType (join_keys t) (ti_key_columns t) in
  let r := build sizeof_CppType calc_bucket_size prepare_map_index
             layout_build chunk_size ht in
  _hash_map_type r.2 = chosen.1
  ∧ ∃ t1 p1,
      (r.1, _table_items r.2, _probe_state r.2)
      = layout_build chosen.1 chunk_size t1 p1
      ∧ join_keys t1 = chosen.2
      ∧ row_count t1 = row_count t
      ∧ bucket_size t1 = calc_bucket_size (row_count t + 1)
      ∧ length (first t1) = bucket_size t1
      ∧ length (ti_next t1) = row_count t + 1.
Proof.
  intros t chosen r. subst r chosen. unfold build. fold t.
  pose proof (choose_not_empty sizeof_CppType (join_keys t) (ti_key_columns t))
    as Hne.
  destruct (_choose_join_hash_map _ _ _) as [tag keys]. cbn [fst snd] in *.
  destruct tag; [done|..];
    match goal with
    | |- context [layout_build ?tag ?n ?t1 ?p1] =>
        destruct (layout_build tag n t1 p1) as [[st t'] p'] eqn:E;
        cbn [fst snd _hash_map_type _table_items _probe_state];
        (split; [reflexivity|]); exists t1, p1;
        (split; [by rewrite E|]); cbn;
        rewrite !length_resize; repeat split; reflexivity
    end.
Qed.
